(** * quota-tools: mount-table discovery and quota-format resolution

    A shallow embedding of the quota/system interaction code (the
    mount-option parser, the kernel-interface probe, the quota-file name
    resolver, the active-format resolver and the mount-table cache) together
    with the properties its specification states about them. *)

From Stdlib Require Import String Ascii List ZArith Lia Bool Arith.
Import ListNotations.

Open Scope string_scope.

(** ** C strings

    A value of type [string] stands for the characters of a C string that
    precede its terminating NUL: [EmptyString] is the terminator, and a
    pointer into a string is an offset ([nat]) from its first character. *)
Module CStr.

Definition strlen (s : string) : nat := String.length s.

(** [p + n] for a pointer [p] to the first character of [s]. *)
Fixpoint str_drop (n : nat) (s : string) : string :=
  match n, s with
  | O, _ => s
  | S n', String _ r => str_drop n' r
  | S _, EmptyString => EmptyString
  end.

Fixpoint str_take (n : nat) (s : string) : string :=
  match n, s with
  | O, _ => EmptyString
  | S n', String c r => String c (str_take n' r)
  | S _, EmptyString => EmptyString
  end.

(** [optstring[p]]; [None] is the terminating NUL. *)
Definition char_at (s : string) (p : nat) : option ascii := String.get p s.

Definition is_nul (c : option ascii) : bool :=
  match c with None => true | Some _ => false end.

Definition is_char (x : ascii) (c : option ascii) : bool :=
  match c with None => false | Some y => Ascii.eqb y x end.

(** [strncmp(a, b, n) == 0]. *)
Fixpoint strncmp_eq (a b : string) (n : nat) : bool :=
  match n with
  | O => true
  | S n' =>
      match a, b with
      | EmptyString, EmptyString => true
      | String x a', String y b' =>
          if Ascii.eqb x y then strncmp_eq a' b' n' else false
      | _, _ => false
      end
  end.

(** [strcmp(a, b) == 0]. *)
Definition strcmp_eq (a b : string) : bool := String.eqb a b.

(** The number of characters a scanning loop steps over: it advances
    [p] until the terminator or a character that satisfies [stop]. *)
Fixpoint span_until (stop : ascii -> bool) (s : string) : nat :=
  match s with
  | EmptyString => O
  | String c r => if stop c then O else S (span_until stop r)
  end.

(** [strchr(s, c)] as an offset; [None] is the NULL pointer. *)
Fixpoint strchr (s : string) (c : ascii) : option nat :=
  match s with
  | EmptyString => None
  | String x r =>
      if Ascii.eqb x c then Some O
      else match strchr r c with Some i => Some (S i) | None => None end
  end.

(** common.c: [strncpy(d, s, len); d[len - 1] = 0;] leaves in [d] the
    first [len - 1] characters of [s]. *)
Definition sstrncpy (s : string) (len : nat) : string :=
  str_take (len - 1) s.

(** common.c: [strncat(d, s, len); d[len - 1] = 0;] on a buffer of [len]
    bytes: [d] followed by at most [len] characters of [s], cut to
    [len - 1] characters. *)
Definition sstrncat (d s : string) (len : nat) : string :=
  str_take (len - 1) (d ++ str_take len s).

(** [snprintf(buf, size, ...)] keeps [size - 1] characters of the
    formatted text. *)
Definition snprintf (size : nat) (formatted : string) : string :=
  str_take (size - 1) formatted.

End CStr.
Import CStr.

(** ** MountOptionParser *)
Module MountOptionParser.

Definition is_comma (c : ascii) : bool := Ascii.eqb c ",".
Definition is_comma_or_eq (c : ascii) : bool :=
  Ascii.eqb c "," || Ascii.eqb c "=".

(** One pass of the [do ... while] loop of [str_hasmntopt] per unit of
    fuel; [p] is the offset of the pointer [p] in [optstring]. *)
Fixpoint str_hasmntopt_loop (fuel : nat) (optstring opt : string) (p : nat)
  : option nat :=
  match fuel with
  | O => None
  | S fuel' =>
      let len := strlen opt in
      let s := p in
      let p := p + span_until is_comma_or_eq (str_drop p optstring) in
      if ((p - s) =? len)%nat && strncmp_eq (str_drop s optstring) opt len
      then Some s
      else
        let p :=
          if is_char "=" (char_at optstring p)
          then S p + span_until is_comma (str_drop (S p) optstring)
          else p in
        let p := if is_nul (char_at optstring p) then p else S p in
        if is_nul (char_at optstring p) then None
        else str_hasmntopt_loop fuel' optstring opt p
  end.

(** Return pointer to given mount option in mount option string. Every
    pass but the last advances [p], so the loop body runs at most
    [strlen optstring + 1] times. *)
Definition str_hasmntopt (optstring opt : string) : option nat :=
  str_hasmntopt_loop (S (strlen optstring)) optstring opt 0.

(** Return if given option has nonempty argument. *)
Definition hasmntoptarg (optstring opt : string) : option nat :=
  match str_hasmntopt optstring opt with
  | None => None
  | Some p =>
      let p := p + strlen opt in
      if is_char "=" (char_at optstring p)
         && negb (is_char "," (char_at optstring (S p)))
      then Some (S p)
      else None
  end.

(** Copy out mount option argument to a buffer of [buflen] bytes; the
    result is the content of [buf]. *)
Definition copy_mntoptarg (optarg : string) (buflen : nat) : string :=
  match strchr optarg "," with
  | None => sstrncpy optarg (Nat.min buflen (strlen optarg + 1))
  | Some sep => sstrncpy optarg (Nat.min buflen (sep + 1))
  end.

End MountOptionParser.
Import MountOptionParser.

Open Scope Z_scope.

(** ** Constants of the headers

    The values of the macros of quota.h, quotaio.h, quotasys.h, mntopt.h and
    config.h are not fixed by the code that uses them; the development is
    parametric in them. *)
Class Headers := {
  (* quotaio.h: utility quota formats *)
  QF_ERROR : Z;
  QF_VFSOLD : Z;
  QF_VFSV0 : Z;
  QF_VFSV1 : Z;
  QF_RPC : Z;
  QF_XFS : Z;
  QF_META : Z;
  QF_VFSUNKNOWN : Z;
  is_tree_qfmt : Z -> bool;
  INITQFBASENAMES : list string;
  (* quota.h: kernel formats, quotactl commands, type names *)
  QFMT_VFS_OLD : Z;
  QFMT_VFS_V0 : Z;
  QFMT_VFS_V1 : Z;
  QFMT_OCFS2 : Z;
  Q_GETFMT : Z;
  Q_GETINFO : Z;
  DQF_SYS_FILE : Z;
  INITQFNAMES : list string;
  (* dqblk_v1.h, dqblk_v2.h, dqblk_xfs.h *)
  Q_V1_GETQUOTA : Z;
  Q_V1_GETSTATS : Z;
  Q_V2_GETQUOTA : Z;
  Q_V2_GETSTATS : Z;
  Q_XGETQSTAT : Z;
  Q_XFS_GETQSTAT : Z;
  XFS_QUOTA_UDQ_ACCT : Z;
  XFS_QUOTA_GDQ_ACCT : Z;
  (* quotasys.h *)
  IFACE_VFSOLD : Z;
  IFACE_VFSV0 : Z;
  IFACE_GENERIC : Z;
  NF_EXIST : Z;
  NF_FORMAT : Z;
  MS_NO_AUTOFS : Z;
  MS_LOCALONLY : Z;
  MS_XFS_DISABLED : Z;
  MS_NFS_ALL : Z;
  (* mntopt.h *)
  MNTOPT_NOQUOTA : string;
  MNTOPT_QUOTA : string;
  MNTOPT_USRQUOTA : string;
  MNTOPT_USRJQUOTA : string;
  MNTOPT_GRPQUOTA : string;
  MNTOPT_GRPJQUOTA : string;
  MNTOPT_BIND : string;
  MNTOPT_LOOP : string;
  MNTTYPE_EXT4 : string;
  MNTTYPE_NFS : string;
  MNTTYPE_NFS4 : string;
  MNTTYPE_MPFS : string;
  MNTTYPE_XFS : string;
  MNTTYPE_GFS2 : string;
  MNTTYPE_OCFS2 : string;
  MNTTYPE_AUTOFS : string;
  (* config.h *)
  ALT_MTAB : option string;
  XFS_ROOTHACK : bool
}.

(** ** System interface *)

(** <errno.h>, <limits.h>, <paths.h>, <sys/stat.h> on Linux. *)
Definition EPERM : Z := 1.
Definition ENOENT : Z := 2.
Definition EINVAL : Z := 22.
Definition ENOSYS : Z := 38.
Definition ENOTSUP : Z := 95.
Definition PATH_MAX : nat := 4096.
Definition _PATH_MOUNTED : string := "/etc/mtab".
Definition _PATH_MNTTAB : string := "/etc/fstab".
Definition S_IFMT : Z := 61440.
Definition S_IFCHR : Z := 8192.
Definition S_IFBLK : Z := 24576.
Definition S_ISCHR (m : Z) : bool := Z.land m S_IFMT =? S_IFCHR.
Definition S_ISBLK (m : Z) : bool := Z.land m S_IFMT =? S_IFBLK.

(** The two quota types, the valid indices of a [MAXQUOTAS]-element array. *)
Inductive qtype := USRQUOTA | GRPQUOTA.

Definition qtype_eqb (a b : qtype) : bool :=
  match a, b with
  | USRQUOTA, USRQUOTA | GRPQUOTA, GRPQUOTA => true
  | _, _ => false
  end.

Definition type_index (t : qtype) : nat :=
  match t with USRQUOTA => 0 | GRPQUOTA => 1 end.

Definition type_code (t : qtype) : Z := Z.of_nat (type_index t).

(** An [int x[MAXQUOTAS]] array. *)
Record qarray := { q_usr : Z; q_grp : Z }.

Definition qget (a : qarray) (t : qtype) : Z :=
  match t with USRQUOTA => q_usr a | GRPQUOTA => q_grp a end.

(** The outcome of a system call: success with what it stored in its
    result buffer, or failure (return value [-1]) with the [errno] it set. *)
Inductive sysres (A : Type) :=
| SysOk (a : A)
| SysErr (errno : Z).
Arguments SysOk {A} a.
Arguments SysErr {A} errno.

Definition sysret {A} (r : sysres A) : Z :=
  match r with SysOk _ => 0 | SysErr _ => -1 end.

Record stat_t := { st_mode : Z; st_dev : Z; st_rdev : Z; st_ino : Z }.
Record statfs_t := { f_blocks : Z; f_bfree : Z; f_bavail : Z }.

(** struct mntent of <mntent.h>. *)
Record mntent := {
  mnt_fsname : string;
  mnt_dir : string;
  mnt_type : string;
  mnt_opts : string
}.

(** struct mount_entry of quotasys.h; [me_dir] is NULL ([None]) until
    [get_next_mount] sets it. *)
Record mount_entry := {
  me_type : string;
  me_opts : string;
  me_dev : Z;
  me_ino : Z;
  me_devname : string;
  me__dir : string;
  me_dir : option string;
  me_qfmt : qarray
}.

(** What the functions call outside this file: system calls, libc and the
    other modules. The answers depend on the arguments only: the machine
    does not change while it is inspected.

    [sys_quotactl op type special id] answers [quotactl(QCMD(op, type),
    special, id, addr)]; on success it carries the one field of the result
    buffer that the caller reads ([qs_flags], [dqi_flags] or the format). *)
Record World := {
  sys_stat : string -> sysres stat_t;
  sys_statfs : string -> sysres statfs_t;
  sys_open_rdonly : string -> sysres Z;
  sys_realpath : string -> sysres string;
  sys_quotactl : Z -> Z -> option string -> Z -> sysres Z;
  sys_sigemptyset : Z;
  sys_sigaction : bool -> Z;
  sys_getuid : Z;
  sys_getgid : Z;
  sys_setmntent : string -> option (list mntent);
  libc_hasmntopt : mntent -> string -> bool;
  get_device_name : string -> option string;
  check_file_flat : string -> qtype -> Z -> Z;
  check_file_tree : string -> qtype -> Z -> Z;
  strerror : Z -> string;
  uninitialized_loopdev : string
}.

(** What a run leaves behind: the calls it issued, the diagnostics it
    printed, the mount records it classified. *)
Inductive event :=
| EvSigaction (restore : bool)
| EvStat (path : string)
| EvQuotactl (op type : Z) (special : option string) (id : Z)
| EvErrstr (fmtstr : string) (args : list string)
| EvHasquota (devname : string) (mnt : mntent) (type : qtype).

(** A pointer used as a C truth value; [None] is NULL. *)
Definition nonnull {A} (p : option A) : bool :=
  match p with Some _ => true | None => false end.

(** [flags & mask] as a C truth value. *)
Definition flag_set (flags mask : Z) : bool := negb (Z.land flags mask =? 0).

(** How a function that may call [die] ends. *)
Inductive exit (S : Type) :=
| Returns (s : S)
| Dies (status : Z) (msg : string) (s : S).
Arguments Returns {S} s.
Arguments Dies {S} status msg s.

Definition exit_state {S} (x : exit S) : S :=
  match x with Returns s => s | Dies _ _ s => s end.

(** ** The functions of the quota/system interaction file *)
Section QuotaSys.

Context {H : Headers}.
Variable W : World.

(** Check for various kinds of NFS filesystem. *)
Definition nfs_fstype (type : string) : bool :=
  strcmp_eq type MNTTYPE_NFS || strcmp_eq type MNTTYPE_NFS4
  || strcmp_eq type MNTTYPE_MPFS.

Definition meta_qf_fstype (type : string) : bool :=
  strcmp_eq type MNTTYPE_OCFS2.

(** Convert type of quota to written representation: a row of
    [extensions[MAXQUOTAS + 2][20]]; the rows past the initializer hold
    the empty string. *)
Definition type2name (type : qtype) : string :=
  nth (type_index type) INITQFNAMES "".

(** Convert kernel to utility quota format number. *)
Definition kern2utilfmt (kernfmt : Z) : Z :=
  if kernfmt =? QFMT_VFS_OLD then QF_VFSOLD
  else if kernfmt =? QFMT_VFS_V0 then QF_VFSV0
  else if kernfmt =? QFMT_VFS_V1 then QF_VFSV1
  else if kernfmt =? QFMT_OCFS2 then QF_META
  else -1.

(** *** FilesystemQuotaClassifier *)

(** Check for XFS filesystem with quota accounting enabled. *)
Definition hasxfsquota (dev : string) (mnt : mntent) (type : qtype)
  (flags : Z) : Z :=
  if flag_set flags MS_XFS_DISABLED then QF_XFS
  else
    match sys_quotactl W Q_XFS_GETQSTAT (type_code type) (Some dev) 0 with
    | SysOk qs_flags =>
        let sbflags := Z.shiftr (Z.land qs_flags 65280) 8 in
        if qtype_eqb type USRQUOTA && flag_set qs_flags XFS_QUOTA_UDQ_ACCT
        then QF_XFS
        else if qtype_eqb type GRPQUOTA
                && flag_set qs_flags XFS_QUOTA_GDQ_ACCT
        then QF_XFS
        else if XFS_ROOTHACK then
          if negb (strcmp_eq (mnt_dir mnt) "/") then QF_ERROR
          else if qtype_eqb type USRQUOTA
                  && flag_set sbflags XFS_QUOTA_UDQ_ACCT
          then QF_XFS
          else if qtype_eqb type GRPQUOTA
                  && flag_set sbflags XFS_QUOTA_GDQ_ACCT
          then QF_XFS
          else QF_ERROR
        else QF_ERROR
    | SysErr _ => QF_ERROR
    end.

Definition hasvfsmetaquota (dev : string) (mnt : mntent) (type : qtype)
  (flags : Z) : Z :=
  match sys_quotactl W Q_GETFMT (type_code type) (Some dev) 0 with
  | SysOk _ => QF_META
  | SysErr _ => QF_ERROR
  end.

(** Check to see if a particular quota is to be enabled (filesystem
    mounted with proper option). *)
Definition hasquota (dev : string) (mnt : mntent) (type : qtype)
  (flags : Z) : Z :=
  if strcmp_eq (mnt_type mnt) MNTTYPE_GFS2
     || strcmp_eq (mnt_type mnt) MNTTYPE_XFS
  then hasxfsquota dev mnt type flags
  else if strcmp_eq (mnt_type mnt) MNTTYPE_OCFS2
  then hasvfsmetaquota dev mnt type flags
  else if strcmp_eq (mnt_type mnt) MNTTYPE_EXT4
          && match sys_quotactl W Q_GETINFO (type_code type) (Some dev) 0
             with
             | SysOk dqi_flags => flag_set dqi_flags DQF_SYS_FILE
             | SysErr _ => false
             end
  then QF_META
  else if nfs_fstype (mnt_type mnt) then QF_RPC
  else if qtype_eqb type USRQUOTA
          && (libc_hasmntopt W mnt MNTOPT_USRQUOTA
              || nonnull (hasmntoptarg (mnt_opts mnt) MNTOPT_USRJQUOTA))
  then QF_VFSUNKNOWN
  else if qtype_eqb type GRPQUOTA
          && (libc_hasmntopt W mnt MNTOPT_GRPQUOTA
              || nonnull (hasmntoptarg (mnt_opts mnt) MNTOPT_GRPJQUOTA))
  then QF_VFSUNKNOWN
  else if qtype_eqb type USRQUOTA && libc_hasmntopt W mnt MNTOPT_QUOTA
  then QF_VFSUNKNOWN
  else -1.

(** *** QuotaFileResolver *)

(** Check whether quotafile for given format exists; the value returned
    and the diagnostics printed. *)
Definition check_fmtfile_ok (name : string) (type : qtype) (fmt : Z)
  (flags : Z) : Z * list event :=
  if flags =? 0 then (1, [])
  else
    let exist :=
      if flag_set flags NF_EXIST then
        match sys_stat W name with
        | SysErr errno =>
            Some (0, if negb (errno =? ENOENT)
                     then [EvErrstr "Cannot stat quota file %s: %s\n"
                             [name; strerror W errno]]
                     else [])
        | SysOk _ => None
        end
      else None in
    match exist with
    | Some r => r
    | None =>
        if flag_set flags NF_FORMAT then
          match sys_open_rdonly W name with
          | SysOk fd =>
              let ret :=
                if is_tree_qfmt fmt then check_file_tree W name type fmt
                else check_file_flat W name type fmt in
              if ret <=? 0 then (0, []) else (1, [])
          | SysErr errno =>
              if negb (errno =? ENOENT) && negb (errno =? EPERM)
              then (0, [EvErrstr "Cannot open quotafile %s: %s\n"
                          [name; strerror W errno]])
              else (1, [])
          end
        else (1, [])
    end.

(** The content of [qfullname] when [get_qf_name] reaches
    [check_fmtfile_ok]. *)
Inductive qfname :=
| NoQuotaOption              (* no branch applies: return -1 *)
| UndefinedName              (* NULL [me_dir] or [basenames[fmt]] out of
                                bounds *)
| QfName (qfullname : string).

(** [qfullname] after [sstrncpy(qfullname, mnt->me_dir, sizeof(qfullname));
    sstrncat(qfullname, "/", sizeof(qfullname));]. *)
Definition mntdir_slash (me_dir : string) : string :=
  sstrncat (sstrncpy me_dir PATH_MAX) "/" PATH_MAX.

(** [copy_mntoptarg(qfullname + len, pathname, sizeof(qfullname) - len)]
    with [len = strlen(qfullname)]. *)
Definition append_mntoptarg (qfullname opts : string) (pathname : nat)
  : string :=
  let len := strlen qfullname in
  qfullname ++ copy_mntoptarg (str_drop pathname opts) (PATH_MAX - len).

Definition default_qfname (mnt : mount_entry) (type : qtype) (fmt : Z)
  : qfname :=
  match me_dir mnt with
  | None => UndefinedName
  | Some dir =>
      if fmt <? 0 then UndefinedName
      else
        match nth_error INITQFBASENAMES (Z.to_nat fmt) with
        | None => UndefinedName
        | Some base =>
            QfName (snprintf PATH_MAX
                      (dir ++ "/" ++ base ++ "." ++ type2name type))
        end
  end.

Definition qf_fullname (mnt : mount_entry) (type : qtype) (fmt : Z)
  : qfname :=
  let opts := me_opts mnt in
  let finish (qfullname : string) (pathname : nat)
        (has_quota_file_definition : bool) :=
    if has_quota_file_definition
    then QfName (append_mntoptarg qfullname opts pathname)
    else default_qfname mnt type fmt in
  (* [option + strlen(name)], stepping over the '=' found there *)
  let with_arg (option : nat) (name : string) :=
    let pathname := (option + strlen name)%nat in
    if is_char "=" (char_at opts pathname)
    then finish "" (S pathname) true
    else finish "" pathname false in
  let journaled (option : nat) :=
    match me_dir mnt with
    | None => UndefinedName
    | Some dir => finish (mntdir_slash dir) option true
    end in
  match type with
  | USRQUOTA =>
      match str_hasmntopt opts MNTOPT_USRQUOTA with
      | Some option =>
          (* here [pathname] stays on the '=' *)
          let pathname := (option + strlen MNTOPT_USRQUOTA)%nat in
          finish "" pathname (is_char "=" (char_at opts pathname))
      | None =>
          match hasmntoptarg opts MNTOPT_USRJQUOTA with
          | Some option => journaled option
          | None =>
              match str_hasmntopt opts MNTOPT_QUOTA with
              | Some option => with_arg option MNTOPT_QUOTA
              | None => NoQuotaOption
              end
          end
      end
  | GRPQUOTA =>
      match str_hasmntopt opts MNTOPT_GRPQUOTA with
      | Some option => with_arg option MNTOPT_GRPQUOTA
      | None =>
          match hasmntoptarg opts MNTOPT_GRPJQUOTA with
          | Some option => journaled option
          | None => NoQuotaOption
          end
      end
  end.

(** The result of [get_qf_name]: the value returned, [*filename] if it
    was assigned, the diagnostics printed. *)
Inductive qf_result :=
| QfUndefined
| QfReturn (ret : Z) (filename : option string) (diag : list event).

(** Get quotafile name for given entry. Return 0 in case format check
    succeeded, otherwise return -1. *)
Definition get_qf_name (mnt : mount_entry) (type : qtype) (fmt : Z)
  (flags : Z) : qf_result :=
  match qf_fullname mnt type fmt with
  | NoQuotaOption => QfReturn (-1) None []
  | UndefinedName => QfUndefined
  | QfName qfullname =>
      let '(ok, diag) := check_fmtfile_ok qfullname type fmt flags in
      if negb (ok =? 0) then QfReturn 0 (Some qfullname) diag
      else QfReturn (-1) None diag
  end.

(** *** KernelInterfaceProbe *)

(** The globals [kernel_iface] and [kernel_qfmt[0 .. kernel_qfmt_num - 1]],
    and the calls issued so far. *)
Record kstate := {
  kernel_iface : Z;
  kernel_qfmt : list Z;
  ktrace : list event
}.

(** The globals when the process starts. *)
Definition kstate0 : kstate :=
  {| kernel_iface := 0; kernel_qfmt := []; ktrace := [] |}.

Definition klog (e : event) (k : kstate) : kstate :=
  {| kernel_iface := kernel_iface k;
     kernel_qfmt := kernel_qfmt k;
     ktrace := (ktrace k ++ [e])%list |}.

(** [kernel_qfmt[kernel_qfmt_num++] = fmt]. *)
Definition kpush (fmt : Z) (k : kstate) : kstate :=
  {| kernel_iface := kernel_iface k;
     kernel_qfmt := (kernel_qfmt k ++ [fmt])%list;
     ktrace := ktrace k |}.

Definition kset_iface (iface : Z) (k : kstate) : kstate :=
  {| kernel_iface := iface;
     kernel_qfmt := kernel_qfmt k;
     ktrace := ktrace k |}.

Definition kreset_qfmt (k : kstate) : kstate :=
  {| kernel_iface := kernel_iface k;
     kernel_qfmt := [];
     ktrace := ktrace k |}.

(** The first part of the probe: is the XFS format supported? *)
Definition probe_xfs (k : kstate) : kstate :=
  let k := klog (EvStat "/proc/fs/xfs/stat") k in
  match sys_stat W "/proc/fs/xfs/stat" with
  | SysOk _ => kpush QF_XFS k
  | SysErr _ =>
      let k := klog (EvQuotactl Q_XGETQSTAT 0 (Some "/dev/root") 0) k in
      match sys_quotactl W Q_XGETQSTAT 0 (Some "/dev/root") 0 with
      | SysOk _ => kpush QF_XFS k
      | SysErr errno =>
          if negb (errno =? EINVAL) && negb (errno =? ENOSYS)
          then kpush QF_XFS k
          else k
      end
  end.

(** [!stat("/proc/sys/fs/quota", &st) || errno != ENOENT]: assume generic
    interface unless we can prove there is not one. *)
Definition generic_assumed : bool :=
  match sys_stat W "/proc/sys/fs/quota" with
  | SysOk _ => true
  | SysErr errno => negb (errno =? ENOENT)
  end.

(** [if (quotactl(QCMD(Q_V1_GETSTATS, 0), NULL, 0, tmp)) err_stat = errno;]
    with [err_stat] initially 0. *)
Definition err_stat : Z :=
  match sys_quotactl W Q_V1_GETSTATS 0 None 0 with
  | SysOk _ => 0
  | SysErr errno => errno
  end.

(** [if (quotactl(QCMD(Q_V1_GETQUOTA, 0), "/dev/null", 0, tmp))
    err_quota = errno;] with [err_quota] initially 0. *)
Definition err_quota : Z :=
  match sys_quotactl W Q_V1_GETQUOTA 0 (Some "/dev/null") 0 with
  | SysOk _ => 0
  | SysErr errno => errno
  end.

(** The RedHat 7.1 (2.4.2-2) newquota check: the errors of a version-1
    statistics call and of a version-1 get-quota call decide. *)
Definition probe_legacy (k : kstate) : kstate :=
  let k := klog (EvQuotactl Q_V1_GETSTATS 0 None 0) k in
  let k := klog (EvQuotactl Q_V1_GETQUOTA 0 (Some "/dev/null") 0) k in
  (* On a RedHat 2.4.2-2 we expect 0, EINVAL; on a 2.4.x 0, ENOENT *)
  if (err_stat =? 0) && (err_quota =? EINVAL)
  then kset_iface IFACE_VFSV0 (kpush QF_VFSV0 k)
  else kset_iface IFACE_VFSOLD (kpush QF_VFSOLD k).

(** The part of [init_kernel_interface] between the two [sigaction]
    calls. *)
Definition probe_kernel_interface (k : kstate) : kstate :=
  let k := probe_xfs (kreset_qfmt k) in
  let k := klog (EvStat "/proc/sys/fs/quota") k in
  if generic_assumed then
    kpush QF_VFSV1
      (kpush QF_VFSV0 (kpush QF_VFSOLD (kpush QF_META
         (kset_iface IFACE_GENERIC k))))
  else
    let k := klog (EvQuotactl Q_V2_GETSTATS 0 None 0) k in
    match sys_quotactl W Q_V2_GETSTATS 0 None 0 with
    | SysOk _ => kset_iface IFACE_VFSV0 (kpush QF_VFSV0 k)
    | SysErr errno =>
        if negb (errno =? ENOSYS) && negb (errno =? ENOTSUP)
        then probe_legacy k
        else k
    end.

(** Check kernel quota version. *)
Definition init_kernel_interface (k : kstate) : exit kstate :=
  if sys_sigemptyset W <? 0
  then Dies 2 "Cannot create set for sigaction(): %s\n" k
  else
    let k := klog (EvSigaction false) k in
    if sys_sigaction W false <? 0
    then Dies 2 "Cannot set signal handler: %s\n" k
    else
      let k := probe_kernel_interface k in
      let k := klog (EvSigaction true) k in
      if sys_sigaction W true <? 0
      then Dies 2 "Cannot reset signal handler: %s\n" k
      else Returns k.

(** Return whether kernel is able to handle given format. *)
Definition kern_qfmt_supp (k : kstate) (fmt : Z) : bool :=
  if fmt =? -1 then (0 <? Z.of_nat (length (kernel_qfmt k)))
  else existsb (fun f => fmt =? f) (kernel_qfmt k).

(** *** ActiveFormatResolver *)

Definition caller_id (type : qtype) : Z :=
  if qtype_eqb type USRQUOTA then sys_getuid W else sys_getgid W.

(** Check whether old quota is turned on on given device. *)
Definition v1_kern_quota_on (dev : string) (type : qtype) : bool :=
  match sys_quotactl W Q_V1_GETQUOTA (type_code type) (Some dev)
          (caller_id type) with
  | SysOk _ => true
  | SysErr _ => false
  end.

(** Check whether new quota is turned on on given device. *)
Definition v2_kern_quota_on (dev : string) (type : qtype) : bool :=
  match sys_quotactl W Q_V2_GETQUOTA (type_code type) (Some dev)
          (caller_id type) with
  | SysOk _ => true
  | SysErr _ => false
  end.

(** Check whether XFS quota is turned on on given device. *)
Definition xfs_kern_quota_on (dev : string) (type : qtype) : bool :=
  match sys_quotactl W Q_XFS_GETQSTAT (type_code type) (Some dev) 0 with
  | SysOk qs_flags =>
      if qtype_eqb type USRQUOTA && flag_set qs_flags XFS_QUOTA_UDQ_ACCT
      then true
      else if qtype_eqb type GRPQUOTA
              && flag_set qs_flags XFS_QUOTA_GDQ_ACCT
      then true
      else false
  | SysErr _ => false
  end.

(** Check whether is quota turned on on given device for given type;
    [iface] is the global [kernel_iface]. *)
Definition kern_quota_on (iface : Z) (mnt : mount_entry) (type : qtype)
  (fmt : Z) : Z :=
  if qget (me_qfmt mnt) type <? 0 then -1
  else if fmt =? QF_RPC then -1
  else if qget (me_qfmt mnt) type =? QF_XFS then
    if ((fmt =? -1) || (fmt =? QF_XFS))
       && xfs_kern_quota_on (me_devname mnt) type
    then QF_XFS
    else -1
  (* No more chances for XFS format to succeed... *)
  else if fmt =? QF_XFS then -1
  (* Meta format is always enabled *)
  else if qget (me_qfmt mnt) type =? QF_META then QF_META
  (* Check whether quota is turned on... *)
  else if iface =? IFACE_GENERIC then
    match sys_quotactl W Q_GETFMT (type_code type)
            (Some (me_devname mnt)) 0 with
    | SysOk actfmt =>
        let actfmt := kern2utilfmt actfmt in
        if 0 <=? actfmt then actfmt else -1
    | SysErr _ => -1
    end
  else if ((fmt =? -1) || (fmt =? QF_VFSV0))
            && v2_kern_quota_on (me_devname mnt) type
    then QF_VFSV0
    else if ((fmt =? -1) || (fmt =? QF_VFSOLD))
            && v1_kern_quota_on (me_devname mnt) type
    then QF_VFSOLD
    else -1.

(** *** MountTableCache *)

(** The globals [mnt_entries[0 .. mnt_entries_cnt - 1]], the local table
    [autofsdir[0 .. autofsdircnt - 1]], and what the scan printed and
    classified so far. *)
Record scan := {
  mnt_entries : list mount_entry;
  autofsdir : list string;
  trace : list event
}.

Definition scan_log (e : event) (st : scan) : scan :=
  {| mnt_entries := mnt_entries st;
     autofsdir := autofsdir st;
     trace := (trace st ++ [e])%list |}.

Definition scan_add_autofs (dir : string) (st : scan) : scan :=
  {| mnt_entries := mnt_entries st;
     autofsdir := (autofsdir st ++ [dir])%list;
     trace := trace st |}.

Definition scan_add_entry (e : mount_entry) (st : scan) : scan :=
  {| mnt_entries := (mnt_entries st ++ [e])%list;
     autofsdir := autofsdir st;
     trace := trace st |}.

(** The value of [i] after the loop that looks for an autofs directory
    the mountpoint lies under. *)
Fixpoint autofs_index (dirs : list string) (dir : string) : nat :=
  match dirs with
  | [] => O
  | d :: ds =>
      let slen := strlen d in
      if (slen <=? strlen dir)%nat && strncmp_eq d dir slen then O
      else S (autofs_index ds dir)
  end.

(** The value of [i] after
    [for (i = 0; i < mnt_entries_cnt && mnt_entries[i].me_dev != dev; i++);]. *)
Fixpoint dev_index (entries : list mount_entry) (dev : Z) : nat :=
  match entries with
  | [] => O
  | e :: es => if me_dev e =? dev then O else S (dev_index es dev)
  end.

(** The entry stored in [mnt_entries[i]] for a new mounted device. *)
Definition new_mount_entry (mnt : mntent) (devname mntpointbuf : string)
  (qfmt : qarray) (dev ino : Z) : mount_entry :=
  {| me_type := mnt_type mnt;
     me_opts := mnt_opts mnt;
     me_dev := dev;
     me_ino := ino;
     me_devname := devname;
     me__dir := mntpointbuf;
     me_dir := None;
     me_qfmt := qfmt |}.

(** The end of the loop body, from "Cope with network filesystems or new
    mountpoint" on; [i] and [dev] are the variables of that name. *)
Definition cache_new_mount (flags : Z) (st : scan) (mnt : mntent)
  (devname mntpointbuf : string) (qfmt : qarray) (dev : Z) (i : nat)
  : scan :=
  let mnt_entries_cnt := length (mnt_entries st) in
  let nfs := nfs_fstype (mnt_type mnt) in
  let add (dev : Z) (ino : Z) :=
    scan_add_entry
      (new_mount_entry mnt devname mntpointbuf qfmt dev ino) st in
  if nfs || (i =? mnt_entries_cnt)%nat then
    match sys_stat W (mnt_dir mnt) with
    | SysErr errno =>
        scan_log (EvErrstr "Cannot stat() mountpoint %s: %s\n"
                    [mnt_dir mnt; strerror W errno]) st
    | SysOk sb =>
        (* For network filesystems we must get device from root *)
        let dev := if nfs then st_dev sb else dev in
        let i :=
          if nfs then
            if negb (flag_set flags MS_NFS_ALL)
            then dev_index (mnt_entries st) dev
            else mnt_entries_cnt
          else i in
        if (i =? mnt_entries_cnt)%nat then add dev (st_ino sb) else st
    end
  else st.

(** The loop body from [if (!nfs_fstype(mnt->mnt_type))] on: the device
    of a local filesystem is examined, then the entry is added unless its
    device is cached already. *)
Definition cache_device (flags : Z) (st : scan) (mnt : mntent)
  (devname mntpointbuf : string) (qfmt : qarray) : scan :=
  if negb (nfs_fstype (mnt_type mnt)) then
    match sys_stat W devname with
    | SysErr errno =>
        (* Can't stat mounted device? *)
        scan_log (EvErrstr "Cannot stat() mounted device %s: %s\n"
                    [devname; strerror W errno]) st
    | SysOk sb =>
        if negb (S_ISBLK (st_mode sb)) && negb (S_ISCHR (st_mode sb))
        then
          scan_log
            (EvErrstr
               "Device (%s) filesystem is mounted on unsupported device type. Skipping.\n"
               [devname]) st
        else
          let dev := st_rdev sb in
          cache_new_mount flags st mnt devname mntpointbuf qfmt dev
            (dev_index (mnt_entries st) dev)
    end
  else
    (* [dev] and [i] are assigned again before they are used *)
    cache_new_mount flags st mnt devname mntpointbuf qfmt 0 O.

(** Where the loop body stands when it reaches
    [if (!nfs_fstype(mnt->mnt_type))]: it has gone on to the next record
    ([continue]), or holds a record with quota on a mountpoint that
    resolves. *)
Inductive examined :=
| Skipped (st : scan)
| Candidate (st : scan) (mnt : mntent) (devname mntpointbuf : string)
    (qfmt : qarray).

(** The loop body up to the "magic" automount point check. *)
Definition cache_examine (flags : Z) (st : scan) (mnt : mntent)
  : examined :=
  match get_device_name W (mnt_fsname mnt) with
  | None =>
      Skipped (scan_log (EvErrstr "Cannot get device name for %s\n"
                           [mnt_fsname mnt]) st)
  | Some devname =>
      (* Check for mountpoints under autofs and skip them *)
      if (autofs_index (autofsdir st) (mnt_dir mnt)
            <? length (autofsdir st))%nat
      then Skipped st
      (* Autofs dir to remember? *)
      else if flag_set flags MS_NO_AUTOFS
              && strcmp_eq (mnt_type mnt) MNTTYPE_AUTOFS
      then Skipped (scan_add_autofs (mnt_dir mnt ++ "/") st)
      else if flag_set flags MS_LOCALONLY && nfs_fstype (mnt_type mnt)
      then Skipped st
      else if libc_hasmntopt W mnt MNTOPT_NOQUOTA then Skipped st
      (* We just ignore bind mounts... *)
      else if libc_hasmntopt W mnt MNTOPT_BIND then Skipped st
      else
        (* [copy_mntoptarg(opt, loopdev, PATH_MAX)]: the source is the
           local buffer [loopdev], not yet written, the destination the
           argument inside [mnt->mnt_opts] *)
        let '(mnt, devname) :=
          match hasmntoptarg (mnt_opts mnt) MNTOPT_LOOP with
          | Some opt =>
              let loopdev := uninitialized_loopdev W in
              ({| mnt_fsname := mnt_fsname mnt;
                  mnt_dir := mnt_dir mnt;
                  mnt_type := mnt_type mnt;
                  mnt_opts := str_take opt (mnt_opts mnt)
                              ++ copy_mntoptarg loopdev PATH_MAX |},
               loopdev)
          | None => (mnt, devname)
          end in
        (* Further we are not interested in mountpoints without quotas *)
        let st := scan_log (EvHasquota devname mnt USRQUOTA) st in
        let qfmt_usr := hasquota devname mnt USRQUOTA flags in
        let st := scan_log (EvHasquota devname mnt GRPQUOTA) st in
        let qfmt_grp := hasquota devname mnt GRPQUOTA flags in
        let qfmt := {| q_usr := qfmt_usr; q_grp := qfmt_grp |} in
        if (qfmt_usr <? 0) && (qfmt_grp <? 0) then Skipped st
        else
          match sys_realpath W (mnt_dir mnt) with
          | SysErr errno =>
              Skipped
                (scan_log
                   (EvErrstr "Cannot resolve mountpoint path %s: %s\n"
                      [mnt_dir mnt; strerror W errno]) st)
          | SysOk mntpointbuf =>
              match sys_statfs W mntpointbuf with
              | SysErr errno =>
                  Skipped
                    (scan_log (EvErrstr "Cannot statfs() %s: %s\n"
                                 [mntpointbuf; strerror W errno]) st)
              | SysOk fsstat =>
                  (* Do not scan quotas on "magic" automount points *)
                  if (f_blocks fsstat =? 0) && (f_bfree fsstat =? 0)
                     && (f_bavail fsstat =? 0)
                  then Skipped st
                  else Candidate st mnt devname mntpointbuf qfmt
              end
          end
  end.

(** The body of the [while ((mnt = getmntent(mntf)))] loop. *)
Definition cache_mnt_entry (flags : Z) (st : scan) (mnt : mntent) : scan :=
  match cache_examine flags st mnt with
  | Skipped st => st
  | Candidate st mnt devname mntpointbuf qfmt =>
      cache_device flags st mnt devname mntpointbuf qfmt
  end.

(** The table of the first mount-table file that opens. *)
Definition open_mount_table : option (list mntent) :=
  let std :=
    match sys_setmntent W _PATH_MOUNTED with
    | Some t => Some t
    | None => sys_setmntent W _PATH_MNTTAB
    end in
  match ALT_MTAB with
  | Some alt =>
      match sys_setmntent W alt with
      | Some t => Some t
      | None => std
      end
  | None => std
  end.

Definition scan0 : scan :=
  {| mnt_entries := []; autofsdir := []; trace := [] |}.

(** The [while] loop over the records [getmntent] returns. *)
Definition cache_mnt_records (flags : Z) (table : list mntent) (st : scan)
  : scan :=
  fold_left (cache_mnt_entry flags) table st.

(** Cache mtab/fstab: the value returned and the state left. *)
Definition cache_mnt_table (flags : Z) : Z * scan :=
  match open_mount_table with
  | None =>
      (-1, scan_log (EvErrstr "Cannot open any file with mount points.\n"
                       []) scan0)
  | Some table => (0, cache_mnt_records flags table scan0)
  end.

End QuotaSys.

(** ** The mount-option syntax, as the specification words it

    An option string is a comma-separated list of tokens; a token is a name,
    or a name, an '=' and an argument. *)
Module OptionSyntax.

Local Open Scope nat_scope.

(** The comma-separated tokens of an option string. *)
Fixpoint split_comma (s : string) : list string :=
  match s with
  | EmptyString => [EmptyString]
  | String c r =>
      if is_comma c then EmptyString :: split_comma r
      else
        match split_comma r with
        | t :: ts => String c t :: ts
        | [] => [String c EmptyString]
        end
  end.

(** A token truncated before its '=' argument. *)
Fixpoint opt_name (tok : string) : string :=
  match tok with
  | EmptyString => EmptyString
  | String c r => if Ascii.eqb c "=" then EmptyString else String c (opt_name r)
  end.

(** The offset of the first token of [toks] named [opt], when the first
    token starts at offset [off]. *)
Fixpoint find_token (opt : string) (toks : list string) (off : nat)
  : option nat :=
  match toks with
  | [] => None
  | t :: ts =>
      if String.eqb (opt_name t) opt then Some off
      else find_token opt ts (off + String.length t + 1)
  end.

End OptionSyntax.
Import OptionSyntax.

(** ** The words of the specification about quota files and the cache *)
Section SpecWords.

Context {H : Headers}.
Variable W : World.

(** The plain option that enables quota of a type, and the journaled
    one. *)
Definition plain_option (type : qtype) : string :=
  match type with
  | USRQUOTA => MNTOPT_USRQUOTA
  | GRPQUOTA => MNTOPT_GRPQUOTA
  end.

Definition journal_option (type : qtype) : string :=
  match type with
  | USRQUOTA => MNTOPT_USRJQUOTA
  | GRPQUOTA => MNTOPT_GRPJQUOTA
  end.

(** The argument that starts at [optarg], up to the next option
    separator. *)
Definition arg_at (optarg : string) : string :=
  str_take (span_until is_comma optarg) optarg.

(** The device identity of a mounted filesystem: the device number of its
    block or character device node or, for a remote filesystem, the
    device number of the root of the mount. *)
Definition device_identity (mnt : mntent) (devname : string) : option Z :=
  if nfs_fstype (mnt_type mnt) then
    match sys_stat W (mnt_dir mnt) with
    | SysOk sb => Some (st_dev sb)
    | SysErr _ => None
    end
  else
    match sys_stat W devname with
    | SysOk sb =>
        if S_ISBLK (st_mode sb) || S_ISCHR (st_mode sb)
        then Some (st_rdev sb)
        else None
    | SysErr _ => None
    end.

(** A remote record while every remote mount is treated as distinct. *)
Definition remote_distinct (flags : Z) (mnt : mntent) : bool :=
  nfs_fstype (mnt_type mnt) && flag_set flags MS_NFS_ALL.

Definition is_local (e : mount_entry) : bool :=
  negb (nfs_fstype (me_type e)).

(** At most one entry per device identity: among all entries unless
    every remote mount is treated as distinct, among the local ones at
    any rate. *)
Definition one_per_device (flags : Z) (es : list mount_entry) : Prop :=
  (flag_set flags MS_NFS_ALL = false -> NoDup (map me_dev es))
  /\ NoDup (map me_dev (filter is_local es)).


(** The entry [e] was made from the record [mnt]: it has its type, and
    its mountpoint is the resolved mountpoint of the record. *)
Definition entry_of (mnt : mntent) (e : mount_entry) : Prop :=
  me_type e = mnt_type mnt
  /\ sys_realpath W (mnt_dir mnt) = SysOk (me__dir e).

(** The entries were made from records of the table, in table order, at
    most one from each record. *)
Inductive cached_in_order : list mntent -> list mount_entry -> Prop :=
| in_order_nil : cached_in_order [] []
| in_order_skip (mnt : mntent) (table : list mntent) (es : list mount_entry) :
    cached_in_order table es -> cached_in_order (mnt :: table) es
| in_order_keep (mnt : mntent) (table : list mntent) (e : mount_entry)
    (es : list mount_entry) :
    entry_of mnt e ->
    cached_in_order table es -> cached_in_order (mnt :: table) (e :: es).

End SpecWords.

(** ** The values of the header macros in the quota-tools distribution

    The headers are not among the files modelled here. The option names,
    the basename aquota and the extension user are those the specification
    names; the format codes follow the order of [fmtnames]. These values
    serve the examples only: the theorems hold for every [Headers]. *)
Module Dist.

#[export] Instance headers : Headers := {|
  QF_ERROR := -1;
  QF_VFSOLD := 0;
  QF_VFSV0 := 1;
  QF_VFSV1 := 2;
  QF_RPC := 3;
  QF_XFS := 4;
  QF_META := 5;
  QF_VFSUNKNOWN := 6;
  is_tree_qfmt := fun fmt => (fmt =? 1) || (fmt =? 2);
  INITQFBASENAMES := ["quota"; "aquota"; "aquota"; ""; ""];
  QFMT_VFS_OLD := 1;
  QFMT_VFS_V0 := 2;
  QFMT_VFS_V1 := 4;
  QFMT_OCFS2 := 3;
  Q_GETFMT := 8388612;
  Q_GETINFO := 8388613;
  DQF_SYS_FILE := 65536;
  INITQFNAMES := ["user"; "group"; "undefined"];
  Q_V1_GETQUOTA := 768;
  Q_V1_GETSTATS := 2048;
  Q_V2_GETQUOTA := 3328;
  Q_V2_GETSTATS := 4352;
  Q_XGETQSTAT := 22533;
  Q_XFS_GETQSTAT := 22533;
  XFS_QUOTA_UDQ_ACCT := 1;
  XFS_QUOTA_GDQ_ACCT := 4;
  IFACE_VFSOLD := 1;
  IFACE_VFSV0 := 2;
  IFACE_GENERIC := 3;
  NF_EXIST := 1;
  NF_FORMAT := 2;
  MS_NO_AUTOFS := 2;
  MS_LOCALONLY := 8;
  MS_XFS_DISABLED := 16;
  MS_NFS_ALL := 32;
  MNTOPT_NOQUOTA := "noquota";
  MNTOPT_QUOTA := "quota";
  MNTOPT_USRQUOTA := "usrquota";
  MNTOPT_USRJQUOTA := "usrjquota";
  MNTOPT_GRPQUOTA := "grpquota";
  MNTOPT_GRPJQUOTA := "grpjquota";
  MNTOPT_BIND := "bind";
  MNTOPT_LOOP := "loop";
  MNTTYPE_EXT4 := "ext4";
  MNTTYPE_NFS := "nfs";
  MNTTYPE_NFS4 := "nfs4";
  MNTTYPE_MPFS := "mpfs";
  MNTTYPE_XFS := "xfs";
  MNTTYPE_GFS2 := "gfs2";
  MNTTYPE_OCFS2 := "ocfs2";
  MNTTYPE_AUTOFS := "autofs";
  ALT_MTAB := None;
  XFS_ROOTHACK := false
|}.

End Dist.

(** ** Machines and mounts for the examples *)
Module Examples.
Import Dist.

Definition world0 : World := {|
  sys_stat := fun _ => SysErr ENOENT;
  sys_statfs := fun _ => SysErr ENOENT;
  sys_open_rdonly := fun _ => SysErr ENOENT;
  sys_realpath := fun p => SysOk p;
  sys_quotactl := fun _ _ _ _ => SysErr ENOSYS;
  sys_sigemptyset := 0;
  sys_sigaction := fun _ => 0;
  sys_getuid := 1000;
  sys_getgid := 100;
  sys_setmntent := fun _ => None;
  libc_hasmntopt := fun mnt opt => nonnull (str_hasmntopt (mnt_opts mnt) opt);
  get_device_name := fun item => Some item;
  check_file_flat := fun _ _ _ => 1;
  check_file_tree := fun _ _ _ => 1;
  strerror := fun _ => "error";
  uninitialized_loopdev := ""
|}.

Definition with_stat (f : string -> sysres stat_t) (W : World) : World := {|
  sys_stat := f;
  sys_statfs := sys_statfs W;
  sys_open_rdonly := sys_open_rdonly W;
  sys_realpath := sys_realpath W;
  sys_quotactl := sys_quotactl W;
  sys_sigemptyset := sys_sigemptyset W;
  sys_sigaction := sys_sigaction W;
  sys_getuid := sys_getuid W;
  sys_getgid := sys_getgid W;
  sys_setmntent := sys_setmntent W;
  libc_hasmntopt := libc_hasmntopt W;
  get_device_name := get_device_name W;
  check_file_flat := check_file_flat W;
  check_file_tree := check_file_tree W;
  strerror := strerror W;
  uninitialized_loopdev := uninitialized_loopdev W
|}.

Definition with_quotactl (f : Z -> Z -> option string -> Z -> sysres Z)
  (W : World) : World := {|
  sys_stat := sys_stat W;
  sys_statfs := sys_statfs W;
  sys_open_rdonly := sys_open_rdonly W;
  sys_realpath := sys_realpath W;
  sys_quotactl := f;
  sys_sigemptyset := sys_sigemptyset W;
  sys_sigaction := sys_sigaction W;
  sys_getuid := sys_getuid W;
  sys_getgid := sys_getgid W;
  sys_setmntent := sys_setmntent W;
  libc_hasmntopt := libc_hasmntopt W;
  get_device_name := get_device_name W;
  check_file_flat := check_file_flat W;
  check_file_tree := check_file_tree W;
  strerror := strerror W;
  uninitialized_loopdev := uninitialized_loopdev W
|}.

(** A kernel of the Red Hat 7.1 kind: no /proc/sys/fs/quota, the
    version-2 statistics call rejected, the version-1 statistics call
    answered, the version-1 get-quota call on /dev/null rejected. *)
Definition world_redhat71 : World :=
  with_quotactl
    (fun op _ _ _ => if op =? Q_V1_GETSTATS then SysOk 0 else SysErr EINVAL)
    world0.

(** A kernel of the 2.4.x kind: the get-quota call fails with ENOENT. *)
Definition world_linux24 : World :=
  with_quotactl
    (fun op _ _ _ =>
       if op =? Q_V1_GETSTATS then SysOk 0
       else if op =? Q_V1_GETQUOTA then SysErr ENOENT
       else SysErr EINVAL)
    world0.

(** /proc/sys/fs/quota cannot be examined: permission denied (EACCES). *)
Definition world_proc_eacces : World :=
  with_stat
    (fun path =>
       if String.eqb path "/proc/sys/fs/quota" then SysErr 13
       else SysErr ENOENT)
    world0.

Definition mount_meta : mount_entry := {|
  me_type := "ocfs2";
  me_opts := "rw";
  me_dev := 2049;
  me_ino := 2;
  me_devname := "/dev/sda1";
  me__dir := "/mnt";
  me_dir := Some "/mnt";
  me_qfmt := {| q_usr := QF_META; q_grp := QF_META |}
|}.

Definition mount_noquota : mount_entry := {|
  me_type := "ext3";
  me_opts := "rw";
  me_dev := 2049;
  me_ino := 2;
  me_devname := "/dev/sda1";
  me__dir := "/mnt";
  me_dir := Some "/mnt";
  me_qfmt := {| q_usr := -1; q_grp := -1 |}
|}.

Definition mount_usrquota : mount_entry := {|
  me_type := "ext3";
  me_opts := "rw,usrquota";
  me_dev := 2049;
  me_ino := 2;
  me_devname := "/dev/sda1";
  me__dir := "/mnt";
  me_dir := Some "/mnt";
  me_qfmt := {| q_usr := QF_VFSUNKNOWN; q_grp := -1 |}
|}.

Definition mount_journal : mount_entry := {|
  me_type := "ext3";
  me_opts := "usrjquota=/my/journal,jqfmt=vfsv0";
  me_dev := 2049;
  me_ino := 2;
  me_devname := "/dev/sda1";
  me__dir := "/mnt";
  me_dir := Some "/mnt";
  me_qfmt := {| q_usr := QF_VFSUNKNOWN; q_grp := -1 |}
|}.

Definition mount_journal_rel : mount_entry := {|
  me_type := "ext3";
  me_opts := "usrjquota=aquota.user,jqfmt=vfsv0";
  me_dev := 2049;
  me_ino := 2;
  me_devname := "/dev/sda1";
  me__dir := "/mnt";
  me_dir := Some "/mnt";
  me_qfmt := {| q_usr := QF_VFSUNKNOWN; q_grp := -1 |}
|}.




(** Every [stat] fails with EACCES. *)
Definition world_stat_eacces : World :=
  with_stat (fun _ => SysErr 13) world0.

(** A machine with /dev/sda1 mounted twice, one export of an NFS server
    mounted twice, and /dev/sdb1 mounted under an autofs mountpoint. *)
Definition home : mntent :=
  {| mnt_fsname := "/dev/sda1"; mnt_dir := "/home"; mnt_type := "ext3";
     mnt_opts := "rw,usrquota" |}.
Definition srv_home : mntent :=
  {| mnt_fsname := "/dev/sda1"; mnt_dir := "/srv/home"; mnt_type := "ext3";
     mnt_opts := "rw,usrquota,grpquota" |}.
Definition net_a : mntent :=
  {| mnt_fsname := "server:/export"; mnt_dir := "/net/a";
     mnt_type := "nfs"; mnt_opts := "rw" |}.
Definition net_b : mntent :=
  {| mnt_fsname := "server:/export"; mnt_dir := "/net/b";
     mnt_type := "nfs"; mnt_opts := "rw" |}.
Definition misc : mntent :=
  {| mnt_fsname := "/etc/auto.misc"; mnt_dir := "/misc";
     mnt_type := "autofs"; mnt_opts := "rw" |}.
Definition misc_cd : mntent :=
  {| mnt_fsname := "/dev/sdb1"; mnt_dir := "/misc/cd"; mnt_type := "ext3";
     mnt_opts := "rw,usrquota" |}.

Definition mtab : list mntent :=
  [home; srv_home; net_a; net_b; misc; misc_cd].

Definition world_mounts : World := {|
  sys_stat := fun path =>
    if String.eqb path "/dev/sda1" then
      SysOk {| st_mode := 25008; st_dev := 5; st_rdev := 2049;
               st_ino := 301 |}
    else if String.eqb path "/dev/sdb1" then
      SysOk {| st_mode := 25008; st_dev := 5; st_rdev := 2065;
               st_ino := 302 |}
    else if String.eqb path "/home" || String.eqb path "/srv/home" then
      SysOk {| st_mode := 16877; st_dev := 2049; st_rdev := 0;
               st_ino := 2 |}
    else if String.eqb path "/net/a" || String.eqb path "/net/b" then
      SysOk {| st_mode := 16877; st_dev := 45; st_rdev := 0;
               st_ino := 128 |}
    else if String.eqb path "/misc/cd" then
      SysOk {| st_mode := 16877; st_dev := 2065; st_rdev := 0;
               st_ino := 2 |}
    else SysErr ENOENT;
  sys_statfs := fun _ =>
    SysOk {| f_blocks := 1000; f_bfree := 400; f_bavail := 300 |};
  sys_open_rdonly := fun _ => SysErr ENOENT;
  sys_realpath := fun p => SysOk p;
  sys_quotactl := fun _ _ _ _ => SysErr ENOSYS;
  sys_sigemptyset := 0;
  sys_sigaction := fun _ => 0;
  sys_getuid := 1000;
  sys_getgid := 100;
  sys_setmntent := fun path =>
    if String.eqb path "/etc/mtab" then Some mtab else None;
  libc_hasmntopt := fun mnt opt => nonnull (str_hasmntopt (mnt_opts mnt) opt);
  get_device_name := fun item => Some item;
  check_file_flat := fun _ _ _ => 1;
  check_file_tree := fun _ _ _ => 1;
  strerror := fun _ => "error";
  uninitialized_loopdev := ""
|}.

End Examples.

From Stdlib Require Import DecimalString.

(** ** More of the headers and of the system

    Macros of pot.h, mntopt.h, quotasys.h, quotaio.h and config.h that the
    functions below use. Messages are taken untranslated: [_(s)] is [s]. *)
Class MoreHeaders := {
  (* mntopt.h *)
  MNTOPT_NOAUTO : string;
  (* quotasys.h *)
  QFMT_NAMES : nat;
  MS_NO_MNTPOINT : Z;
  MS_QUIET : Z;
  TF_ROUND : Z;
  MAXTIMELEN : nat;
  (* quotaio.h *)
  QSIZE_MAX : Z;
  (* config.h: is RPC defined? *)
  RPC : bool
}.

(** <limits.h>, <sys/stat.h>, <syslog.h> on Linux. *)
Definition ULLONG_MAX : Z := 18446744073709551615.
Definition S_IFDIR : Z := 16384.
Definition S_ISDIR (m : Z) : bool := Z.land m S_IFMT =? S_IFDIR.
Definition LOG_CRIT : Z := 2.
Definition LOG_ERR : Z := 3.

(** Conversions to [unsigned int], to [int] and to [unsigned long long]. *)
Definition u32 (z : Z) : Z := z mod 4294967296.
Definition s32 (z : Z) : Z :=
  let u := u32 z in if u <? 2147483648 then u else u - 4294967296.
Definition u64 (z : Z) : Z := z mod 18446744073709551616.

(** What [printf] writes for an integer: %d, %u, %llu of a value in the
    range of the type, and %02d. *)
Definition dec (z : Z) : string := NilZero.string_of_int (Z.to_int z).
Definition dec02 (z : Z) : string :=
  if (0 <=? z) && (z <? 10) then "0" ++ dec z else dec z.

Definition newline : ascii := "010"%char.
Definition is_newline (c : ascii) : bool := Ascii.eqb c newline.

(** ** Printing and logging (common.c) *)

(** What the process writes. *)
Inductive output :=
| OutSyslog (level : Z) (line : string)
| OutStderr (text : string).

(** One pass of the [for (i = 0; buf[i]; i = j)] loop of [do_syslog] per
    unit of fuel: the line from [buf + i] to the newline, which is
    overwritten with a NUL, or to the end. *)
Fixpoint do_syslog_loop (fuel : nat) (level : Z) (buf : string) (i : nat)
  : list output :=
  match fuel with
  | O => []
  | S fuel' =>
      if is_nul (char_at buf i) then []
      else
        let j := (i + span_until is_newline (str_drop i buf))%nat in
        let line := str_take (j - i) (str_drop i buf) in
        let j := if is_char newline (char_at buf j) then S j else j in
        OutSyslog level line :: do_syslog_loop fuel' level buf j
  end.

(** [do_syslog(level, format, args)], [formatted] being the text
    [vsnprintf] makes of [format] and [args]: [buf] holds its first 1023
    characters. Each pass advances [i], so [strlen buf] passes are enough. *)
Definition do_syslog (level : Z) (formatted : string) : list output :=
  let buf := snprintf 1024 formatted in
  do_syslog_loop (String.length buf) level buf 0.

(** [errstr(fmtstr, ...)]; [enable_syslog] and [progname] are the
    globals. *)
Definition errstr (enable_syslog : bool) (progname formatted : string)
  : list output :=
  if enable_syslog then do_syslog LOG_ERR formatted
  else [OutStderr (progname ++ ": "); OutStderr formatted].

(** [die(ret, fmtstr, ...)]: what is written, and the exit status. *)
Definition die (enable_syslog : bool) (progname : string) (ret : Z)
  (formatted : string) : list output * Z :=
  (if enable_syslog
   then (do_syslog LOG_CRIT formatted
         ++ [OutSyslog LOG_CRIT ("Exiting with status " ++ dec ret)])%list
   else [OutStderr (progname ++ ": "); OutStderr formatted],
   ret).

(** A text with a newline added at its end, unless it is empty or ends
    with one already: the lines of a message, each one terminated. *)
Fixpoint newline_terminated (s : string) : string :=
  match s with
  | EmptyString => EmptyString
  | String c r =>
      match r with
      | EmptyString =>
          if is_newline c then s else String c (String newline EmptyString)
      | String _ _ => String c (newline_terminated r)
      end
  end.

(** ** Names and numbers of formats *)

Definition fmtnames : list string :=
  ["vfsold"; "vfsv0"; "vfsv1"; "rpc"; "xfs"].

Section Formats.

Context {H : Headers} {H2 : MoreHeaders}.

(** The loop of [name2fmt], from the index [fmt] on; [names] is
    [fmtnames + fmt] and [n] the number of indices left below
    [QFMT_NAMES]. Past the end of the array the read is undefined
    ([None]). *)
Fixpoint name2fmt_loop (str : string) (names : list string) (n : nat)
  (fmt : Z) : option (option Z) :=
  match n with
  | O => Some None
  | S n' =>
      match names with
      | [] => None
      | name :: rest =>
          if strcmp_eq str name then Some (Some fmt)
          else name2fmt_loop str rest n' (fmt + 1)
      end
  end.

(** Convert quota format name to number: the number and the diagnostic. *)
Definition name2fmt (str : string) : option (Z * list event) :=
  match name2fmt_loop str fmtnames QFMT_NAMES 0 with
  | None => None
  | Some (Some fmt) => Some (fmt, [])
  | Some None =>
      Some (QF_ERROR,
            [EvErrstr
               "Unknown quota format: %s\nSupported formats are:\n  vfsold - original quota format\n  vfsv0 - standard quota format\n  vfsv1 - quota format with 64-bit limits\n  rpc - use RPC calls\n  xfs - XFS quota format\n"
               [str]])
  end.

(** Convert quota format number to name: [fmtnames[fmt]]; [None] outside
    the array. *)
Definition fmt2name (fmt : Z) : option string :=
  if fmt <? 0 then None else nth_error fmtnames (Z.to_nat fmt).

(** Convert utility to kernel quota format number. *)
Definition util2kernfmt (fmt : Z) : Z :=
  if fmt =? QF_VFSOLD then QFMT_VFS_OLD
  else if fmt =? QF_VFSV0 then QFMT_VFS_V0
  else if fmt =? QF_VFSV1 then QFMT_VFS_V1
  else -1.

End Formats.

(** ** Times and sizes in printable form *)
Section Printable.

Context {H2 : MoreHeaders}.

(** Convert time to printable form. [seconds] is a [time_t], whose
    arithmetic is that of Z as long as it does not overflow; [minutes],
    [hours] and [days] are [unsigned int]. *)
Definition time2str (seconds : Z) (flags : Z) : string :=
  if flag_set flags TF_ROUND then
    let minutes := u32 (Z.quot (seconds + 30) 60) in   (* Rounding *)
    let hours := minutes / 60 in
    let minutes := minutes mod 60 in
    let days := hours / 24 in
    let hours := hours mod 24 in
    if 2 <=? days
    then snprintf MAXTIMELEN (dec (s32 days) ++ "days")
    else snprintf MAXTIMELEN
           (dec02 (s32 (u32 (hours + u32 (days * 24)))) ++ ":"
            ++ dec02 (s32 minutes))
  else
    let minutes := u32 (Z.quot seconds 60) in
    let seconds := Z.rem seconds 60 in
    let hours := minutes / 60 in
    let minutes := minutes mod 60 in
    let days := hours / 24 in
    let hours := hours mod 24 in
    if negb (seconds =? 0)
       || ((minutes =? 0) && (hours =? 0) && (days =? 0))
    then snprintf MAXTIMELEN
           (dec (u32 (seconds + u32 (minutes * 60) + u32 (hours * 3600)
                      + u32 (u32 (days * 3600) * 24)))
            ++ "seconds")
    else if negb (minutes =? 0)
    then snprintf MAXTIMELEN
           (dec (u32 (minutes + u32 (hours * 60) + u32 (u32 (days * 60) * 24)))
            ++ "minutes")
    else if negb (hours =? 0)
    then snprintf MAXTIMELEN (dec (u32 (hours + u32 (days * 24))) ++ "hours")
    else snprintf MAXTIMELEN (dec days ++ "days").

(** Convert time difference of seconds and current time; [now] is what
    [time(&now)] stores. *)
Definition difftime2str (now seconds : Z) : string :=
  if seconds =? 0 then ""
  else if seconds <=? now then "none"
  else time2str (seconds - now) TF_ROUND.


(** The loop of [number2str]: [i] counts down from 4, [div] from 10^12 by
    factors of 1000; the text written, or [None] when the loop ends. *)
Fixpoint number2str_loop (n : nat) (num div : Z) (suffix : list ascii)
  : option string :=
  match n, suffix with
  | S n', c :: rest =>
      if u64 (100 * div) <=? num
      then Some (dec (u64 (num + div - 1) / div) ++ String c "")
      else number2str_loop n' num (div / 1000) rest
  | _, _ => None
  end.

(** Convert number to some nice short form for printing; [num] is an
    [unsigned long long]. The suffixes are [suffix[4]] down to
    [suffix[1]] of " kmgt". *)
Definition number2str (num : Z) (format : Z) : string :=
  match
    if negb (format =? 0)
    then number2str_loop 4 num 1000000000000 ["t"; "g"; "m"; "k"]%char
    else None
  with
  | Some s => s
  | None => dec num
  end.

(** Convert block number with unit from string to quota blocks.
    [number] and [unit] are what [strtoull(string, &unit, 0)] returns and
    stores. The message returned ([None] is NULL, success) and [*space] if
    it was assigned. *)
Definition str2space (number : Z) (unit : string)
  : option string * option Z :=
  if ULLONG_MAX =? number
  then (Some "Integer overflow while parsing space number.", None)
  else
    let shift :=
      if strcmp_eq unit "" || strcmp_eq unit "K" then Some 0
      else if strcmp_eq unit "M" then Some 10
      else if strcmp_eq unit "G" then Some 20
      else if strcmp_eq unit "T" then Some 30
      else None in
    match shift with
    | None =>
        (Some "Unknown space binary unit. Valid units are K, M, G, T.",
         None)
    | Some unit_shift =>
        if Z.shiftr QSIZE_MAX unit_shift <? number
        then (Some "Integer overflow while interpreting space unit.", None)
        else (None, Some (u64 (Z.shiftl number unit_shift)))
    end.

End Printable.

(** ** The mountpoint scan *)

(** struct searched_dir; [sd_ino] is [None] as long as nothing was
    assigned to it, and reading it then is an error. *)
Record searched_dir := {
  sd_dir : bool;            (* Is searched dir mountpoint or in fact device? *)
  sd_dev : Z;               (* Device mountpoint lies on *)
  sd_ino : option Z;        (* Inode number of mountpoint *)
  sd_name : string          (* Name of given dir/device *)
}.

(** The globals of the scan: [mnt_entries[0 .. mnt_entries_cnt - 1]],
    [check_dirs[0 .. check_dirs_cnt - 1]] and [act_checked], with the
    diagnostics printed so far. *)
Record mounts := {
  ms_entries : list mount_entry;
  check_dirs : list searched_dir;
  act_checked : Z;
  ms_trace : list event
}.

(** The globals when the process starts. *)
Definition mounts0 : mounts :=
  {| ms_entries := []; check_dirs := []; act_checked := 0; ms_trace := [] |}.

Definition ms_log (e : event) (m : mounts) : mounts :=
  {| ms_entries := ms_entries m;
     check_dirs := check_dirs m;
     act_checked := act_checked m;
     ms_trace := (ms_trace m ++ [e])%list |}.

Definition set_act_checked (act : Z) (m : mounts) : mounts :=
  {| ms_entries := ms_entries m;
     check_dirs := check_dirs m;
     act_checked := act;
     ms_trace := ms_trace m |}.

(** [mnt_entries[pos].me_dir = dir]. *)
Definition set_me_dir (dir : string) (e : mount_entry) : mount_entry :=
  {| me_type := me_type e;
     me_opts := me_opts e;
     me_dev := me_dev e;
     me_ino := me_ino e;
     me_devname := me_devname e;
     me__dir := me__dir e;
     me_dir := Some dir;
     me_qfmt := me_qfmt e |}.

(** [l[pos] = x] for [pos] within [l]. *)
Fixpoint list_set {A} (l : list A) (pos : nat) (x : A) : list A :=
  match l, pos with
  | [], _ => []
  | _ :: r, O => x :: r
  | y :: r, S pos' => y :: list_set r pos' x
  end.

(** struct quota_handle of quotaio.h: the fields this file reads. *)
Record quota_handle := {
  qh_quotadev : string;     (* Device file is for *)
  qh_stat : stat_t          (* stat(2) for qh_quotadev *)
}.

(** quotaio.c. *)
Record QuotaIO := {
  init_io : mount_entry -> qtype -> Z -> Z -> option quota_handle;
  end_io : quota_handle -> Z
}.

Definition START_MNT_POINTS : Z := 256.

Section MountScan.

Context {H : Headers} {H2 : MoreHeaders}.
Variable W : World.
Variable IO : QuotaIO.

(** Find mountpoint of filesystem hosting dir in [st]; store it in [st]:
    the mountpoint and [st] with the inode of the mountpoint. *)
Fixpoint find_dir_mntpoint (entries : list mount_entry) (st : stat_t)
  : option (string * stat_t) :=
  match entries with
  | [] => None
  | e :: es =>
      if me_dev e =? st_dev st
      then Some (me__dir e,
                 {| st_mode := st_mode st; st_dev := st_dev st;
                    st_rdev := st_rdev st; st_ino := me_ino e |})
      else find_dir_mntpoint es st
  end.

(** The body of the loop of [process_dirs] for [dirs[i]]: the diagnostic
    of a [continue], or the element stored in
    [check_dirs[check_dirs_cnt]]. *)
Definition process_dir (entries : list mount_entry) (flags : Z)
  (dir : string) : list event + searched_dir :=
  let st :=
    if strncmp_eq dir "UUID=" 5 || strncmp_eq dir "LABEL=" 6 then
      match get_device_name W dir with
      | None =>
          inl [EvErrstr "Cannot find a device with %s.\nSkipping...\n"
                 [dir]]
      | Some devname =>
          match sys_stat W devname with
          | SysErr errno =>
              inl [EvErrstr
                     "Cannot stat() a mountpoint with %s: %s\nSkipping...\n"
                     [dir; strerror W errno]]
          | SysOk st => inr st
          end
      end
    else
      match sys_stat W dir with
      | SysErr errno =>
          inl [EvErrstr
                 "Cannot stat() given mountpoint %s: %s\nSkipping...\n"
                 [dir; strerror W errno]]
      | SysOk st => inr st
      end in
  match st with
  | inl diag => inl diag
  | inr st =>
      if S_ISDIR (st_mode st) then
        (* Return st of mountpoint of dir in st.. *)
        match
          if flag_set flags MS_NO_MNTPOINT
          then find_dir_mntpoint entries st
          else Some (dir, st)
        with
        | None =>
            inl (if negb (flag_set flags MS_QUIET)
                 then [EvErrstr
                         "Cannot find a filesystem mountpoint for directory %s\n"
                         [dir]]
                 else [])
        | Some (realmnt, st) =>
            match sys_realpath W realmnt with
            | SysErr errno =>
                inl [EvErrstr "Cannot resolve path %s: %s\n"
                       [realmnt; strerror W errno]]
            | SysOk mntpointbuf =>
                inr {| sd_dir := true;
                       sd_dev := st_dev st;
                       sd_ino := Some (st_ino st);
                       sd_name := mntpointbuf |}
            end
        end
      else if S_ISBLK (st_mode st) || S_ISCHR (st_mode st) then
        let mentry := dev_index entries (st_rdev st) in
        match nth_error entries mentry with
        | None =>
            (* mentry == mnt_entries_cnt *)
            inl (if negb (flag_set flags MS_QUIET)
                 then [EvErrstr "Cannot find mountpoint for device %s\n"
                         [dir]]
                 else [])
        | Some e =>
            inr {| sd_dir := false;
                   sd_dev := st_rdev st;
                   sd_ino := None;
                   sd_name := sstrncpy (me__dir e) (PATH_MAX - 1) |}
        end
      else
        inl [EvErrstr "Specified path %s is not directory nor device.\n"
               [dir]]
  end.

(** The loop of [process_dirs] over [dirs[i .. dcnt - 1]]. *)
Fixpoint process_dirs_loop (flags : Z) (dirs : list string) (m : mounts)
  : mounts :=
  match dirs with
  | [] => m
  | dir :: rest =>
      process_dirs_loop flags rest
        match process_dir (ms_entries m) flags dir with
        | inl diag =>
            {| ms_entries := ms_entries m;
               check_dirs := check_dirs m;
               act_checked := act_checked m;
               ms_trace := (ms_trace m ++ diag)%list |}
        | inr sd =>
            {| ms_entries := ms_entries m;
               check_dirs := (check_dirs m ++ [sd])%list;
               act_checked := act_checked m;
               ms_trace := ms_trace m |}
        end
  end.

(** Process and store given paths; [dirs] is [dirs[0 .. dcnt - 1]]. *)
Definition process_dirs (dirs : list string) (flags : Z) (m : mounts)
  : Z * mounts :=
  let m := {| ms_entries := ms_entries m;
              check_dirs := [];
              act_checked := -1;
              ms_trace := ms_trace m |} in
  match dirs with
  | [] => (0, m)
  | _ :: _ =>
      let m := process_dirs_loop flags dirs m in
      match check_dirs m with
      | [] =>
          (-1, if negb (flag_set flags MS_QUIET)
               then ms_log (EvErrstr "No correct mountpoint specified.\n" [])
                      m
               else m)
      | _ :: _ => (0, m)
      end
  end.

(** Free all structures allocated for mountpoint scan. *)
Definition end_mounts_scan (m : mounts) : mounts :=
  {| ms_entries := [];
     check_dirs := [];
     act_checked := act_checked m;
     ms_trace := ms_trace m |}.

(** Initialize mountpoint scan. When no mount table opens, the globals
    stay as they were. *)
Definition init_mounts_scan (dirs : list string) (flags : Z) (m : mounts)
  : Z * mounts :=
  let '(ret, st) := cache_mnt_table W flags in
  if ret <? 0 then
    (-1, {| ms_entries := ms_entries m;
            check_dirs := check_dirs m;
            act_checked := act_checked m;
            ms_trace := (ms_trace m ++ trace st)%list |})
  else
    let m := {| ms_entries := mnt_entries st;
                check_dirs := check_dirs m;
                act_checked := act_checked m;
                ms_trace := (ms_trace m ++ trace st)%list |} in
    let '(ret, m) := process_dirs dirs flags m in
    if ret <? 0 then (-1, end_mounts_scan m) else (0, m).

(** The [while] loop of [find_next_entry_all]: [entries] is
    [mnt_entries + act], [act] the value of [act_checked] after its
    increment; the value of [act_checked] when the loop ends. *)
Fixpoint find_next_entry_all_loop (entries : list mount_entry) (act : Z)
  : Z :=
  match entries with
  | [] => act
  | e :: es =>
      if negb (nonnull (str_hasmntopt (me_opts e) MNTOPT_NOAUTO)) then act
      else find_next_entry_all_loop es (act + 1)
  end.

(** Find next usable mountpoint when scanning all mountpoints: [*pos] if
    1 is returned, and the globals. [None]: [mnt_entries] is read before
    its first element. *)
Definition find_next_entry_all (m : mounts) : option (option nat * mounts) :=
  let act := act_checked m + 1 in
  if act <? 0 then None
  else
    let act :=
      find_next_entry_all_loop (skipn (Z.to_nat act) (ms_entries m)) act in
    let m := set_act_checked act m in
    if Z.of_nat (length (ms_entries m)) <=? act then Some (None, m)
    else Some (Some (Z.to_nat act), m).

(** The value of [i] after the [for] loop of [find_next_entry_sel];
    [None]: an inode that was never assigned is read. *)
Fixpoint sel_index (entries : list mount_entry) (sd : searched_dir)
  : option nat :=
  match entries with
  | [] => Some O
  | e :: es =>
      let hit :=
        if sd_dir sd then
          if sd_dev sd =? me_dev e then
            match sd_ino sd with
            | Some ino => Some (ino =? me_ino e)
            | None => None
            end
          else Some false
        else Some (sd_dev sd =? me_dev e) in
      match hit with
      | None => None
      | Some true => Some O
      | Some false =>
          match sel_index es sd with
          | Some i => Some (S i)
          | None => None
          end
      end
  end.

(** [find_next_entry_sel] from the label [restart] on: [dirs] is
    [check_dirs + act], [act] the value of [act_checked] after its
    increment. *)
Fixpoint find_next_entry_sel_loop (dirs : list searched_dir) (act : Z)
  (m : mounts) : option (option nat * mounts) :=
  match dirs with
  | [] => Some (None, set_act_checked act m)
  | sd :: rest =>
      match sel_index (ms_entries m) sd with
      | None => None
      | Some i =>
          if (i =? length (ms_entries m))%nat then
            find_next_entry_sel_loop rest (act + 1)
              (ms_log
                 (EvErrstr
                    "Mountpoint (or device) %s not found or has no quota enabled.\n"
                    [sd_name sd]) m)
          else Some (Some i, set_act_checked act m)
      end
  end.

(** Find next usable mountpoint when scanning selected mountpoints.
    [None]: [check_dirs] is read outside its elements, or an unassigned
    inode is read. *)
Definition find_next_entry_sel (m : mounts) : option (option nat * mounts) :=
  let act := act_checked m + 1 in
  if (act <? 0) || (Z.of_nat (length (check_dirs m)) <? act) then None
  else find_next_entry_sel_loop (skipn (Z.to_nat act) (check_dirs m)) act m.

(** What [get_next_mount] does: its behaviour is undefined, or it returns
    NULL, or a pointer to an element of [mnt_entries], whose content is
    given. *)
Inductive next_mount :=
| NextUndefined
| NoNextMount (m : mounts)
| NextMount (mnt : mount_entry) (m : mounts).

(** [mnt_entries[mntpos].me_dir = dir; return &mnt_entries[mntpos];]. *)
Definition return_mount (mntpos : nat) (dir : mount_entry -> option string)
  (m : mounts) : next_mount :=
  match nth_error (ms_entries m) mntpos with
  | None => NextUndefined
  | Some e =>
      match dir e with
      | None => NextUndefined
      | Some d =>
          let e := set_me_dir d e in
          NextMount e
            {| ms_entries := list_set (ms_entries m) mntpos e;
               check_dirs := check_dirs m;
               act_checked := act_checked m;
               ms_trace := ms_trace m |}
      end
  end.

(** Return next directory from the list. *)
Definition get_next_mount (m : mounts) : next_mount :=
  match check_dirs m with
  | [] =>
      (* Scan all mountpoints? *)
      match find_next_entry_all m with
      | None => NextUndefined
      | Some (None, m) => NoNextMount m
      | Some (Some mntpos, m) =>
          return_mount mntpos (fun e => Some (me__dir e)) m
      end
  | _ :: _ =>
      match find_next_entry_sel m with
      | None => NextUndefined
      | Some (None, m) => NoNextMount m
      | Some (Some mntpos, m) =>
          return_mount mntpos
            (fun _ =>
               match nth_error (check_dirs m) (Z.to_nat (act_checked m)) with
               | Some sd => Some (sd_name sd)
               | None => None
               end) m
      end
  end.

(** ** Lists of quotafile handles *)

(** The statics [hlist_allocated] and [hlist[0 .. gotmnt - 1]]. *)
Record handles := {
  hlist_allocated : Z;
  hlist : list quota_handle
}.

(** The statements at the label [add_entry]. *)
Definition add_entry (mnt : mount_entry) (type : qtype) (fmt ioflags : Z)
  (hs : handles) : handles :=
  let gotmnt := Z.of_nat (length (hlist hs)) in
  let allocated :=
    if hlist_allocated hs <=? gotmnt + 1
    then hlist_allocated hs + START_MNT_POINTS
    else hlist_allocated hs in
  match init_io IO mnt type fmt ioflags with
  | None => {| hlist_allocated := allocated; hlist := hlist hs |}
  | Some h =>
      {| hlist_allocated := allocated; hlist := (hlist hs ++ [h])%list |}
  end.

(** Does the body of the [while] loop of [create_handle_list] reach
    [add_entry] for [mnt]? *)
Definition handle_wanted (count fmt : Z) (mnt : mount_entry) : bool :=
  if negb RPC && nfs_fstype (me_type mnt) then false
  else if (fmt =? -1) || negb (count =? 0) then true
  else if fmt =? QF_RPC then nfs_fstype (me_type mnt)
  else if fmt =? QF_XFS
  then strcmp_eq (me_type mnt) MNTTYPE_XFS
       || strcmp_eq (me_type mnt) MNTTYPE_GFS2
  else negb (strcmp_eq (me_type mnt) MNTTYPE_XFS)
       && negb (strcmp_eq (me_type mnt) MNTTYPE_GFS2)
       && negb (nfs_fstype (me_type mnt)).

(** One pass of [while ((mnt = get_next_mount()))] per unit of fuel;
    [None]: the behaviour is undefined, or the fuel is used up. *)
Fixpoint create_handle_list_loop (fuel : nat) (count : Z) (type : qtype)
  (fmt ioflags : Z) (m : mounts) (hs : handles) : option (mounts * handles) :=
  match fuel with
  | O => None
  | S fuel' =>
      match get_next_mount m with
      | NextUndefined => None
      | NoNextMount m => Some (m, hs)
      | NextMount mnt m =>
          create_handle_list_loop fuel' count type fmt ioflags m
            (if handle_wanted count fmt mnt
             then add_entry mnt type fmt ioflags hs
             else hs)
      end
  end.

(** Create NULL terminated list of quotafile handles from given list of
    mountpoints; list of zero length means scan all entries in /etc/mtab.
    [mntpoints] is [mntpoints[0 .. count - 1]]. Every call of
    [get_next_mount] but the last one advances [act_checked], so at most
    one call more than there are entries and searched directories is
    made. *)
Definition create_handle_list (mntpoints : list string) (type : qtype)
  (fmt ioflags mntflags : Z) (m : mounts) (hs : handles)
  : option (exit (mounts * handles)) :=
  let count := Z.of_nat (length mntpoints) in
  let hs :=
    {| hlist_allocated :=
         if hlist_allocated hs =? 0 then START_MNT_POINTS
         else hlist_allocated hs;
       hlist := [] |} in
  (* If directories are specified, cache all NFS mountpoints *)
  let mntflags :=
    if negb (count =? 0) && negb (flag_set mntflags MS_LOCALONLY)
    then Z.lor mntflags MS_NFS_ALL
    else mntflags in
  let '(ret, m) := init_mounts_scan mntpoints mntflags m in
  if ret <? 0
  then Some (Dies 2 "Cannot initialize mountpoint scan.\n" (m, hs))
  else
    match
      create_handle_list_loop
        (S (length (ms_entries m) + length (check_dirs m)))
        count type fmt ioflags m hs
    with
    | None => None
    | Some (m, hs) =>
        let m := end_mounts_scan m in
        if negb (count =? 0)
           && negb (Z.of_nat (length (hlist hs)) =? count)
        then Some (Dies 1 "Not all specified mountpoints are using quota.\n"
                     (m, hs))
        else Some (Returns (m, hs))
    end.

(** Free given list of handles: the value of [ret] and the diagnostics
    after the handles [hlist[i ..]]. *)
Fixpoint dispose_handle_list_loop (hlist : list quota_handle) (ret : Z)
  : Z * list event :=
  match hlist with
  | [] => (ret, [])
  | h :: rest =>
      if end_io IO h <? 0 then
        let '(ret, diag) := dispose_handle_list_loop rest (-1) in
        (ret, EvErrstr "Error while releasing file on %s\n" [qh_quotadev h]
              :: diag)
      else dispose_handle_list_loop rest ret
  end.

Definition dispose_handle_list (hlist : list quota_handle) : Z * list event :=
  dispose_handle_list_loop hlist 0.

(** Check whether given device name matches this quota handle. *)
Definition devcmp_handle (dev : string) (h : quota_handle) : bool :=
  match sys_stat W dev with
  | SysErr _ => strcmp_eq dev (qh_quotadev h)
  | SysOk sbuf =>
      if negb (S_ISBLK (st_mode sbuf)) then strcmp_eq dev (qh_quotadev h)
      else if negb (st_rdev sbuf =? st_rdev (qh_stat h)) then false
      else true
  end.

(** Check whether two quota handles are for the same device. *)
Definition devcmp_handles (a b : quota_handle) : bool :=
  if negb (S_ISBLK (st_mode (qh_stat a)))
     || negb (S_ISBLK (st_mode (qh_stat b)))
  then strcmp_eq (qh_quotadev a) (qh_quotadev b)
  else if negb (st_rdev (qh_stat a) =? st_rdev (qh_stat b)) then false
  else true.

End MountScan.

(** ** Words for the properties of the probe, the cache and the scan *)

(** A [stat] or [quotactl] call. *)
Definition is_probe_call (e : event) : Prop :=
  match e with
  | EvStat _ | EvQuotactl _ _ _ _ => True
  | _ => False
  end.

Section ScanWords.

Context {H : Headers} {H2 : MoreHeaders}.
Variable W : World.

(** What the cache holds of the record an entry was made from. *)
Definition cached_from (flags : Z) (mnt : mntent) (e : mount_entry) : Prop :=
  me_type e = mnt_type mnt
  /\ sys_realpath W (mnt_dir mnt) = SysOk (me__dir e)
  /\ get_device_name W (mnt_fsname mnt) <> None
  /\ libc_hasmntopt W mnt MNTOPT_NOQUOTA = false
  /\ libc_hasmntopt W mnt MNTOPT_BIND = false
  /\ (flag_set flags MS_LOCALONLY = true -> nfs_fstype (me_type e) = false)
  /\ (flag_set flags MS_NO_AUTOFS = true ->
      strcmp_eq (me_type e) MNTTYPE_AUTOFS = false).

(** An entry without the noauto option. *)
Definition usable (e : mount_entry) : bool :=
  negb (nonnull (str_hasmntopt (me_opts e) MNTOPT_NOAUTO)).

(** The entry is on the device of the searched directory and, for a
    directory, is the mountpoint with its inode. *)
Definition sd_match (sd : searched_dir) (e : mount_entry) : bool :=
  (sd_dev sd =? me_dev e)
  && (if sd_dir sd
      then match sd_ino sd with
           | Some ino => ino =? me_ino e
           | None => false
           end
      else true).

(** The diagnostic for a searched directory that no entry matches. *)
Definition not_found (sd : searched_dir) : event :=
  EvErrstr "Mountpoint (or device) %s not found or has no quota enabled.\n"
    [sd_name sd].

(** The inode of a searched directory was assigned. *)
Definition sd_assigned (sd : searched_dir) : Prop :=
  sd_dir sd = true -> sd_ino sd <> None.

(** What [process_dirs] stores for a path it accepts. *)
Definition sd_checked (entries : list mount_entry) (flags : Z)
  (sd : searched_dir) : Prop :=
  sd_assigned sd
  /\ (sd_dir sd = false ->
      In (sd_dev sd) (map me_dev entries)
      /\ (String.length (sd_name sd) <= PATH_MAX - 2)%nat)
  /\ (sd_dir sd = false \/ flag_set flags MS_NO_MNTPOINT = true ->
      existsb (sd_match sd) entries = true).

(** The mounts that successive calls of [get_next_mount] return until it
    returns NULL, and the globals then. *)
Inductive yields : mounts -> list mount_entry -> mounts -> Prop :=
| yields_end (m m' : mounts) :
    get_next_mount m = NoNextMount m' -> yields m [] m'
| yields_next (m m1 m' : mounts) (mnt : mount_entry)
    (mnts : list mount_entry) :
    get_next_mount m = NextMount mnt m1 ->
    yields m1 mnts m' -> yields m (mnt :: mnts) m'.

(** The handle [init_io] makes for a mount, if any. *)
Definition handle_of (IO : QuotaIO) (type : qtype) (fmt ioflags : Z)
  (mnt : mount_entry) : list quota_handle :=
  match init_io IO mnt type fmt ioflags with
  | Some h => [h]
  | None => []
  end.

End ScanWords.

(** ** More values of the distribution, and more machines

    The values of the macros of [MoreHeaders] in the quota-tools
    distribution; as those of [Dist], they serve the examples only. *)
Module DistMore.

#[export] Instance more_headers : MoreHeaders := {|
  MNTOPT_NOAUTO := "noauto";
  QFMT_NAMES := 5;
  MS_NO_MNTPOINT := 1;
  MS_QUIET := 4;
  TF_ROUND := 1;
  MAXTIMELEN := 40;
  QSIZE_MAX := 9223372036854775807;
  RPC := true
|}.

End DistMore.

Module MoreExamples.
Import Dist DistMore Examples.

(** The cache of a machine with /dev/sda1 on /home, /dev/sdc1 on /backup
    with the option noauto, and /dev/sdb1 on /srv. *)
Definition cached_home : mount_entry := {|
  me_type := "ext3";
  me_opts := "rw,usrquota";
  me_dev := 2049;
  me_ino := 2;
  me_devname := "/dev/sda1";
  me__dir := "/home";
  me_dir := None;
  me_qfmt := {| q_usr := QF_VFSUNKNOWN; q_grp := -1 |}
|}.

Definition cached_backup : mount_entry := {|
  me_type := "ext3";
  me_opts := "rw,noauto,usrquota";
  me_dev := 2081;
  me_ino := 2;
  me_devname := "/dev/sdc1";
  me__dir := "/backup";
  me_dir := None;
  me_qfmt := {| q_usr := QF_VFSUNKNOWN; q_grp := -1 |}
|}.

Definition cached_srv : mount_entry := {|
  me_type := "xfs";
  me_opts := "rw,usrquota";
  me_dev := 2065;
  me_ino := 128;
  me_devname := "/dev/sdb1";
  me__dir := "/srv";
  me_dir := None;
  me_qfmt := {| q_usr := QF_XFS; q_grp := -1 |}
|}.

(** The globals after [init_mounts_scan] without paths. *)
Definition scan_all : mounts := {|
  ms_entries := [cached_home; cached_backup; cached_srv];
  check_dirs := [];
  act_checked := -1;
  ms_trace := []
|}.

(** The globals after [init_mounts_scan] for the device /dev/sdb1, the
    directory /mnt/usb, which is on no cached device, and the mountpoint
    /home. *)
Definition scan_selected : mounts := {|
  ms_entries := [cached_home; cached_backup; cached_srv];
  check_dirs :=
    [{| sd_dir := false; sd_dev := 2065; sd_ino := None; sd_name := "/srv" |};
     {| sd_dir := true; sd_dev := 2097; sd_ino := Some 2;
        sd_name := "/mnt/usb" |};
     {| sd_dir := true; sd_dev := 2049; sd_ino := Some 2;
        sd_name := "/home" |}];
  act_checked := -1;
  ms_trace := []
|}.

(** A quota I/O layer that opens a handle on every mount but those of the
    device /dev/sdb1. *)
Definition io_no_sdb1 : QuotaIO := {|
  init_io := fun mnt _ _ _ =>
    if String.eqb (me_devname mnt) "/dev/sdb1" then None
    else Some {| qh_quotadev := me_devname mnt;
                 qh_stat := {| st_mode := 25008; st_dev := 5;
                               st_rdev := me_dev mnt; st_ino := 300 |} |};
  end_io := fun _ => 0
|}.

Definition handles0 : handles := {| hlist_allocated := 0; hlist := [] |}.

(** A machine whose [hasmntopt] searches as the one of the GNU C library
    does: [strstr] finds an occurrence of [opt] from [rest] on; it counts
    if it starts the search or follows a comma, and the end of the
    options, '=' or ',' follows it; if it does not count the search goes
    on after the next comma. *)
Fixpoint strstr_from (fuel : nat) (s opt : string) (p : nat) : option nat :=
  match fuel with
  | O => None
  | S fuel' =>
      if strncmp_eq (str_drop p s) opt (strlen opt) then Some p
      else if is_nul (char_at s p) then None
      else strstr_from fuel' s opt (S p)
  end.

Fixpoint strstr_hasmntopt_loop (fuel : nat) (opts opt : string) (rest : nat)
  : bool :=
  match fuel with
  | O => false
  | S fuel' =>
      match strstr_from (S (strlen opts)) opts opt rest with
      | None => false
      | Some p =>
          let after := char_at opts (p + strlen opt) in
          if ((p =? rest)%nat || is_char "," (char_at opts (p - 1)))
             && (is_nul after || is_char "=" after || is_char "," after)
          then true
          else
            match strchr (str_drop p opts) "," with
            | None => false
            | Some i => strstr_hasmntopt_loop fuel' opts opt (S (p + i))
            end
      end
  end.

Definition strstr_hasmntopt (mnt : mntent) (opt : string) : bool :=
  strstr_hasmntopt_loop (S (strlen (mnt_opts mnt))) (mnt_opts mnt) opt 0.

Definition world_strstr : World := {|
  sys_stat := sys_stat world0;
  sys_statfs := sys_statfs world0;
  sys_open_rdonly := sys_open_rdonly world0;
  sys_realpath := sys_realpath world0;
  sys_quotactl := sys_quotactl world0;
  sys_sigemptyset := sys_sigemptyset world0;
  sys_sigaction := sys_sigaction world0;
  sys_getuid := sys_getuid world0;
  sys_getgid := sys_getgid world0;
  sys_setmntent := sys_setmntent world0;
  libc_hasmntopt := strstr_hasmntopt;
  get_device_name := get_device_name world0;
  check_file_flat := check_file_flat world0;
  check_file_tree := check_file_tree world0;
  strerror := strerror world0;
  uninitialized_loopdev := uninitialized_loopdev world0
|}.

End MoreExamples.

(** * Properties *)

(** ** C strings *)
Section CStrFacts.

Local Open Scope nat_scope.

Lemma str_drop_length (n : nat) (s : string) :
  String.length (str_drop n s) = String.length s - n.
Proof.
  revert s; induction n as [|n IH]; intros [|c r]; simpl; auto with arith.
Qed.

Lemma str_drop_add (a b : nat) (s : string) :
  str_drop (a + b) s = str_drop b (str_drop a s).
Proof.
  revert s; induction a as [|a IH]; intros s; simpl; [reflexivity|].
  destruct s as [|c r]; [destruct b; reflexivity | apply IH].
Qed.


Lemma str_take_length (n : nat) (s : string) :
  String.length (str_take n s) = Nat.min n (String.length s).
Proof.
  revert s; induction n as [|n IH]; intros [|c r]; simpl; auto.
Qed.

Lemma str_take_all (n : nat) (s : string) :
  String.length s <= n -> str_take n s = s.
Proof.
  revert s; induction n as [|n IH]; intros [|c r]; simpl; intros Hl;
    try reflexivity; try lia.
  f_equal; apply IH; lia.
Qed.


Lemma str_drop_app (s t : string) :
  str_drop (String.length s) (s ++ t) = t.
Proof. induction s as [|c r IH]; simpl; auto. Qed.

Lemma str_app_length (s t : string) :
  String.length (s ++ t) = String.length s + String.length t.
Proof. induction s as [|c r IH]; simpl; auto. Qed.

Lemma str_app_assoc (s t u : string) :
  ((s ++ t) ++ u)%string = (s ++ (t ++ u))%string.
Proof. induction s as [|c r IH]; simpl; [reflexivity | now rewrite IH]. Qed.


Lemma char_at_drop (s : string) (p : nat) :
  char_at s p =
  match str_drop p s with EmptyString => None | String c _ => Some c end.
Proof.
  unfold char_at; revert s; induction p as [|p IH]; intros [|c r]; simpl;
    auto.
Qed.

(** [strncmp] over the length of its second argument compares that
    argument with a prefix of the first. *)
Lemma strncmp_eq_take (s opt : string) :
  strncmp_eq s opt (String.length opt) = true <->
  str_take (String.length opt) s = opt.
Proof.
  revert s; induction opt as [|y b IH]; intros s; simpl.
  - destruct s; split; reflexivity.
  - destruct s as [|x a]; [split; discriminate|].
    simpl; destruct (Ascii.eqb x y) eqn:E.
    + apply Ascii.eqb_eq in E; subst y. rewrite IH.
      split; [now intros -> | now intros [= ->]].
    + split; [discriminate|].
      intros [= E' _]; subst y; rewrite Ascii.eqb_refl in E; discriminate.
Qed.

End CStrFacts.

(** ** MountOptionParser *)
Section ParserFacts.

Local Open Scope nat_scope.

Abbreviation nm := (span_until is_comma_or_eq).
Abbreviation ar := (span_until is_comma).

Lemma split_comma_nonempty (s : string) : split_comma s <> [].
Proof.
  destruct s as [|c r]; simpl; [discriminate|].
  destruct (is_comma c); [discriminate|].
  destruct (split_comma r); discriminate.
Qed.

(** The tokens, joined by commas, are the option string. *)
Lemma split_comma_concat (s : string) :
  String.concat "," (split_comma s) = s.
Proof.
  induction s as [|c r IH]; simpl; [reflexivity|].
  destruct (is_comma c) eqn:E.
  - apply Ascii.eqb_eq in E. subst c.
    pose proof (split_comma_nonempty r) as N.
    simpl. destruct (split_comma r) as [|t ts]; [contradiction|].
    now rewrite IH.
  - pose proof (split_comma_nonempty r) as N.
    destruct (split_comma r) as [|t ts]; [contradiction|].
    simpl in *. destruct ts; simpl in *; now rewrite IH.
Qed.

(** No token holds a comma. *)
Lemma split_comma_no_comma (s t : string) :
  In t (split_comma s) -> strchr t "," = None.
Proof.
  revert t; induction s as [|c r IH]; simpl; intros t.
  - intros [<- | []]. reflexivity.
  - destruct (is_comma c) eqn:E.
    + intros [<- | Hin]; [reflexivity | now apply IH].
    + pose proof (split_comma_nonempty r) as N.
      destruct (split_comma r) as [|t' ts]; [contradiction|].
      intros [<- | Hin].
      * simpl. unfold is_comma in E. rewrite E.
        now rewrite (IH t') by (now left).
      * apply IH. now right.
Qed.

Lemma span_le (stop : ascii -> bool) (s : string) :
  span_until stop s <= String.length s.
Proof. induction s as [|c r IH]; simpl; [lia | destruct (stop c); lia]. Qed.

Lemma split_comma_first (s : string) :
  split_comma s =
  str_take (ar s) s ::
    match str_drop (ar s) s with
    | EmptyString => []
    | String _ r => split_comma r
    end.
Proof.
  induction s as [|c r IH]; simpl; [reflexivity|].
  destruct (is_comma c); simpl; [reflexivity|].
  now rewrite IH.
Qed.

Lemma opt_name_first (s : string) :
  opt_name (str_take (ar s) s) = str_take (nm s) s.
Proof.
  induction s as [|c r IH]; simpl; [reflexivity|].
  change (is_comma_or_eq c) with (is_comma c || Ascii.eqb c "=")%bool.
  destruct (is_comma c); simpl; [reflexivity|].
  destruct (Ascii.eqb c "="); simpl; [reflexivity|].
  now rewrite IH.
Qed.

(** Stepping over the argument, if there is one, brings [p] to the end
    of the token. *)
Lemma comma_not_eq (c : ascii) :
  is_comma c = true -> Ascii.eqb c "=" = false.
Proof.
  unfold is_comma; intros E; apply Ascii.eqb_eq in E; now subst c.
Qed.

Lemma skip_arg_end (s : string) :
  match str_drop (nm s) s with
  | String c r =>
      if Ascii.eqb c "=" then ar s = S (nm s) + ar r else ar s = nm s
  | EmptyString => ar s = nm s
  end.
Proof.
  induction s as [|c r IH]; simpl; [reflexivity|].
  change (is_comma_or_eq c) with (is_comma c || Ascii.eqb c "=")%bool.
  destruct (is_comma c) eqn:Ec; simpl.
  - now rewrite (comma_not_eq _ Ec).
  - destruct (Ascii.eqb c "=") eqn:Ee; simpl.
    + now rewrite Ee.
    + destruct (str_drop (nm r) r) as [|c' r']; [lia|].
      destruct (Ascii.eqb c' "="); lia.
Qed.

Lemma name_test (s opt : string) :
  ((span_until is_comma_or_eq s =? String.length opt)
   && strncmp_eq s opt (String.length opt))%bool
  = String.eqb (str_take (nm s) s) opt.
Proof.
  destruct (String.eqb_spec (str_take (nm s) s) opt) as [E|E].
  - assert (L : nm s = String.length opt).
    { apply (f_equal String.length) in E. rewrite str_take_length in E.
      pose proof (span_le is_comma_or_eq s). lia. }
    rewrite L, Nat.eqb_refl; simpl.
    apply strncmp_eq_take. now rewrite <- L.
  - destruct (Nat.eqb_spec (nm s) (String.length opt)) as [L|L];
      [simpl | reflexivity].
    destruct (strncmp_eq s opt (String.length opt)) eqn:T; [|reflexivity].
    apply strncmp_eq_take in T. rewrite <- L in T. contradiction.
Qed.

Lemma char_at_in_range (s : string) (p : nat) :
  is_nul (char_at s p) = false -> p < String.length s.
Proof.
  unfold char_at. revert s; induction p as [|p IH]; intros [|c r]; simpl;
    try discriminate; [lia|].
  intros Hn. apply IH in Hn. lia.
Qed.

(** The loop of [str_hasmntopt] ends before the fuel does: more fuel
    changes nothing, whatever the searched name. *)
Lemma str_hasmntopt_loop_fuel (optstring opt : string) (fuel fuel' p : nat) :
  String.length optstring - p < fuel ->
  String.length optstring - p < fuel' ->
  str_hasmntopt_loop fuel optstring opt p
  = str_hasmntopt_loop fuel' optstring opt p.
Proof.
  revert fuel' p; induction fuel as [|fuel IH]; intros [|fuel'] p H1 H2;
    try lia.
  cbn [str_hasmntopt_loop]; cbv zeta.
  destruct ((p + span_until is_comma_or_eq (str_drop p optstring) - p
             =? strlen opt)
            && strncmp_eq (str_drop p optstring) opt (strlen opt));
    [reflexivity|].
  set (p1 := if is_char "=" _ then _ else _).
  assert (Hp1 : p <= p1) by (subst p1; destruct (is_char "=" _); lia).
  destruct (is_nul (char_at optstring p1)) eqn:N1.
  - rewrite N1. reflexivity.
  - destruct (is_nul (char_at optstring (S p1))) eqn:N2; [reflexivity|].
    apply char_at_in_range in N2. apply IH; lia.
Qed.

Lemma skip_arg_ptr (optstring : string) (off : nat) :
  let s := str_drop off optstring in
  let p := off + nm s in
  (if is_char "=" (char_at optstring p)
   then S p + ar (str_drop (S p) optstring)
   else p) = off + ar s.
Proof.
  intros s p. subst p.
  rewrite char_at_drop, str_drop_add. fold s.
  pose proof (skip_arg_end s) as E.
  replace (S (off + nm s)) with (off + nm s + 1) by lia.
  rewrite (str_drop_add (off + nm s) 1), str_drop_add. fold s.
  destruct (str_drop (nm s) s) as [|c r]; simpl; [lia|].
  destruct (Ascii.eqb c "="); lia.
Qed.

Lemma str_hasmntopt_loop_spec (fuel : nat) (optstring opt : string)
  (off : nat) :
  opt <> "" ->
  String.length (str_drop off optstring) < fuel ->
  str_hasmntopt_loop fuel optstring opt off =
  find_token opt (split_comma (str_drop off optstring)) off.
Proof.
  intros Hopt. revert off.
  induction fuel as [|fuel IH]; intros off Hfuel; [lia|].
  cbn [str_hasmntopt_loop]; cbv zeta.
  set (s := str_drop off optstring) in *.
  replace (off + nm s - off) with (nm s) by lia.
  unfold strlen. rewrite name_test, skip_arg_ptr. fold s.
  rewrite (split_comma_first s). cbn [find_token].
  rewrite opt_name_first.
  destruct (String.eqb (str_take (nm s) s) opt) eqn:T; [reflexivity|].
  assert (D : str_drop (off + ar s) optstring = str_drop (ar s) s)
    by apply str_drop_add.
  assert (D1 : str_drop (S (off + ar s)) optstring
               = str_drop 1 (str_drop (ar s) s)).
  { replace (S (off + ar s)) with (off + ar s + 1) by lia.
    now rewrite (str_drop_add (off + ar s) 1), D. }
  pose proof (span_le is_comma s) as Hle.
  pose proof (str_drop_length (ar s) s) as Hlen.
  rewrite str_take_length, Nat.min_l by exact Hle.
  rewrite !char_at_drop, D.
  destruct (str_drop (ar s) s) as [|c r] eqn:R; cbn [is_nul].
  - now rewrite D.
  - rewrite D1; cbn [str_drop].
    destruct (string_dec r "") as [->|Hr].
    + simpl. destruct opt; [congruence | reflexivity].
    + assert (N : is_nul match r with
                         | EmptyString => None
                         | String c0 _ => Some c0
                         end = false)
        by (destruct r; [contradiction | reflexivity]).
      rewrite N.
      replace (off + ar s + 1) with (S (off + ar s)) by lia.
      rewrite IH; rewrite D1; cbn [str_drop]; [reflexivity|].
      simpl in Hlen. lia.
Qed.

Lemma str_hasmntopt_spec (optstring opt : string) :
  opt <> "" ->
  str_hasmntopt optstring opt = find_token opt (split_comma optstring) 0.
Proof.
  intros Hopt. unfold str_hasmntopt.
  rewrite str_hasmntopt_loop_spec; [reflexivity | assumption |].
  unfold strlen; simpl; lia.
Qed.

Lemma find_token_In (opt : string) (toks : list string) (off : nat) :
  (exists p, find_token opt toks off = Some p)
  <-> In opt (map opt_name toks).
Proof.
  revert off; induction toks as [|t ts IH]; intros off; simpl.
  - split; [intros [p [=]] | intros []].
  - destruct (String.eqb_spec (opt_name t) opt) as [E|E].
    + split; [auto | eauto].
    + rewrite IH. tauto.
Qed.

(** Where a scanning loop stops. *)
Lemma span_stop (stop : ascii -> bool) (s : string) :
  match str_drop (span_until stop s) s with
  | EmptyString => True
  | String c _ => stop c = true
  end.
Proof.
  induction s as [|c r IH]; simpl; [exact I|].
  destruct (stop c) eqn:E; simpl; [exact E | exact IH].
Qed.

Lemma name_le_token (s : string) : nm s <= ar s.
Proof.
  pose proof (skip_arg_end s) as E.
  destruct (str_drop (nm s) s) as [|c r]; [lia|].
  destruct (Ascii.eqb c "="); lia.
Qed.

Lemma char_at_after (s r : string) (c : ascii) (a j : nat) :
  str_drop a s = String c r ->
  char_at s a = Some c /\ char_at s (a + 1 + j) = char_at r j.
Proof.
  intros E. rewrite !char_at_drop, E. split; [reflexivity|].
  replace (a + 1 + j) with (a + (1 + j)) by lia.
  now rewrite str_drop_add, E.
Qed.

(** The pointer found is at a token boundary, and what it points at is
    the option name followed by the end of the string, a ',' or a '='. *)
Lemma find_token_points (opt : string) (n : nat) :
  forall (s : string) (off p : nat),
    String.length s <= n ->
    find_token opt (split_comma s) off = Some p ->
    exists q,
      p = off + q
      /\ (q = 0 \/ char_at s (q - 1) = Some ","%char)
      /\ str_take (String.length opt) (str_drop q s) = opt
      /\ match char_at s (q + String.length opt) with
         | None => True
         | Some c => is_comma_or_eq c = true
         end.
Proof.
  induction n as [|n IH]; intros s off p Hn Hf;
    rewrite split_comma_first in Hf; cbn [find_token] in Hf;
    rewrite opt_name_first in Hf;
    pose proof (span_le is_comma s) as Hle;
    pose proof (span_le is_comma_or_eq s) as Hle';
    rewrite str_take_length, Nat.min_l in Hf by exact Hle;
    (destruct (String.eqb_spec (str_take (nm s) s) opt) as [E|E];
     [ injection Hf as <-; exists 0;
       assert (L : nm s = String.length opt)
         by (apply (f_equal String.length) in E;
             rewrite str_take_length in E; lia);
       rewrite <- L; cbn [str_drop Nat.add];
       repeat split; [lia | auto | exact E |];
       rewrite char_at_drop;
       pose proof (span_stop is_comma_or_eq s) as Hs;
       destruct (str_drop (nm s) s); exact Hs
     | ]).
  - destruct s; [discriminate | simpl in Hn; lia].
  - pose proof (span_stop is_comma s) as Hc.
    pose proof (str_drop_length (ar s) s) as Hl.
    destruct (str_drop (ar s) s) as [|c r] eqn:R; [discriminate|].
    apply Ascii.eqb_eq in Hc. subst c.
    apply IH in Hf as [q [-> [Hb [Ht Hn']]]]; [|simpl in Hl; lia].
    exists (ar s + 1 + q).
    destruct (char_at_after s r _ (ar s) (q + String.length opt) R)
      as [Ha Hs].
    split; [lia|]. split; [|split].
    + right. destruct Hb as [-> | Hb].
      * replace (ar s + 1 + 0 - 1) with (ar s) by lia. exact Ha.
      * destruct q as [|q]; [simpl in Hb |- *|].
        -- replace (ar s + 1 + 0 - 1) with (ar s) by lia. exact Ha.
        -- replace (ar s + 1 + S q - 1) with (ar s + 1 + q) by lia.
           replace (S q - 1) with q in Hb by lia.
           now rewrite (proj2 (char_at_after s r _ (ar s) q R)).
    + replace (ar s + 1 + q) with (ar s + (1 + q)) by lia.
      now rewrite str_drop_add, R.
    + replace (ar s + 1 + q + String.length opt)
        with (ar s + 1 + (q + String.length opt)) by lia.
      now rewrite Hs.
Qed.

(** C10 (amended): for every option string and every non-empty searched
    name, [str_hasmntopt] returns a pointer exactly when some
    comma-separated token, truncated before its '=' argument, equals the
    name; the pointer is the offset of the first such token, where the
    name stands between token boundaries. A name that is only a part of a
    token's name, or that occurs inside an argument, is not matched. *)
Theorem str_hasmntopt_tokens (optstring opt : string) :
  opt <> "" ->
  str_hasmntopt optstring opt = find_token opt (split_comma optstring) 0
  /\ ((exists p, str_hasmntopt optstring opt = Some p)
      <-> In opt (map opt_name (split_comma optstring)))
  /\ forall p,
       str_hasmntopt optstring opt = Some p ->
       (p = 0 \/ char_at optstring (p - 1) = Some ","%char)%nat
       /\ str_take (String.length opt) (str_drop p optstring) = opt
       /\ match char_at optstring (p + String.length opt) with
          | None => True
          | Some c => is_comma_or_eq c = true
          end.
Proof.
  intros Hopt. pose proof (str_hasmntopt_spec optstring opt Hopt) as E.
  split; [exact E|]. split.
  - rewrite E. apply find_token_In.
  - intros p Hp. rewrite E in Hp.
    apply (find_token_points opt (String.length optstring)) in Hp
      as [q [-> R]]; [exact R | apply le_n].
Qed.

End ParserFacts.

(** ** ActiveFormatResolver *)
Section ActiveFormat.
Context {H : Headers}.
Variable W : World.

(** C4: for every mount entry and every requested format, the wildcard
    -1 included, [kern_quota_on] returns the no-quota sentinel -1 when the
    classified format of the mount for the requested type is negative,
    and also when the requested format is QF_RPC, whatever the classified
    format. *)
Theorem kern_quota_on_none (iface : Z) (mnt : mount_entry) (type : qtype)
  (fmt : Z) :
  qget (me_qfmt mnt) type < 0 \/ fmt = QF_RPC ->
  kern_quota_on W iface mnt type fmt = -1.
Proof.
  intros [Hneg | Hrpc]; unfold kern_quota_on.
  - apply Z.ltb_lt in Hneg. now rewrite Hneg.
  - destruct (qget (me_qfmt mnt) type <? 0); [reflexivity|].
    subst fmt. now rewrite Z.eqb_refl.
Qed.

(** C5 (amended): for a mount whose classified format for the requested
    type is QF_META, [kern_quota_on] returns QF_META for every requested
    format other than QF_RPC and QF_XFS, and -1 for these two. *)
Theorem kern_quota_on_meta (iface : Z) (mnt : mount_entry) (type : qtype)
  (fmt : Z) :
  qget (me_qfmt mnt) type = QF_META ->
  0 <= QF_META ->
  QF_META <> QF_XFS ->
  (fmt <> QF_RPC /\ fmt <> QF_XFS ->
   kern_quota_on W iface mnt type fmt = QF_META)
  /\ (fmt = QF_RPC \/ fmt = QF_XFS ->
      kern_quota_on W iface mnt type fmt = -1).
Proof.
  intros Hmeta Hpos Hxfs. unfold kern_quota_on. rewrite Hmeta.
  destruct (Z.ltb_spec QF_META 0) as [?|_]; [lia|].
  destruct (Z.eqb_spec QF_META QF_XFS) as [?|_]; [contradiction|].
  rewrite Z.eqb_refl.
  split.
  - intros [Hr Hx].
    destruct (Z.eqb_spec fmt QF_RPC) as [?|_]; [contradiction|].
    destruct (Z.eqb_spec fmt QF_XFS) as [?|_]; [contradiction|].
    reflexivity.
  - intros [-> | ->].
    + now rewrite Z.eqb_refl.
    + rewrite Z.eqb_refl. now destruct (QF_XFS =? QF_RPC).
Qed.

End ActiveFormat.

(** ** KernelInterfaceProbe *)
Section KernelProbe.
Context {H : Headers}.
Variable W : World.

Lemma probe_xfs_iface (k : kstate) :
  kernel_iface (probe_xfs W k) = kernel_iface k.
Proof.
  unfold probe_xfs.
  destruct (sys_stat W "/proc/fs/xfs/stat"); [reflexivity|].
  destruct (sys_quotactl W Q_XGETQSTAT 0 (Some "/dev/root") 0) as [|e];
    [reflexivity|].
  now destruct (negb (e =? EINVAL) && negb (e =? ENOSYS)).
Qed.

(** The XFS check issues only its own two calls. *)
Lemma probe_xfs_trace (k : kstate) (e : event) :
  In e (ktrace (probe_xfs W k)) ->
  In e (ktrace k)
  \/ e = EvStat "/proc/fs/xfs/stat"
  \/ e = EvQuotactl Q_XGETQSTAT 0 (Some "/dev/root") 0.
Proof.
  unfold probe_xfs.
  destruct (sys_stat W "/proc/fs/xfs/stat"); simpl.
  - rewrite in_app_iff; simpl; intuition (subst; auto).
  - destruct (sys_quotactl W Q_XGETQSTAT 0 (Some "/dev/root") 0) as [|e'];
      [|destruct (negb (e' =? EINVAL) && negb (e' =? ENOSYS))];
      simpl; rewrite !in_app_iff; simpl; intuition (subst; auto).
Qed.

Lemma kern_qfmt_supp_In (k : kstate) (fmt : Z) :
  In fmt (kernel_qfmt k) -> kern_qfmt_supp k fmt = true.
Proof.
  intros Hin. unfold kern_qfmt_supp.
  destruct (fmt =? -1).
  - destruct (kernel_qfmt k); [contradiction | reflexivity].
  - apply existsb_exists. exists fmt. split; [assumption | apply Z.eqb_refl].
Qed.

(** The state in which [init_kernel_interface] ends once the handler is
    installed. *)
Lemma init_kernel_interface_state (k : kstate) :
  0 <= sys_sigemptyset W ->
  0 <= sys_sigaction W false ->
  exit_state (init_kernel_interface W k) =
  klog (EvSigaction true)
    (probe_kernel_interface W (klog (EvSigaction false) k)).
Proof.
  intros H1 H2. unfold init_kernel_interface.
  destruct (Z.ltb_spec (sys_sigemptyset W) 0); [lia|].
  destruct (Z.ltb_spec (sys_sigaction W false) 0); [lia|].
  now destruct (sys_sigaction W true <? 0).
Qed.

Lemma init_kernel_interface_cases (k : kstate) :
  exit_state (init_kernel_interface W k) = k
  \/ exit_state (init_kernel_interface W k) = klog (EvSigaction false) k
  \/ exit_state (init_kernel_interface W k) =
     klog (EvSigaction true)
       (probe_kernel_interface W (klog (EvSigaction false) k)).
Proof.
  unfold init_kernel_interface.
  destruct (sys_sigemptyset W <? 0); [now left|].
  destruct (sys_sigaction W false <? 0); [now right; left|].
  right; right. now destruct (sys_sigaction W true <? 0).
Qed.

Lemma probe_generic_state (k : kstate) :
  generic_assumed W = true ->
  probe_kernel_interface W k =
  let k1 := probe_xfs W (kreset_qfmt k) in
  {| kernel_iface := IFACE_GENERIC;
     kernel_qfmt := (kernel_qfmt k1
                     ++ [QF_META; QF_VFSOLD; QF_VFSV0; QF_VFSV1])%list;
     ktrace := (ktrace k1 ++ [EvStat "/proc/sys/fs/quota"])%list |}.
Proof.
  unfold probe_kernel_interface; intros ->.
  unfold kpush, kset_iface, klog; simpl.
  now rewrite <- !app_assoc.
Qed.

Lemma probe_legacy_state (k : kstate) :
  let v0 := (err_stat W =? 0) && (err_quota W =? EINVAL) in
  probe_legacy W k =
  {| kernel_iface := if v0 then IFACE_VFSV0 else IFACE_VFSOLD;
     kernel_qfmt := (kernel_qfmt k
                     ++ [if v0 then QF_VFSV0 else QF_VFSOLD])%list;
     ktrace := (ktrace k
                ++ [EvQuotactl Q_V1_GETSTATS 0 None 0;
                    EvQuotactl Q_V1_GETQUOTA 0 (Some "/dev/null") 0])%list
  |}.
Proof.
  unfold probe_legacy. cbv zeta.
  destruct ((err_stat W =? 0) && (err_quota W =? EINVAL));
    unfold kpush, kset_iface, klog; simpl;
    now rewrite <- !app_assoc.
Qed.

(** The state the probe leaves when the generic path is provably absent
    and the version-2 statistics call fails otherwise than with "not
    implemented" or "not supported". *)
Lemma probe_legacy_branch (k : kstate) (errno : Z) :
  generic_assumed W = false ->
  sys_quotactl W Q_V2_GETSTATS 0 None 0 = SysErr errno ->
  errno <> ENOSYS -> errno <> ENOTSUP ->
  probe_kernel_interface W k =
  probe_legacy W
    (klog (EvQuotactl Q_V2_GETSTATS 0 None 0)
       (klog (EvStat "/proc/sys/fs/quota")
          (probe_xfs W (kreset_qfmt k)))).
Proof.
  intros G E H1 H2. unfold probe_kernel_interface. rewrite G, E.
  destruct (Z.eqb_spec errno ENOSYS); [contradiction|].
  destruct (Z.eqb_spec errno ENOTSUP); [contradiction|].
  reflexivity.
Qed.

(** The version-2 statistics call is issued only when the generic
    interface is not assumed. *)
Lemma v2_getstats_issued (k : kstate) :
  In (EvQuotactl Q_V2_GETSTATS 0 None 0)
     (ktrace (exit_state (init_kernel_interface W k))) ->
  ~ In (EvQuotactl Q_V2_GETSTATS 0 None 0) (ktrace k) ->
  generic_assumed W = false
  /\ exit_state (init_kernel_interface W k) =
     klog (EvSigaction true)
       (probe_kernel_interface W (klog (EvSigaction false) k)).
Proof.
  intros Hin Hk.
  destruct (init_kernel_interface_cases k) as [E | [E | E]];
    rewrite E in Hin.
  - contradiction.
  - simpl in Hin. apply in_app_iff in Hin as [? | [? | []]];
      [contradiction | discriminate].
  - split; [|exact E].
    destruct (generic_assumed W) eqn:G; [|reflexivity]. exfalso.
    rewrite probe_generic_state in Hin by exact G. simpl in Hin.
    rewrite !in_app_iff in Hin; simpl in Hin.
    destruct Hin as [[Hx | [? | []]] | [? | []]]; try discriminate.
    apply probe_xfs_trace in Hx. simpl in Hx.
    rewrite in_app_iff in Hx; simpl in Hx.
    destruct Hx as [[? | [? | []]] | [? | ?]];
      try contradiction; discriminate.
Qed.

(** C2: when the probe has issued the version-2 statistics call and it
    fails with an error other than ENOSYS and ENOTSUP, the probe issues a
    version-1 statistics call (NULL device) and a version-1 get-quota
    call on /dev/null; statistics success with get-quota failing with
    EINVAL selects the v0 interface and records QF_VFSV0 as supported,
    every other combination selects the old interface and records
    QF_VFSOLD. A failing call sets a non-zero errno. *)
Theorem init_kernel_interface_legacy_pair (errno : Z) :
  let k := exit_state (init_kernel_interface W kstate0) in
  let v1_stats := sys_quotactl W Q_V1_GETSTATS 0 None 0 in
  let v1_quota := sys_quotactl W Q_V1_GETQUOTA 0 (Some "/dev/null") 0 in
  In (EvQuotactl Q_V2_GETSTATS 0 None 0) (ktrace k) ->
  sys_quotactl W Q_V2_GETSTATS 0 None 0 = SysErr errno ->
  errno <> ENOSYS -> errno <> ENOTSUP ->
  (forall e, v1_stats = SysErr e -> e <> 0) ->
  In (EvQuotactl Q_V1_GETSTATS 0 None 0) (ktrace k)
  /\ In (EvQuotactl Q_V1_GETQUOTA 0 (Some "/dev/null") 0) (ktrace k)
  /\ (sysret v1_stats = 0 /\ v1_quota = SysErr EINVAL ->
      kernel_iface k = IFACE_VFSV0
      /\ In QF_VFSV0 (kernel_qfmt k)
      /\ kern_qfmt_supp k QF_VFSV0 = true)
  /\ (~ (sysret v1_stats = 0 /\ v1_quota = SysErr EINVAL) ->
      kernel_iface k = IFACE_VFSOLD
      /\ In QF_VFSOLD (kernel_qfmt k)
      /\ kern_qfmt_supp k QF_VFSOLD = true).
Proof.
  intros k v1_stats v1_quota Hin E H1 H2 Hnz.
  destruct (v2_getstats_issued kstate0 Hin) as [G Ek]; [simpl; tauto|].
  fold k in Ek.
  rewrite (probe_legacy_branch _ errno G E H1 H2), probe_legacy_state
    in Ek.
  cbv zeta in Ek.
  assert (V : (err_stat W =? 0) && (err_quota W =? EINVAL) = true
              <-> sysret v1_stats = 0 /\ v1_quota = SysErr EINVAL).
  { unfold err_stat, err_quota. fold v1_stats v1_quota.
    destruct v1_stats as [x|e1] eqn:S1; destruct v1_quota as [y|e2];
      simpl; rewrite ?andb_true_iff, ?Z.eqb_eq.
    - split; [discriminate | intros [_ ?]; discriminate].
    - split; [intros ->; auto | intros [_ [= ->]]; reflexivity].
    - split; [intros [_ ?]; discriminate | intros [? _]; discriminate].
    - specialize (Hnz e1 eq_refl).
      split; [intros [? _]; contradiction | intros [? _]; discriminate]. }
  set (v0 := (err_stat W =? 0) && (err_quota W =? EINVAL)) in *.
  assert (F1 : kernel_iface k = if v0 then IFACE_VFSV0 else IFACE_VFSOLD)
    by now rewrite Ek.
  assert (F2 : In (if v0 then QF_VFSV0 else QF_VFSOLD) (kernel_qfmt k))
    by (rewrite Ek; simpl; rewrite in_app_iff; simpl; auto).
  assert (F3 : forall e,
             In e [EvQuotactl Q_V1_GETSTATS 0 None 0;
                   EvQuotactl Q_V1_GETQUOTA 0 (Some "/dev/null") 0] ->
             In e (ktrace k))
    by (intros e He; rewrite Ek; simpl; rewrite !in_app_iff; auto).
  clearbody k v0. clear Ek.
  split; [apply F3; simpl; auto|]. split; [apply F3; simpl; auto|].
  split; intros Hc.
  - apply V in Hc. rewrite Hc in *.
    repeat split; auto using kern_qfmt_supp_In.
  - destruct v0; [exfalso; apply Hc, V; reflexivity|].
    repeat split; auto using kern_qfmt_supp_In.
Qed.

Lemma generic_assumed_iff :
  generic_assumed W = true <->
  (exists sb, sys_stat W "/proc/sys/fs/quota" = SysOk sb)
  \/ (exists errno,
        sys_stat W "/proc/sys/fs/quota" = SysErr errno /\ errno <> ENOENT).
Proof.
  unfold generic_assumed.
  destruct (sys_stat W "/proc/sys/fs/quota") as [sb|e].
  - split; [eauto | reflexivity].
  - rewrite negb_true_iff, Z.eqb_neq. split.
    + intros Hne; right; eauto.
    + intros [[sb [=]] | [e' [[= <-] Hne]]]; exact Hne.
Qed.

Lemma probe_xfs_qfmt (k : kstate) :
  kernel_qfmt (probe_xfs W k) = kernel_qfmt k
  \/ kernel_qfmt (probe_xfs W k) = (kernel_qfmt k ++ [QF_XFS])%list.
Proof.
  unfold probe_xfs.
  destruct (sys_stat W "/proc/fs/xfs/stat"); [now right|].
  destruct (sys_quotactl W Q_XGETQSTAT 0 (Some "/dev/root") 0) as [|e];
    [now right|].
  destruct (negb (e =? EINVAL) && negb (e =? ENOSYS)); [now right | now left].
Qed.

Lemma probe_iface_cases (k : kstate) :
  generic_assumed W = false ->
  kernel_iface (probe_kernel_interface W k) = kernel_iface k
  \/ kernel_iface (probe_kernel_interface W k) = IFACE_VFSV0
  \/ kernel_iface (probe_kernel_interface W k) = IFACE_VFSOLD.
Proof.
  intros G. unfold probe_kernel_interface. rewrite G.
  destruct (sys_quotactl W Q_V2_GETSTATS 0 None 0) as [|e];
    [right; left; reflexivity|].
  destruct (negb (e =? ENOSYS) && negb (e =? ENOTSUP)).
  - rewrite probe_legacy_state. cbv zeta; simpl.
    destruct ((err_stat W =? 0) && (err_quota W =? EINVAL)); auto.
  - left. simpl. now rewrite probe_xfs_iface.
Qed.

(** C8 (amended): once the signal handler is installed, the probe selects
    the generic interface exactly when [stat] of /proc/sys/fs/quota
    succeeds or fails with an error other than ENOENT; it then records the
    meta, old, v0 and v1 formats as supported (after XFS, if detected)
    and issues no quotactl call beyond the one of the XFS check. *)
Theorem init_kernel_interface_generic :
  0 <= sys_sigemptyset W ->
  0 <= sys_sigaction W false ->
  IFACE_GENERIC <> 0 ->
  IFACE_GENERIC <> IFACE_VFSV0 ->
  IFACE_GENERIC <> IFACE_VFSOLD ->
  let k := exit_state (init_kernel_interface W kstate0) in
  (kernel_iface k = IFACE_GENERIC <->
   (exists sb, sys_stat W "/proc/sys/fs/quota" = SysOk sb)
   \/ (exists errno,
         sys_stat W "/proc/sys/fs/quota" = SysErr errno
         /\ errno <> ENOENT))
  /\ (kernel_iface k = IFACE_GENERIC ->
      (kernel_qfmt k = [QF_META; QF_VFSOLD; QF_VFSV0; QF_VFSV1]
       \/ kernel_qfmt k = [QF_XFS; QF_META; QF_VFSOLD; QF_VFSV0; QF_VFSV1])
      /\ kern_qfmt_supp k QF_META = true
      /\ kern_qfmt_supp k QF_VFSOLD = true
      /\ kern_qfmt_supp k QF_VFSV0 = true
      /\ kern_qfmt_supp k QF_VFSV1 = true
      /\ forall op type special id,
           In (EvQuotactl op type special id) (ktrace k) ->
           EvQuotactl op type special id
           = EvQuotactl Q_XGETQSTAT 0 (Some "/dev/root") 0).
Proof.
  intros S1 S2 N0 N1 N2 k.
  pose proof (init_kernel_interface_state kstate0 S1 S2) as Ek. fold k in Ek.
  rewrite <- generic_assumed_iff.
  assert (Hiff : kernel_iface k = IFACE_GENERIC <-> generic_assumed W = true).
  { destruct (generic_assumed W) eqn:G.
    - rewrite Ek, probe_generic_state by exact G. simpl. tauto.
    - split; [|discriminate]. intros Hk. exfalso.
      rewrite Ek in Hk. simpl in Hk.
      destruct (probe_iface_cases (klog (EvSigaction false) kstate0) G)
        as [E | [E | E]]; rewrite E in Hk; simpl in Hk; congruence. }
  split; [exact Hiff|]. intros Hk. apply Hiff in Hk.
  rewrite probe_generic_state in Ek by exact Hk. cbv zeta in Ek.
  assert (Q : kernel_qfmt k = [QF_META; QF_VFSOLD; QF_VFSV0; QF_VFSV1]
              \/ kernel_qfmt k
                 = [QF_XFS; QF_META; QF_VFSOLD; QF_VFSV0; QF_VFSV1]).
  { rewrite Ek; simpl.
    destruct (probe_xfs_qfmt (kreset_qfmt (klog (EvSigaction false) kstate0)))
      as [E | E]; rewrite E; simpl; auto. }
  split; [exact Q|].
  repeat split;
    try (apply kern_qfmt_supp_In; destruct Q as [-> | ->]; simpl; tauto).
  intros op type special id Hin.
  rewrite Ek in Hin. simpl in Hin.
  rewrite !in_app_iff in Hin; simpl in Hin.
  destruct Hin as [[Hx | [? | []]] | [? | []]]; try discriminate.
  apply probe_xfs_trace in Hx. simpl in Hx.
  destruct Hx as [[? | []] | [? | ?]]; try discriminate. assumption.
Qed.

End KernelProbe.

(** ** QuotaFileResolver *)
Section CopyArg.
Local Open Scope nat_scope.

Lemma span_le' (stop : ascii -> bool) (s : string) :
  span_until stop s <= String.length s.
Proof. induction s as [|c r IH]; simpl; [lia | destruct (stop c); lia]. Qed.

Lemma strchr_comma (s : string) :
  match strchr s "," with
  | Some sep => sep = span_until is_comma s
  | None => span_until is_comma s = String.length s
  end.
Proof.
  induction s as [|c r IH]; simpl; [reflexivity|].
  change (is_comma c) with (Ascii.eqb c ",").
  destruct (Ascii.eqb c ","); [reflexivity|].
  destruct (strchr r ","); simpl; lia.
Qed.

Lemma copy_mntoptarg_fits (optarg : string) (buflen : nat) :
  String.length (arg_at optarg) < buflen ->
  copy_mntoptarg optarg buflen = arg_at optarg.
Proof.
  unfold arg_at, copy_mntoptarg, sstrncpy, strlen.
  rewrite str_take_length.
  pose proof (span_le' is_comma optarg) as Hle.
  pose proof (strchr_comma optarg) as Hs.
  intros Hfit.
  destruct (strchr optarg ",") as [sep|].
  - subst sep. f_equal. lia.
  - rewrite Hs. f_equal. lia.
Qed.

Lemma mntdir_slash_fits (dir : string) :
  String.length dir + 1 < PATH_MAX ->
  mntdir_slash dir = (dir ++ "/")%string.
Proof.
  intros Hfit. unfold mntdir_slash, sstrncat, sstrncpy.
  rewrite (str_take_all (PATH_MAX - 1) dir) by lia.
  assert (E : str_take PATH_MAX "/" = "/").
  { apply str_take_all. cbn [String.length]. lia. }
  rewrite E. apply str_take_all. rewrite str_app_length.
  cbn [String.length]. lia.
Qed.

Lemma snprintf_fits (size : nat) (s : string) :
  String.length s < size -> snprintf size s = s.
Proof. intros Hfit. unfold snprintf. apply str_take_all. lia. Qed.

End CopyArg.

Section Resolver.
Context {H : Headers}.
Variable W : World.

Lemma flag_set_nonzero (flags mask : Z) :
  flag_set flags mask = true -> flags <> 0.
Proof.
  unfold flag_set. intros Hs ->. now rewrite Z.land_0_l in Hs.
Qed.

(** C3 (amended): when NF_EXIST is requested and [stat] of the resolved
    path fails, [get_qf_name] returns -1 and assigns no file name, whatever
    the error; ENOENT fails silently, any other error is reported first.
    When [stat] succeeds and no format check is requested, it returns 0
    with the path. When [stat] succeeds and the format check (NF_FORMAT)
    is requested: if the file opens, it returns 0 with the path exactly
    when the checker of the format returns a positive value, and -1
    silently otherwise; if [open] fails with ENOENT or EPERM it returns 0
    with the path and no checker runs; if [open] fails with another error,
    the error is reported and it returns -1. *)
Theorem get_qf_name_exist_check (mnt : mount_entry) (type : qtype)
  (fmt flags : Z) (name : string) :
  qf_fullname mnt type fmt = QfName name ->
  flag_set flags NF_EXIST = true ->
  (forall errno,
     sys_stat W name = SysErr errno ->
     get_qf_name W mnt type fmt flags =
     QfReturn (-1) None
       (if errno =? ENOENT then []
        else [EvErrstr "Cannot stat quota file %s: %s\n"
                [name; strerror W errno]]))
  /\ (forall sb,
        sys_stat W name = SysOk sb ->
        flag_set flags NF_FORMAT = false ->
        get_qf_name W mnt type fmt flags = QfReturn 0 (Some name) [])
  /\ (forall sb fd,
        sys_stat W name = SysOk sb ->
        flag_set flags NF_FORMAT = true ->
        sys_open_rdonly W name = SysOk fd ->
        get_qf_name W mnt type fmt flags =
        if 0 <? (if is_tree_qfmt fmt then check_file_tree W name type fmt
                 else check_file_flat W name type fmt)
        then QfReturn 0 (Some name) []
        else QfReturn (-1) None [])
  /\ (forall sb errno,
        sys_stat W name = SysOk sb ->
        flag_set flags NF_FORMAT = true ->
        sys_open_rdonly W name = SysErr errno ->
        get_qf_name W mnt type fmt flags =
        if (errno =? ENOENT) || (errno =? EPERM)
        then QfReturn 0 (Some name) []
        else QfReturn (-1) None
               [EvErrstr "Cannot open quotafile %s: %s\n"
                  [name; strerror W errno]]).
Proof.
  intros Hname Hex. pose proof (flag_set_nonzero _ _ Hex) as Hnz.
  apply Z.eqb_neq in Hnz.
  unfold get_qf_name, check_fmtfile_ok. rewrite Hname, Hnz, Hex.
  split; [|split; [|split]].
  - intros errno ->. now destruct (errno =? ENOENT).
  - intros sb -> ->. reflexivity.
  - intros sb fd -> -> ->.
    destruct (is_tree_qfmt fmt).
    + destruct (Z.leb_spec (check_file_tree W name type fmt) 0) as [L|L];
        destruct (Z.ltb_spec 0 (check_file_tree W name type fmt));
        try lia; reflexivity.
    + destruct (Z.leb_spec (check_file_flat W name type fmt) 0) as [L|L];
        destruct (Z.ltb_spec 0 (check_file_flat W name type fmt));
        try lia; reflexivity.
  - intros sb errno -> -> ->.
    destruct (errno =? ENOENT), (errno =? EPERM); reflexivity.
Qed.

(** Once [qfullname] is built, [get_qf_name] returns it or fails, as
    [check_fmtfile_ok] decides; without checks it returns it. *)
Lemma get_qf_name_of_fullname (mnt : mount_entry) (type : qtype)
  (fmt : Z) (name : string) :
  qf_fullname mnt type fmt = QfName name ->
  get_qf_name W mnt type fmt 0 = QfReturn 0 (Some name) []
  /\ forall flags,
       exists diag,
         get_qf_name W mnt type fmt flags = QfReturn 0 (Some name) diag
         \/ get_qf_name W mnt type fmt flags = QfReturn (-1) None diag.
Proof.
  intros E. unfold get_qf_name. rewrite E. split; [reflexivity|].
  intros flags.
  destruct (check_fmtfile_ok W name type fmt flags) as [ok diag].
  exists diag. destruct (negb (ok =? 0)); auto.
Qed.

Lemma qf_fullname_default (mnt : mount_entry) (type : qtype) (fmt : Z)
  (dir base : string) (option : nat) :
  me_dir mnt = Some dir ->
  str_hasmntopt (me_opts mnt) (plain_option type) = Some option ->
  is_char "=" (char_at (me_opts mnt) (option + strlen (plain_option type)))
  = false ->
  0 <= fmt ->
  nth_error INITQFBASENAMES (Z.to_nat fmt) = Some base ->
  (String.length (dir ++ "/" ++ base ++ "." ++ type2name type)
   < PATH_MAX)%nat ->
  qf_fullname mnt type fmt
  = QfName (dir ++ "/" ++ base ++ "." ++ type2name type).
Proof.
  intros Hdir Hopt Hnoarg Hfmt Hbase Hfit.
  unfold qf_fullname, default_qfname.
  destruct type; simpl in Hopt, Hnoarg; rewrite Hopt, Hnoarg, Hdir;
    (destruct (Z.ltb_spec fmt 0); [lia|]);
    rewrite Hbase, snprintf_fits by exact Hfit; reflexivity.
Qed.

Lemma qf_fullname_journaled (mnt : mount_entry) (type : qtype) (fmt : Z)
  (dir : string) (option : nat) :
  me_dir mnt = Some dir ->
  str_hasmntopt (me_opts mnt) (plain_option type) = None ->
  hasmntoptarg (me_opts mnt) (journal_option type) = Some option ->
  (String.length
     (dir ++ "/" ++ arg_at (str_drop option (me_opts mnt))) < PATH_MAX)%nat ->
  qf_fullname mnt type fmt
  = QfName (dir ++ "/" ++ arg_at (str_drop option (me_opts mnt))).
Proof.
  intros Hdir Hplain Hj Hfit.
  set (arg := arg_at (str_drop option (me_opts mnt))) in *.
  rewrite !str_app_length in Hfit. cbn [String.length] in Hfit.
  unfold qf_fullname, append_mntoptarg.
  destruct type; simpl in Hplain, Hj; rewrite Hplain, Hj, Hdir;
    rewrite mntdir_slash_fits by lia;
    rewrite copy_mntoptarg_fits
      by (fold arg; unfold strlen; rewrite str_app_length;
          cbn [String.length]; lia);
    fold arg; now rewrite str_app_assoc.
Qed.


(** C7 (amended): for a mount entry without the plain type-enable option
    whose journaled option has an argument, [get_qf_name] resolves the
    path to the mountpoint, a '/', and the argument up to the next ','
    (so "<mountpoint>//my/journal" for the argument "/my/journal"),
    provided the path is shorter than PATH_MAX. *)
Theorem get_qf_name_journaled (mnt : mount_entry) (type : qtype) (fmt : Z)
  (dir : string) (option : nat) :
  me_dir mnt = Some dir ->
  str_hasmntopt (me_opts mnt) (plain_option type) = None ->
  hasmntoptarg (me_opts mnt) (journal_option type) = Some option ->
  let path := dir ++ "/" ++ arg_at (str_drop option (me_opts mnt)) in
  (String.length path < PATH_MAX)%nat ->
  qf_fullname mnt type fmt = QfName path
  /\ get_qf_name W mnt type fmt 0 = QfReturn 0 (Some path) []
  /\ forall flags,
       exists diag,
         get_qf_name W mnt type fmt flags = QfReturn 0 (Some path) diag
         \/ get_qf_name W mnt type fmt flags = QfReturn (-1) None diag.
Proof.
  intros Hdir Hplain Hj path Hfit.
  pose proof (qf_fullname_journaled mnt type fmt dir option
                Hdir Hplain Hj Hfit) as E.
  split; [exact E|]. now apply get_qf_name_of_fullname.
Qed.

End Resolver.

(** ** MountTableCache *)
Section CacheFacts.
Context {H : Headers}.
Variable W : World.

Lemma dev_index_le (es : list mount_entry) (dev : Z) :
  (dev_index es dev <= length es)%nat.
Proof.
  induction es as [|e es IH]; simpl; [lia|].
  destruct (me_dev e =? dev); lia.
Qed.

Lemma dev_index_new (es : list mount_entry) (dev : Z) :
  (dev_index es dev =? length es)%nat = true <->
  ~ In dev (map me_dev es).
Proof.
  rewrite Nat.eqb_eq.
  induction es as [|e es IH]; simpl; [tauto|].
  destruct (Z.eqb_spec (me_dev e) dev) as [E|E].
  - split; [discriminate | intros Hn; exfalso; apply Hn; now left].
  - split.
    + intros [= Hi]. apply IH in Hi. tauto.
    + intros Hn. f_equal. apply IH. tauto.
Qed.

Lemma dev_index_new_false (es : list mount_entry) (dev : Z) :
  (dev_index es dev =? length es)%nat = false <->
  In dev (map me_dev es).
Proof.
  destruct (dev_index es dev =? length es)%nat eqn:E.
  - apply dev_index_new in E. split; [discriminate | contradiction].
  - split; [intros _ | reflexivity].
    destruct (in_dec Z.eq_dec dev (map me_dev es)) as [|Hn]; [assumption|].
    apply dev_index_new in Hn. congruence.
Qed.

(** What [cache_device] does to the cache, in terms of the device
    identity of the record. *)
Lemma cache_device_entries (flags : Z) (st : scan) (mnt : mntent)
  (devname buf : string) (qfmt : qarray) :
  mnt_entries (cache_device W flags st mnt devname buf qfmt) =
  match device_identity W mnt devname, sys_stat W (mnt_dir mnt) with
  | Some dev, SysOk sb =>
      if remote_distinct flags mnt
         || (dev_index (mnt_entries st) dev =? length (mnt_entries st))%nat
      then (mnt_entries st
            ++ [new_mount_entry mnt devname buf qfmt dev (st_ino sb)])%list
      else mnt_entries st
  | _, _ => mnt_entries st
  end.
Proof.
  unfold cache_device, device_identity, remote_distinct, cache_new_mount.
  destruct (nfs_fstype (mnt_type mnt)) eqn:N; simpl.
  - destruct (sys_stat W (mnt_dir mnt)) as [sb|e]; [|reflexivity].
    destruct (flag_set flags MS_NFS_ALL); simpl.
    + now rewrite Nat.eqb_refl.
    + now destruct (dev_index (mnt_entries st) (st_dev sb)
                    =? length (mnt_entries st))%nat.
  - destruct (sys_stat W devname) as [sb|e]; [|reflexivity].
    destruct (S_ISBLK (st_mode sb)); simpl.
    + destruct (dev_index (mnt_entries st) (st_rdev sb)
                =? length (mnt_entries st))%nat eqn:I;
        destruct (sys_stat W (mnt_dir mnt)); try reflexivity;
        try (now rewrite I).
    + destruct (S_ISCHR (st_mode sb)); simpl.
      * destruct (dev_index (mnt_entries st) (st_rdev sb)
                  =? length (mnt_entries st))%nat eqn:I;
          destruct (sys_stat W (mnt_dir mnt)); try reflexivity;
          try (now rewrite I).
      * now destruct (sys_stat W (mnt_dir mnt)).
Qed.

(** Examining a record does not touch the cache. *)
Lemma cache_examine_entries (flags : Z) (st : scan) (mnt : mntent) :
  match cache_examine W flags st mnt with
  | Skipped st' => mnt_entries st' = mnt_entries st
  | Candidate st' _ _ _ _ => mnt_entries st' = mnt_entries st
  end.
Proof.
  unfold cache_examine.
  repeat match goal with
         | |- match (if ?b then _ else _) with _ => _ end => destruct b
         | |- match (match ?x with _ => _ end) with _ => _ end =>
             destruct x
         end; reflexivity.
Qed.

(** What one record does to the cache. *)
Lemma cache_mnt_entry_entries (flags : Z) (st : scan) (mnt : mntent) :
  mnt_entries (cache_mnt_entry W flags st mnt) =
  match cache_examine W flags st mnt with
  | Skipped _ => mnt_entries st
  | Candidate _ mnt' devname buf qfmt =>
      match device_identity W mnt' devname, sys_stat W (mnt_dir mnt') with
      | Some dev, SysOk sb =>
          if remote_distinct flags mnt'
             || negb (existsb (fun e => me_dev e =? dev) (mnt_entries st))
          then (mnt_entries st
                ++ [new_mount_entry mnt' devname buf qfmt dev (st_ino sb)])
               %list
          else mnt_entries st
      | _, _ => mnt_entries st
      end
  end.
Proof.
  unfold cache_mnt_entry.
  pose proof (cache_examine_entries flags st mnt) as E.
  destruct (cache_examine W flags st mnt) as [st'|st' mnt' devname buf qfmt];
    [exact E|].
  rewrite cache_device_entries, E.
  destruct (device_identity W mnt' devname) as [dev|]; [|reflexivity].
  destruct (sys_stat W (mnt_dir mnt')) as [sb|]; [|reflexivity].
  replace (dev_index (mnt_entries st) dev =? length (mnt_entries st))%nat
    with (negb (existsb (fun e => me_dev e =? dev) (mnt_entries st)));
    [reflexivity|].
  destruct (dev_index (mnt_entries st) dev =? length (mnt_entries st))%nat
    eqn:I.
  - apply dev_index_new in I. apply negb_true_iff.
    destruct (existsb _ _) eqn:X; [|reflexivity].
    apply existsb_exists in X as [e [He Hd]]. apply Z.eqb_eq in Hd.
    exfalso; apply I. rewrite <- Hd. now apply in_map.
  - apply dev_index_new_false in I. apply negb_false_iff.
    apply in_map_iff in I as [e [Hd He]].
    apply existsb_exists. exists e. split; [assumption|].
    now apply Z.eqb_eq.
Qed.

Lemma existsb_dev (es : list mount_entry) (dev : Z) :
  existsb (fun e => me_dev e =? dev) es = true <-> In dev (map me_dev es).
Proof.
  rewrite existsb_exists, in_map_iff.
  split; intros [e [X Y]]; exists e.
  - apply Z.eqb_eq in Y. tauto.
  - rewrite Z.eqb_eq. tauto.
Qed.

(** One record leaves the cache as it is or appends one entry, of a
    device not yet cached unless the record is remote and never merged. *)
Lemma cache_mnt_entry_step (flags : Z) (st : scan) (mnt : mntent) :
  mnt_entries (cache_mnt_entry W flags st mnt) = mnt_entries st
  \/ exists e,
       mnt_entries (cache_mnt_entry W flags st mnt)
       = (mnt_entries st ++ [e])%list
       /\ ((nfs_fstype (me_type e) = true
            /\ flag_set flags MS_NFS_ALL = true)
           \/ ~ In (me_dev e) (map me_dev (mnt_entries st))).
Proof.
  rewrite cache_mnt_entry_entries.
  destruct (cache_examine W flags st mnt) as [|st' mnt' devname buf qfmt];
    [now left|].
  destruct (device_identity W mnt' devname) as [dev|]; [|now left].
  destruct (sys_stat W (mnt_dir mnt')) as [sb|]; [|now left].
  destruct (remote_distinct flags mnt') eqn:R; simpl.
  - right. eexists; split; [reflexivity|]. left.
    unfold remote_distinct in R. now apply andb_true_iff in R.
  - destruct (existsb _ _) eqn:X; simpl; [now left|].
    right. eexists; split; [reflexivity|]. right. simpl.
    intros Hin. apply existsb_dev in Hin. congruence.
Qed.

Lemma NoDup_snoc {A} (l : list A) (x : A) :
  NoDup l -> ~ In x l -> NoDup (l ++ [x]).
Proof.
  induction 1 as [|y l Hy Hl IH]; simpl; intros Hx.
  - constructor; [tauto | constructor].
  - constructor.
    + rewrite in_app_iff; simpl. intros [? | [? | []]]; [tauto|].
      subst; tauto.
    + apply IH; tauto.
Qed.

(** The cache after the records of [table], from the state [st]. *)
Lemma cache_mnt_records_app (flags : Z) (t1 t2 : list mntent) (st : scan) :
  cache_mnt_records W flags (t1 ++ t2) st
  = cache_mnt_records W flags t2 (cache_mnt_records W flags t1 st).
Proof. unfold cache_mnt_records. apply fold_left_app. Qed.

(** The cache only grows, at its end. *)
Lemma cache_mnt_records_grows (flags : Z) (table : list mntent)
  (st : scan) :
  exists added,
    mnt_entries (cache_mnt_records W flags table st)
    = (mnt_entries st ++ added)%list.
Proof.
  revert st; induction table as [|mnt table IH]; intros st; simpl.
  - exists []. now rewrite app_nil_r.
  - destruct (IH (cache_mnt_entry W flags st mnt)) as [added E].
    unfold cache_mnt_records in *; simpl. rewrite E.
    destruct (cache_mnt_entry_step flags st mnt) as [S | [e [S _]]];
      rewrite S.
    + eauto.
    + exists (e :: added). now rewrite <- app_assoc.
Qed.

Lemma one_per_device_step (flags : Z) (st : scan) (mnt : mntent) :
  one_per_device flags (mnt_entries st) ->
  one_per_device flags (mnt_entries (cache_mnt_entry W flags st mnt)).
Proof.
  intros [A1 A2].
  destruct (cache_mnt_entry_step flags st mnt) as [S | [e [S D]]];
    rewrite S; [now split|].
  split.
  - intros F. rewrite map_app. apply NoDup_snoc; [auto|].
    destruct D as [[_ F'] | D]; [congruence | exact D].
  - rewrite filter_app; simpl. unfold is_local at 2.
    destruct D as [[N _] | D].
    + rewrite N; simpl. now rewrite app_nil_r.
    + destruct (negb (nfs_fstype (me_type e)));
        [|now rewrite app_nil_r].
      rewrite map_app. apply NoDup_snoc; [assumption|].
      intros Hin. apply D.
      apply in_map_iff in Hin as [x [Hx Hf]].
      apply filter_In in Hf as [Hf _].
      apply in_map_iff. eauto.
Qed.

Lemma one_per_device_records (flags : Z) (table : list mntent)
  (st : scan) :
  one_per_device flags (mnt_entries st) ->
  one_per_device flags (mnt_entries (cache_mnt_records W flags table st)).
Proof.
  revert st; induction table as [|mnt table IH]; intros st Hst;
    [exact Hst|].
  apply IH, one_per_device_step, Hst.
Qed.

(** *** autofs *)









(** A record that reaches the device check keeps its type and directory,
    its mountpoint resolves, and one of its two classifications is not
    "no quota". *)
Lemma cache_examine_candidate (flags : Z) (st st' : scan) (mnt mnt' : mntent)
  (devname buf : string) (qfmt : qarray) :
  cache_examine W flags st mnt = Candidate st' mnt' devname buf qfmt ->
  mnt_type mnt' = mnt_type mnt
  /\ mnt_dir mnt' = mnt_dir mnt
  /\ sys_realpath W (mnt_dir mnt) = SysOk buf
  /\ qfmt = {| q_usr := hasquota W devname mnt' USRQUOTA flags;
               q_grp := hasquota W devname mnt' GRPQUOTA flags |}
  /\ (q_usr qfmt <? 0) && (q_grp qfmt <? 0) = false.
Proof.
  unfold cache_examine.
  repeat match goal with
         | |- context [hasmntoptarg ?a ?b] => destruct (hasmntoptarg a b)
         | |- (if ?b then _ else _) = _ -> _ => destruct b eqn:?
         | |- match ?x with _ => _ end = _ -> _ => destruct x eqn:?
         end;
    try discriminate;
    intros [= <- <- <- <- <-]; simpl; auto.
Qed.

Lemma cache_mnt_entry_added (flags : Z) (st : scan) (mnt : mntent) :
  mnt_entries (cache_mnt_entry W flags st mnt) = mnt_entries st
  \/ exists e,
       mnt_entries (cache_mnt_entry W flags st mnt)
       = (mnt_entries st ++ [e])%list
       /\ entry_of W mnt e.
Proof.
  rewrite cache_mnt_entry_entries.
  destruct (cache_examine W flags st mnt)
    as [|st' mnt' devname buf qfmt] eqn:X; [now left|].
  apply cache_examine_candidate in X as [Ht [Hd [Hr _]]].
  destruct (device_identity W mnt' devname) as [dev|]; [|now left].
  destruct (sys_stat W (mnt_dir mnt')) as [sb|]; [|now left].
  destruct (_ || _); [|now left].
  right. eexists; split; [reflexivity|]. split; simpl; assumption.
Qed.

Lemma cache_mnt_records_in_order (flags : Z) (table : list mntent)
  (st : scan) :
  exists added,
    mnt_entries (cache_mnt_records W flags table st)
    = (mnt_entries st ++ added)%list
    /\ cached_in_order W table added.
Proof.
  revert st; induction table as [|mnt table IH]; intros st.
  - exists []. split; [now rewrite app_nil_r | constructor].
  - destruct (IH (cache_mnt_entry W flags st mnt)) as [added [E O]].
    unfold cache_mnt_records in *; simpl. rewrite E.
    destruct (cache_mnt_entry_added flags st mnt) as [S | [e [S F]]];
      rewrite S.
    + exists added. split; [reflexivity | now constructor].
    + exists (e :: added). split; [now rewrite <- app_assoc|].
      now constructor.
Qed.


(** C1: the cache built by [cache_mnt_table] holds at most one entry per
    device identity: among all entries unless every remote mount is
    treated as distinct (MS_NFS_ALL), among the local entries in any
    case. The entries are made from records of the table, in table
    order; each record leaves the cache as it is or appends one entry, and
    what is cached stays in place. A record that
    reaches the device check with identity [dev] finds [dev] cached
    afterwards: it is dropped when [dev] is cached already (the
    first-seen entry is kept), appended otherwise; under MS_NFS_ALL a
    remote record is always appended. *)
Theorem cache_mnt_table_dedup (flags : Z) (table : list mntent) :
  open_mount_table W = Some table ->
  let cache := mnt_entries (snd (cache_mnt_table W flags)) in
  (flag_set flags MS_NFS_ALL = false -> NoDup (map me_dev cache))
  /\ NoDup (map me_dev (filter is_local cache))
  /\ cached_in_order W table cache
  /\ forall pre mnt post,
       table = (pre ++ mnt :: post)%list ->
       let before := cache_mnt_records W flags pre scan0 in
       let after := cache_mnt_entry W flags before mnt in
       (exists later, cache = (mnt_entries after ++ later)%list)
       /\ (forall st,
             cache_examine W flags before mnt = Skipped st ->
             mnt_entries after = mnt_entries before)
       /\ forall st mnt' devname buf qfmt dev sb,
            cache_examine W flags before mnt
            = Candidate st mnt' devname buf qfmt ->
            device_identity W mnt' devname = Some dev ->
            sys_stat W (mnt_dir mnt') = SysOk sb ->
            let entry :=
              new_mount_entry mnt' devname buf qfmt dev (st_ino sb) in
            In dev (map me_dev cache)
            /\ (remote_distinct flags mnt' = true ->
                mnt_entries after = (mnt_entries before ++ [entry])%list)
            /\ (remote_distinct flags mnt' = false ->
                In dev (map me_dev (mnt_entries before)) ->
                mnt_entries after = mnt_entries before)
            /\ (remote_distinct flags mnt' = false ->
                ~ In dev (map me_dev (mnt_entries before)) ->
                mnt_entries after = (mnt_entries before ++ [entry])%list).
Proof.
  intros Hopen. unfold cache_mnt_table. rewrite Hopen. cbn [snd]. cbv zeta.
  assert (I : one_per_device flags
                (mnt_entries (cache_mnt_records W flags table scan0))).
  { apply one_per_device_records. split; intros; constructor. }
  split; [apply I|]. split; [apply I|].
  split.
  { destruct (cache_mnt_records_in_order flags table scan0) as [added [E O]].
    rewrite E. exact O. }
  intros pre mnt post ->.
  set (before := cache_mnt_records W flags pre scan0).
  set (after := cache_mnt_entry W flags before mnt).
  assert (G : exists later,
             mnt_entries
               (cache_mnt_records W flags (pre ++ mnt :: post) scan0)
             = (mnt_entries after ++ later)%list).
  { rewrite cache_mnt_records_app. fold before.
    change (cache_mnt_records W flags (mnt :: post) before)
      with (cache_mnt_records W flags post after).
    apply cache_mnt_records_grows. }
  split; [exact G|].
  pose proof (cache_mnt_entry_entries flags before mnt) as S.
  fold after in S.
  split.
  - intros st Hs. now rewrite Hs in S.
  - intros st mnt' devname buf qfmt dev sb Hc Hd Hs.
    set (entry := new_mount_entry mnt' devname buf qfmt dev (st_ino sb)).
    rewrite Hc, Hd, Hs in S. fold entry in S.
    assert (X : In dev (map me_dev (mnt_entries after))).
    { rewrite S.
      destruct (remote_distinct flags mnt'
                || negb (existsb (fun e => me_dev e =? dev)
                           (mnt_entries before))) eqn:B.
      - rewrite map_app, in_app_iff. right. simpl. auto.
      - apply orb_false_iff in B as [_ B].
        apply negb_false_iff in B. now apply existsb_dev. }
    split.
    { destruct G as [later ->]. rewrite map_app, in_app_iff. auto. }
    split; [intros R; now rewrite R in S|].
    split; intros R Hin; rewrite R in S; simpl in S.
    + apply existsb_dev in Hin. now rewrite Hin in S.
    + destruct (existsb (fun e => me_dev e =? dev) (mnt_entries before))
        eqn:B; [|exact S].
      apply existsb_dev in B. contradiction.
Qed.

End CacheFacts.

(** ** Names and numbers of formats *)
Section FormatFacts.

Context {H : Headers} {H2 : MoreHeaders}.

(** Format names and numbers are converted back and forth without loss
    when QFMT_NAMES is the number of names in the table: [fmt2name] gives
    a name for a number exactly when [name2fmt] gives that number for the
    name, silently. *)
Theorem fmt2name_name2fmt (fmt : Z) (name : string) :
  QFMT_NAMES = 5%nat ->
  fmt2name fmt = Some name <-> name2fmt name = Some (fmt, []).
Proof.
  intros Q. unfold fmt2name, name2fmt, fmtnames. rewrite Q. split.
  - destruct (fmt <? 0) eqn:N; [discriminate|].
    apply Z.ltb_ge in N.
    rewrite <- (Z2Nat.id fmt N) at 2.
    destruct (Z.to_nat fmt) as [|[|[|[|[|n]]]]]; simpl;
      try (intros [= <-]; reflexivity).
    destruct n; discriminate.
  - cbn [name2fmt_loop]. unfold strcmp_eq.
    repeat match goal with
    | |- context [String.eqb name ?s] =>
        destruct (String.eqb_spec name s) as [->|_]
    end; intros [= <-]; reflexivity.
Qed.

(** When QFMT_NAMES is the number of names in the table, a name that is
    none of the five format names makes [name2fmt] return [QF_ERROR] after
    one diagnostic that quotes it; any other name is converted silently to
    a number from 0 to 4. The table is never read past its end. *)
Theorem name2fmt_unknown (str : string) :
  QFMT_NAMES = 5%nat ->
  (In str fmtnames ->
   exists fmt, name2fmt str = Some (fmt, []) /\ 0 <= fmt < 5)
  /\ (~ In str fmtnames ->
      exists fmtstr, name2fmt str = Some (QF_ERROR, [EvErrstr fmtstr [str]])).
Proof.
  intros Q. unfold name2fmt, fmtnames. rewrite Q. cbn [name2fmt_loop In].
  unfold strcmp_eq. split.
  - intros Hin.
    repeat match goal with
    | |- context [String.eqb str ?s] =>
        destruct (String.eqb_spec str s) as [->|?]
    end; try (eexists; split; [reflexivity | lia]).
    exfalso. intuition congruence.
  - intros Hn.
    repeat match goal with
    | |- context [String.eqb str ?s] =>
        destruct (String.eqb_spec str s) as [->|?]
    end; try (exfalso; apply Hn; tauto).
    eexists; reflexivity.
Qed.

(** The utility and the kernel numbers of the three VFS formats are
    converted back and forth without loss, as long as the labels of each
    [switch] are distinct. *)
Theorem util2kernfmt_kern2utilfmt :
  NoDup [QF_VFSOLD; QF_VFSV0; QF_VFSV1] ->
  NoDup [QFMT_VFS_OLD; QFMT_VFS_V0; QFMT_VFS_V1; QFMT_OCFS2] ->
  (forall fmt, In fmt [QF_VFSOLD; QF_VFSV0; QF_VFSV1] ->
               kern2utilfmt (util2kernfmt fmt) = fmt)
  /\ (forall kernfmt, In kernfmt [QFMT_VFS_OLD; QFMT_VFS_V0; QFMT_VFS_V1] ->
                      util2kernfmt (kern2utilfmt kernfmt) = kernfmt).
Proof.
  intros Hu Hk.
  assert (U : QF_VFSOLD <> QF_VFSV0 /\ QF_VFSOLD <> QF_VFSV1
              /\ QF_VFSV0 <> QF_VFSV1).
  { inversion Hu as [|? ? A1 Hu1]; inversion Hu1 as [|? ? A2 _]; subst.
    simpl in A1, A2. intuition congruence. }
  assert (K : QFMT_VFS_OLD <> QFMT_VFS_V0 /\ QFMT_VFS_OLD <> QFMT_VFS_V1
              /\ QFMT_VFS_V0 <> QFMT_VFS_V1).
  { inversion Hk as [|? ? A1 Hk1]; inversion Hk1 as [|? ? A2 _]; subst.
    simpl in A1, A2. intuition congruence. }
  destruct U as (U1 & U2 & U3), K as (K1 & K2 & K3).
  pose proof (proj2 (Z.eqb_neq _ _) U1) as U1'.
  pose proof (proj2 (Z.eqb_neq _ _) U2) as U2'.
  pose proof (proj2 (Z.eqb_neq _ _) U3) as U3'.
  pose proof (proj2 (Z.eqb_neq _ _) K1) as K1'.
  pose proof (proj2 (Z.eqb_neq _ _) K2) as K2'.
  pose proof (proj2 (Z.eqb_neq _ _) K3) as K3'.
  rewrite Z.eqb_sym in U1', U2', U3', K1', K2', K3'.
  unfold kern2utilfmt, util2kernfmt.
  split; intros x [<- | [<- | [<- | []]]];
    repeat (progress (rewrite ?Z.eqb_refl, ?U1', ?U2', ?U3', ?K1', ?K2', ?K3';
                      cbv iota));
    reflexivity.
Qed.

End FormatFacts.

(** ** Times and sizes in printable form *)
Section PrintableFacts.

Context {H2 : MoreHeaders}.





Lemma dec_head (z : Z) :
  exists c r, dec z = String c r /\ c <> "n"%char.
Proof.
  unfold dec. destruct (Z.to_int z) as [u|u]; simpl.
  - destruct u; simpl; eexists; eexists; (split; [reflexivity|]);
      discriminate.
  - eexists; eexists; split; [reflexivity | discriminate].
Qed.

Lemma dec02_head (z : Z) :
  exists c r, dec02 z = String c r /\ c <> "n"%char.
Proof.
  unfold dec02. destruct ((0 <=? z) && (z <? 10)).
  - eexists; eexists; split; [reflexivity | discriminate].
  - apply dec_head.
Qed.

Lemma snprintf_head (c : ascii) (r : string) :
  (2 <= MAXTIMELEN)%nat ->
  exists r', snprintf MAXTIMELEN (String c r) = String c r'.
Proof.
  intros Hm. unfold snprintf.
  destruct MAXTIMELEN as [|[|n]]; try lia. simpl. eauto.
Qed.

Lemma time2str_head (seconds flags : Z) :
  (2 <= MAXTIMELEN)%nat ->
  exists c r, time2str seconds flags = String c r /\ c <> "n"%char.
Proof.
  intros Hm. unfold time2str. cbv zeta.
  repeat match goal with
  | |- context [if ?b then _ else _] => destruct b
  end;
  match goal with
  | |- context [snprintf _ (dec ?z ++ ?s)] =>
      destruct (dec_head z) as (c & r & E & N); rewrite E
  | |- context [snprintf _ (dec02 ?z ++ ?s)] =>
      destruct (dec02_head z) as (c & r & E & N); rewrite E
  end;
  cbn [append];
  match goal with
  | |- context [snprintf _ (String ?c' ?s)] =>
      destruct (snprintf_head c' s Hm) as (r' & E'); rewrite E'
  end; eauto.
Qed.

(** The three outcomes of [difftime2str] are told apart by the text: the
    buffer is empty exactly for the time 0, and holds the word none
    exactly for another time that is not after the current time. *)
Theorem difftime2str_cases (now seconds : Z) :
  (2 <= MAXTIMELEN)%nat ->
  (difftime2str now seconds = "" <-> seconds = 0)
  /\ (difftime2str now seconds = "none"
      <-> seconds <> 0 /\ seconds <= now).
Proof.
  intros Hm. unfold difftime2str.
  destruct (Z.eqb_spec seconds 0) as [E|E].
  - split; split; try tauto; try discriminate.
  - destruct (Z.leb_spec seconds now) as [L|L].
    + split; split; try tauto; try discriminate; try lia.
    + destruct (time2str_head (seconds - now) TF_ROUND Hm)
        as (c & r & -> & N).
      split; split; try discriminate; try lia.
      intros [= -> _]. now elim N.
Qed.

End PrintableFacts.

Section NumberFacts.

Context {H2 : MoreHeaders}.



(** [str2space] succeeds exactly when the number is not [ULLONG_MAX], the
    unit is empty or one of K, M, G, T, and the number of blocks is at
    most [QSIZE_MAX]; it then stores the number multiplied by the unit,
    not wrapped around. When it fails it returns a message and stores
    nothing. *)
Theorem str2space_sound (number : Z) (unit : string) :
  0 <= number < 18446744073709551616 ->
  0 <= QSIZE_MAX < 18446744073709551616 ->
  let units := [("", 0); ("K", 0); ("M", 10); ("G", 20); ("T", 30)] in
  match str2space number unit with
  | (None, Some space) =>
      number <> ULLONG_MAX
      /\ exists shift, In (unit, shift) units
                       /\ space = number * 2 ^ shift
                       /\ space <= QSIZE_MAX
  | (Some msg, None) =>
      number = ULLONG_MAX
      \/ ~ In unit (map fst units)
      \/ exists shift, In (unit, shift) units
                       /\ QSIZE_MAX < number * 2 ^ shift
  | _ => False
  end.
Proof.
  intros Hn Hq units. unfold str2space.
  destruct (Z.eqb_spec ULLONG_MAX number) as [E|E]; [now left|].
  assert (K : forall shift, 0 <= shift ->
    if Z.shiftr QSIZE_MAX shift <? number
    then QSIZE_MAX < number * 2 ^ shift
    else u64 (Z.shiftl number shift) = number * 2 ^ shift
         /\ number * 2 ^ shift <= QSIZE_MAX).
  { intros shift Hs. rewrite Z.shiftr_div_pow2, Z.shiftl_mul_pow2 by lia.
    assert (P : 0 < 2 ^ shift) by (apply Z.pow_pos_nonneg; lia).
    destruct (Z.ltb_spec (QSIZE_MAX / 2 ^ shift) number) as [L|L].
    - destruct (Z.lt_ge_cases QSIZE_MAX (number * 2 ^ shift)) as [G|G];
        [exact G|].
      assert (number <= QSIZE_MAX / 2 ^ shift); [|lia].
      apply Z.div_le_lower_bound; lia.
    - pose proof (Z.mul_div_le QSIZE_MAX (2 ^ shift) P) as M.
      assert (number * 2 ^ shift <= QSIZE_MAX) by nia.
      split; [|assumption]. unfold u64. apply Z.mod_small. nia. }
  unfold strcmp_eq.
  destruct (String.eqb_spec unit "") as [->|N0];
    [|destruct (String.eqb_spec unit "K") as [->|N1];
      [|destruct (String.eqb_spec unit "M") as [->|N2];
        [|destruct (String.eqb_spec unit "G") as [->|N3];
          [|destruct (String.eqb_spec unit "T") as [->|N4]]]]];
    cbn [orb].
  6: { right; left. simpl. intuition congruence. }
  all: match goal with
       | |- context [Z.shiftr QSIZE_MAX ?k] =>
           pose proof (K k ltac:(lia)) as K';
           destruct (Z.shiftr QSIZE_MAX k <? number)
       end.
  all: try (right; right; eexists; split; [|exact K']; simpl; tauto).
  all: destruct K' as [-> K']; split; [congruence|];
       eexists; split; [|split; [reflexivity | exact K']]; simpl; tauto.
Qed.

End NumberFacts.

(** ** Logging *)
Section LogFacts.

Local Open Scope nat_scope.

Lemma newline_terminated_step (s : string) :
  s <> "" ->
  newline_terminated s
  = (str_take (span_until is_newline s) s ++ String newline ""
     ++ newline_terminated (str_drop (S (span_until is_newline s)) s))%string.
Proof.
  induction s as [|c r IH]; [congruence|]. intros _.
  cbn [newline_terminated span_until].
  destruct (is_newline c) eqn:E.
  - apply Ascii.eqb_eq in E. subst c. destruct r; reflexivity.
  - destruct r as [|c' r']; [reflexivity|].
    cbn [str_take str_drop append]. f_equal.
    rewrite IH by discriminate. reflexivity.
Qed.

Lemma span_no_stop (stop : ascii -> bool) (s : string) (c : ascii) :
  stop c = true -> strchr (str_take (span_until stop s) s) c = None.
Proof.
  intros Hc. induction s as [|x r IH]; simpl; [reflexivity|].
  destruct (stop x) eqn:E; simpl; [reflexivity|].
  destruct (Ascii.eqb_spec x c) as [->|_]; [congruence|].
  now rewrite IH.
Qed.

Lemma do_syslog_loop_lines (level : Z) (buf : string) (fuel i : nat) :
  String.length (str_drop i buf) <= fuel ->
  exists lines,
    do_syslog_loop fuel level buf i = map (OutSyslog level) lines
    /\ Forall (fun l => strchr l newline = None) lines
    /\ String.concat "" (map (fun l => (l ++ String newline "")%string) lines)
       = newline_terminated (str_drop i buf).
Proof.
  revert i. induction fuel as [|fuel IH]; intros i Hf.
  - exists []. destruct (str_drop i buf); [|simpl in Hf; lia].
    repeat split; constructor.
  - cbn [do_syslog_loop]. rewrite char_at_drop.
    destruct (str_drop i buf) as [|c r] eqn:S0.
    { exists []. repeat split; constructor. }
    cbn [is_nul]. cbv zeta.
    set (s := String c r) in *.
    set (k := span_until is_newline s).
    replace (i + k - i) with k by lia.
    assert (D : str_drop (i + k) buf = str_drop k s)
      by (rewrite str_drop_add; now rewrite S0).
    assert (D1 : str_drop (S (i + k)) buf = str_drop (S k) s).
    { replace (S (i + k)) with (i + S k) by lia.
      rewrite str_drop_add. now rewrite S0. }
    pose proof (span_stop is_newline s) as St. fold k in St.
    pose proof (str_drop_length k s) as Lk.
    pose proof (str_drop_length (S k) s) as Lk1.
    assert (Ls : String.length s = S (String.length r)) by reflexivity.
    rewrite char_at_drop, D.
    assert (J : exists j,
      (if is_char newline
            match str_drop k s with
            | EmptyString => None
            | String c0 _ => Some c0
            end
       then S (i + k) else i + k) = j
      /\ str_drop j buf = str_drop (S k) s).
    { destruct (str_drop k s) as [|c0 r0] eqn:R.
      - exists (i + k). split; [reflexivity|]. rewrite D.
        replace (S k) with (k + 1) by lia.
        now rewrite str_drop_add, R.
      - unfold is_newline in St. cbn [is_char]. rewrite St.
        exists (S (i + k)). split; [reflexivity | exact D1]. }
    destruct J as (j & -> & Dj).
    destruct (IH j) as (lines & E & F & C).
    { rewrite Dj. simpl in Hf. lia. }
    exists (str_take k s :: lines). split; [|split].
    + cbn [map]. now rewrite E.
    + constructor; [|exact F]. apply span_no_stop.
      unfold is_newline. apply Ascii.eqb_refl.
    + rewrite (newline_terminated_step s) by discriminate. fold k.
      rewrite <- Dj, <- C. cbn [map].
      destruct lines as [|l ls]; cbn [map String.concat].
      * reflexivity.
      * rewrite str_app_assoc. reflexivity.
Qed.

(** [do_syslog] logs the message line by line: no line logged holds a
    newline, and the lines logged, each followed by a newline, spell the
    first 1023 characters of the message, with a newline supplied at the
    end if it is missing there. An empty message logs nothing. *)
Theorem do_syslog_lines (level : Z) (formatted : string) :
  exists lines,
    do_syslog level formatted = map (OutSyslog level) lines
    /\ Forall (fun l => strchr l newline = None) lines
    /\ String.concat "" (map (fun l => (l ++ String newline "")%string) lines)
       = newline_terminated (snprintf 1024 formatted).
Proof.
  unfold do_syslog.
  destruct (do_syslog_loop_lines level (snprintf 1024 formatted)
              (String.length (snprintf 1024 formatted)) 0)
    as (lines & E & F & C); [simpl; lia|].
  exists lines. auto.
Qed.

End LogFacts.

(** ** Option arguments *)
Section ArgumentFacts.

Local Open Scope nat_scope.

Lemma str_drop_nil (p : nat) (s : string) :
  str_drop p s = "" <-> String.length s <= p.
Proof.
  revert s; induction p as [|p IH]; intros [|c r]; simpl;
    try (split; [lia | reflexivity]).
  - split; [discriminate | lia].
  - rewrite IH. lia.
Qed.

(** The pointer [hasmntoptarg] returns stands right after the '=' of the
    option [str_hasmntopt] finds, within the option string, and not on a
    ','. The argument it points at is empty in one case only: the option
    string ends with the '='. *)
Theorem hasmntoptarg_argument (optstring opt : string) (p : nat) :
  hasmntoptarg optstring opt = Some p ->
  (exists q, str_hasmntopt optstring opt = Some q
             /\ p = q + String.length opt + 1)
  /\ char_at optstring (p - 1) = Some "="%char
  /\ p <= String.length optstring
  /\ char_at optstring p <> Some ","%char
  /\ (arg_at (str_drop p optstring) = "" <-> p = String.length optstring).
Proof.
  unfold hasmntoptarg.
  destruct (str_hasmntopt optstring opt) as [q|]; [|discriminate].
  unfold strlen.
  destruct (is_char "=" (char_at optstring (q + String.length opt))) eqn:E;
    [|discriminate].
  destruct (is_char "," (char_at optstring (S (q + String.length opt))))
    eqn:C; [discriminate|].
  intros [= <-].
  assert (A : char_at optstring (q + String.length opt) = Some "="%char).
  { destruct (char_at optstring (q + String.length opt)) as [c|];
      [|discriminate].
    simpl in E. apply Ascii.eqb_eq in E. now subst c. }
  assert (B : q + String.length opt < String.length optstring).
  { apply char_at_in_range. now rewrite A. }
  assert (N : char_at optstring (S (q + String.length opt))
              <> Some ","%char).
  { intros X. rewrite X in C. discriminate. }
  split; [exists q; split; [reflexivity | lia]|].
  split; [cbn [Nat.sub]; now rewrite Nat.sub_0_r|].
  split; [lia|]. split; [exact N|].
  rewrite char_at_drop in N. unfold arg_at.
  destruct (str_drop (S (q + String.length opt)) optstring) as [|c r] eqn:D.
  - split; [intros _ | reflexivity].
    apply str_drop_nil in D. lia.
  - split.
    + simpl. destruct (is_comma c) eqn:Ic; [|discriminate].
      apply Ascii.eqb_eq in Ic. subst c. now elim N.
    + intros L. assert (X : str_drop (S (q + String.length opt)) optstring = "")
        by (apply str_drop_nil; lia).
      congruence.
Qed.

Lemma str_take_take (a b : nat) (s : string) :
  str_take a (str_take b s) = str_take (Nat.min a b) s.
Proof.
  revert b s; induction a as [|a IH]; intros [|b] [|c r]; simpl;
    try reflexivity.
  now rewrite IH.
Qed.

Lemma take_no_stop (stop : ascii -> bool) (s : string) (c : ascii)
  (k : nat) :
  stop c = true -> k <= span_until stop s ->
  strchr (str_take k s) c = None.
Proof.
  intros Hc. revert k; induction s as [|x r IH]; intros [|k]; simpl;
    try reflexivity.
  destruct (stop x) eqn:E; [lia|]. intros Hk. simpl.
  destruct (Ascii.eqb_spec x c) as [->|_]; [congruence|].
  rewrite IH by lia. reflexivity.
Qed.

(** [copy_mntoptarg] leaves in a buffer of [buflen] bytes the argument up
    to the next ',', cut to [buflen - 1] characters: the copy fits the
    buffer and holds no ','. *)
Theorem copy_mntoptarg_truncates (optarg : string) (buflen : nat) :
  0 < buflen ->
  copy_mntoptarg optarg buflen = str_take (buflen - 1) (arg_at optarg)
  /\ String.length (copy_mntoptarg optarg buflen) < buflen
  /\ strchr (copy_mntoptarg optarg buflen) "," = None.
Proof.
  intros Hb.
  assert (E : copy_mntoptarg optarg buflen
              = str_take (Nat.min (buflen - 1) (span_until is_comma optarg))
                  optarg).
  { unfold copy_mntoptarg, sstrncpy, strlen.
    pose proof (strchr_comma optarg) as Hs.
    destruct (strchr optarg ",") as [sep|].
    - subst sep. f_equal. lia.
    - rewrite Hs. f_equal. lia. }
  rewrite E. unfold arg_at. rewrite str_take_take.
  split; [reflexivity|]. split.
  - rewrite str_take_length. lia.
  - apply (take_no_stop is_comma); [reflexivity | lia].
Qed.

End ArgumentFacts.

(** ** More on the kernel interface *)
Section KernelFacts.

Context {H : Headers}.
Variable W : World.


Lemma probe_xfs_calls (k : kstate) :
  exists calls,
    ktrace (probe_xfs W k)
    = (ktrace k ++ EvStat "/proc/fs/xfs/stat" :: calls)%list
    /\ Forall is_probe_call calls.
Proof.
  unfold probe_xfs.
  destruct (sys_stat W "/proc/fs/xfs/stat").
  - exists []. split; [reflexivity | constructor].
  - exists [EvQuotactl Q_XGETQSTAT 0 (Some "/dev/root") 0].
    destruct (sys_quotactl W Q_XGETQSTAT 0 (Some "/dev/root") 0) as [|e];
      [|destruct (negb (e =? EINVAL) && negb (e =? ENOSYS))];
      simpl; rewrite <- app_assoc;
      (split; [reflexivity|]; repeat constructor).
Qed.

Lemma probe_kernel_interface_calls (k : kstate) :
  exists xfs_calls more,
    ktrace (probe_kernel_interface W k)
    = (ktrace k ++ EvStat "/proc/fs/xfs/stat" :: xfs_calls
         ++ EvStat "/proc/sys/fs/quota" :: more)%list
    /\ Forall is_probe_call xfs_calls
    /\ Forall is_probe_call more.
Proof.
  unfold probe_kernel_interface.
  destruct (probe_xfs_calls (kreset_qfmt k)) as (c1 & E1 & F1).
  simpl in E1. exists c1.
  destruct (generic_assumed W).
  - exists []. simpl. rewrite E1.
    repeat (rewrite <- app_assoc; simpl). repeat split; auto.
  - destruct (sys_quotactl W Q_V2_GETSTATS 0 None 0) as [|e].
    + exists [EvQuotactl Q_V2_GETSTATS 0 None 0].
      simpl. rewrite E1. repeat (rewrite <- app_assoc; simpl).
      repeat split; auto. repeat constructor.
    + destruct (negb (e =? ENOSYS) && negb (e =? ENOTSUP)).
      * exists [EvQuotactl Q_V2_GETSTATS 0 None 0;
                EvQuotactl Q_V1_GETSTATS 0 None 0;
                EvQuotactl Q_V1_GETQUOTA 0 (Some "/dev/null") 0].
        rewrite probe_legacy_state. simpl. rewrite E1.
        repeat (rewrite <- app_assoc; simpl).
        repeat split; auto. repeat constructor.
      * exists [EvQuotactl Q_V2_GETSTATS 0 None 0].
        simpl. rewrite E1. repeat (rewrite <- app_assoc; simpl).
        repeat split; auto. repeat constructor.
Qed.

(** [init_kernel_interface] probes under the SIGSEGV handler or not at
    all. When the signal set cannot be made the process dies with status
    2 and the globals are as they were. When the handler cannot be
    installed the process dies with status 2 after that one call:
    nothing is probed and [kernel_iface] and [kernel_qfmt] are as they
    were. Otherwise the probe runs: its calls, all of them [stat] and
    [quotactl] calls, the two [stat] calls among them, are issued after
    the handler was installed and before its restoration is asked for;
    the process then dies with status 2 if the restoration fails and
    returns if not. *)
Theorem init_kernel_interface_bracket (k : kstate) :
  let r := init_kernel_interface W k in
  (sys_sigemptyset W < 0 -> exists msg, r = Dies 2 msg k)
  /\ (0 <= sys_sigemptyset W -> sys_sigaction W false < 0 ->
      exists msg, r = Dies 2 msg (klog (EvSigaction false) k))
  /\ (0 <= sys_sigemptyset W -> 0 <= sys_sigaction W false ->
      exists calls,
        Forall is_probe_call calls
        /\ In (EvStat "/proc/fs/xfs/stat") calls
        /\ In (EvStat "/proc/sys/fs/quota") calls
        /\ ktrace (exit_state r)
           = (ktrace k ++ EvSigaction false :: calls
                ++ [EvSigaction true])%list
        /\ (sys_sigaction W true < 0 ->
            exists msg, r = Dies 2 msg (exit_state r))
        /\ (0 <= sys_sigaction W true -> r = Returns (exit_state r))).
Proof.
  unfold init_kernel_interface. cbv zeta.
  destruct (Z.ltb_spec (sys_sigemptyset W) 0) as [S0|S0].
  { split; [eauto|]. split; intros; lia. }
  split; [intros; lia|].
  destruct (Z.ltb_spec (sys_sigaction W false) 0) as [S1|S1].
  { split; [eauto|]. intros; lia. }
  split; [intros; lia|]. intros _ _.
  destruct (probe_kernel_interface_calls (klog (EvSigaction false) k))
    as (c1 & more & E & F1 & F2).
  exists (EvStat "/proc/fs/xfs/stat" :: c1
          ++ EvStat "/proc/sys/fs/quota" :: more)%list.
  split.
  { constructor; [exact I|]. apply Forall_app. split; [exact F1|].
    constructor; [exact I | exact F2]. }
  split; [now left|].
  split; [right; apply in_app_iff; right; now left|].
  destruct (Z.ltb_spec (sys_sigaction W true) 0) as [S2|S2]; simpl;
    rewrite E; simpl; repeat (rewrite <- app_assoc; simpl);
    (split; [reflexivity|]); split; intros; try lia; eauto.
Qed.

Lemma probe_kernel_interface_qfmt (k : kstate) :
  let q := kernel_qfmt (probe_kernel_interface W k) in
  exists xfs rest,
    q = (xfs ++ rest)%list
    /\ (xfs = [] \/ xfs = [QF_XFS])
    /\ (rest = [] \/ rest = [QF_META; QF_VFSOLD; QF_VFSV0; QF_VFSV1]
        \/ rest = [QF_VFSV0] \/ rest = [QF_VFSOLD]).
Proof.
  unfold probe_kernel_interface. cbv zeta.
  pose proof (probe_xfs_qfmt W (kreset_qfmt k)) as X. simpl in X.
  exists (kernel_qfmt (probe_xfs W (kreset_qfmt k))).
  destruct (generic_assumed W);
    [|destruct (sys_quotactl W Q_V2_GETSTATS 0 None 0) as [|e];
      [|destruct (negb (e =? ENOSYS) && negb (e =? ENOTSUP));
        [rewrite probe_legacy_state; cbv zeta;
         destruct ((err_stat W =? 0) && (err_quota W =? EINVAL))|]]];
    simpl; rewrite <- ?app_assoc; simpl;
    eexists;
    (split; [first [reflexivity | symmetry; apply app_nil_r]|]);
    (split; [exact X | tauto]).
Qed.

(** Once the handler is installed, the probe forgets the formats recorded
    before and records at most five: XFS, the meta format and the three
    VFS formats, and none of them twice if their numbers differ. A format
    that is none of these, such as QF_RPC, is then never reported as
    supported by the kernel. *)
Theorem init_kernel_interface_formats (k : kstate) :
  0 <= sys_sigemptyset W ->
  0 <= sys_sigaction W false ->
  let k' := exit_state (init_kernel_interface W k) in
  let known := [QF_XFS; QF_META; QF_VFSOLD; QF_VFSV0; QF_VFSV1] in
  incl (kernel_qfmt k') known
  /\ (length (kernel_qfmt k') <= 5)%nat
  /\ (NoDup known -> NoDup (kernel_qfmt k'))
  /\ forall fmt, ~ In fmt known -> fmt <> -1 ->
                 kern_qfmt_supp k' fmt = false.
Proof.
  intros S1 S2 k' known.
  pose proof (init_kernel_interface_state W k S1 S2) as E. fold k' in E.
  destruct (probe_kernel_interface_qfmt (klog (EvSigaction false) k))
    as (xfs & rest & Q & X & R).
  assert (Q' : kernel_qfmt k' = (xfs ++ rest)%list) by (rewrite E; exact Q).
  clearbody k'. clear E Q.
  assert (I : incl (kernel_qfmt k') known).
  { rewrite Q'. intros x Hx. apply in_app_iff in Hx. unfold known.
    destruct X as [-> | ->], R as [-> | [-> | [-> | ->]]];
      simpl in Hx |- *; tauto. }
  split; [exact I|]. split; [|split].
  - rewrite Q'.
    destruct X as [-> | ->], R as [-> | [-> | [-> | ->]]]; simpl; lia.
  - intros N. rewrite Q'.
    inversion N as [|? ? N1 N']; inversion N' as [|? ? N2 N'']; subst.
    inversion N'' as [|? ? N3 N''']; inversion N''' as [|? ? N4 _]; subst.
    simpl in N1, N2, N3, N4.
    destruct X as [-> | ->], R as [-> | [-> | [-> | ->]]]; simpl;
      repeat constructor; simpl; tauto.
  - intros fmt Hf Hn. unfold kern_qfmt_supp.
    destruct (Z.eqb_spec fmt (-1)) as [?|_]; [contradiction|].
    destruct (existsb (fun f => fmt =? f) (kernel_qfmt k')) eqn:B;
      [|reflexivity].
    apply existsb_exists in B as (f & Hin & Hfe).
    apply Z.eqb_eq in Hfe. subst f. elim Hf. now apply I.
Qed.

(** When nothing tells the kernel interface, that is when
    /proc/sys/fs/quota does not exist and the version-2 statistics call is
    not implemented or not supported, [kernel_iface] keeps the value it
    had and no VFS format is recorded: the kernel supports XFS quota at
    most. The version-2 statistics call is the last call of the probe:
    the version-1 calls are not tried. *)
Theorem init_kernel_interface_none (k : kstate) (errno : Z) :
  0 <= sys_sigemptyset W ->
  0 <= sys_sigaction W false ->
  sys_stat W "/proc/sys/fs/quota" = SysErr ENOENT ->
  sys_quotactl W Q_V2_GETSTATS 0 None 0 = SysErr errno ->
  errno = ENOSYS \/ errno = ENOTSUP ->
  let k' := exit_state (init_kernel_interface W k) in
  kernel_iface k' = kernel_iface k
  /\ (kernel_qfmt k' = [] \/ kernel_qfmt k' = [QF_XFS])
  /\ exists xfs_calls,
       ktrace k'
       = (ktrace k ++ EvSigaction false :: xfs_calls
            ++ [EvStat "/proc/sys/fs/quota";
                EvQuotactl Q_V2_GETSTATS 0 None 0;
                EvSigaction true])%list
       /\ (xfs_calls = [EvStat "/proc/fs/xfs/stat"]
           \/ xfs_calls = [EvStat "/proc/fs/xfs/stat";
                           EvQuotactl Q_XGETQSTAT 0 (Some "/dev/root") 0]).
Proof.
  intros S1 S2 P V Herr k'.
  pose proof (init_kernel_interface_state W k S1 S2) as E. fold k' in E.
  assert (G : generic_assumed W = false).
  { unfold generic_assumed. rewrite P. now rewrite Z.eqb_refl. }
  assert (C : negb (errno =? ENOSYS) && negb (errno =? ENOTSUP) = false).
  { destruct Herr as [-> | ->]; reflexivity. }
  unfold probe_kernel_interface in E. rewrite G, V, C in E.
  rewrite E. simpl. rewrite probe_xfs_iface. simpl.
  split; [reflexivity|]. split.
  - destruct (probe_xfs_qfmt W (kreset_qfmt (klog (EvSigaction false) k)))
      as [X | X]; rewrite X; simpl; auto.
  - unfold probe_xfs.
    destruct (sys_stat W "/proc/fs/xfs/stat").
    + exists [EvStat "/proc/fs/xfs/stat"].
      simpl. rewrite <- !app_assoc. auto.
    + exists [EvStat "/proc/fs/xfs/stat";
              EvQuotactl Q_XGETQSTAT 0 (Some "/dev/root") 0].
      destruct (sys_quotactl W Q_XGETQSTAT 0 (Some "/dev/root") 0) as [|e];
        [|destruct (negb (e =? EINVAL) && negb (e =? ENOSYS))];
        simpl; rewrite <- !app_assoc; auto.
Qed.

End KernelFacts.

(** ** More on the active format *)
Section ActiveFormatFacts.

Context {H : Headers}.
Variable W : World.

(** [kern_quota_on] answers -1 or one of the five formats the kernel can
    run: XFS, the meta format and the three VFS formats. It answers
    QF_XFS for a mount classified as XFS only, and a format for a mount
    with a classified format only. *)
Theorem kern_quota_on_range (iface : Z) (mnt : mount_entry) (type : qtype)
  (fmt : Z) :
  let r := kern_quota_on W iface mnt type fmt in
  (r = -1 \/ In r [QF_XFS; QF_META; QF_VFSOLD; QF_VFSV0; QF_VFSV1])
  /\ (r <> -1 -> 0 <= qget (me_qfmt mnt) type)
  /\ (qget (me_qfmt mnt) type = QF_XFS -> r = -1 \/ r = QF_XFS).
Proof.
  unfold kern_quota_on. cbv zeta.
  destruct (Z.ltb_spec (qget (me_qfmt mnt) type) 0) as [N|N];
    [repeat split; auto; congruence|].
  split; [|split; [auto|]].
  - repeat match goal with
    | |- context [if ?b then _ else _] => destruct b
    | |- context [match ?x with SysOk _ => _ | SysErr _ => _ end] =>
        destruct x
    end; simpl; auto 10.
    unfold kern2utilfmt.
    repeat match goal with
    | |- context [if ?b then _ else _] => destruct b
    end; simpl; auto 10.
  - intros ->. rewrite Z.eqb_refl.
    destruct (fmt =? QF_RPC); [auto|].
    destruct (_ && _); auto.
Qed.

(** Under the old interfaces [kern_quota_on] honours the format asked
    for: its answer is that format, the meta format or -1. Under the
    generic interface the format asked for plays no part for a mount that
    is not classified as XFS: two formats other than QF_RPC and QF_XFS get
    the same answer. *)
Theorem kern_quota_on_requested (iface : Z) (mnt : mount_entry)
  (type : qtype) :
  (forall fmt,
     iface <> IFACE_GENERIC -> fmt <> -1 ->
     let r := kern_quota_on W iface mnt type fmt in
     r = -1 \/ r = fmt \/ r = QF_META)
  /\ (forall fmt fmt',
        iface = IFACE_GENERIC ->
        qget (me_qfmt mnt) type <> QF_XFS ->
        ~ In fmt [QF_RPC; QF_XFS] -> ~ In fmt' [QF_RPC; QF_XFS] ->
        kern_quota_on W iface mnt type fmt
        = kern_quota_on W iface mnt type fmt').
Proof.
  split.
  - intros fmt Hi Hf. unfold kern_quota_on. cbv zeta.
    destruct (Z.eqb_spec iface IFACE_GENERIC) as [?|_]; [contradiction|].
    destruct (Z.eqb_spec fmt (-1)) as [?|_]; [contradiction|].
    cbn [orb].
    destruct (qget (me_qfmt mnt) type <? 0); [auto|].
    destruct (fmt =? QF_RPC); [auto|].
    destruct (qget (me_qfmt mnt) type =? QF_XFS).
    { destruct (Z.eqb_spec fmt QF_XFS) as [->|_]; simpl; [|auto].
      destruct (xfs_kern_quota_on W (me_devname mnt) type); auto. }
    destruct (fmt =? QF_XFS); [auto|].
    destruct (qget (me_qfmt mnt) type =? QF_META); [auto|].
    destruct (Z.eqb_spec fmt QF_VFSV0) as [->|_]; simpl.
    { destruct (v2_kern_quota_on W (me_devname mnt) type); [auto|].
      destruct (Z.eqb_spec QF_VFSV0 QF_VFSOLD) as [E|_]; simpl; [|auto].
      destruct (v1_kern_quota_on W (me_devname mnt) type); auto. }
    destruct (Z.eqb_spec fmt QF_VFSOLD) as [->|_]; simpl; [|auto].
    destruct (v1_kern_quota_on W (me_devname mnt) type); auto.
  - intros fmt fmt' -> Hx Hf Hf'. simpl in Hf, Hf'.
    unfold kern_quota_on. rewrite Z.eqb_refl.
    destruct (Z.eqb_spec (qget (me_qfmt mnt) type) QF_XFS) as [?|_];
      [contradiction|].
    destruct (Z.eqb_spec fmt QF_RPC) as [?|_]; [intuition congruence|].
    destruct (Z.eqb_spec fmt' QF_RPC) as [?|_]; [intuition congruence|].
    destruct (Z.eqb_spec fmt QF_XFS) as [?|_]; [intuition congruence|].
    destruct (Z.eqb_spec fmt' QF_XFS) as [?|_]; [intuition congruence|].
    reflexivity.
Qed.

End ActiveFormatFacts.

(** ** More on the classifier and the quota file name *)
Section ResolverFacts.

Context {H : Headers}.
Variable W : World.


(** When only the format is to be checked, a quota file that does not
    exist, or that the caller may not open, passes: [get_qf_name] returns
    its name silently. *)
Theorem get_qf_name_unopened (mnt : mount_entry) (type : qtype)
  (fmt flags errno : Z) (name : string) :
  qf_fullname mnt type fmt = QfName name ->
  flag_set flags NF_EXIST = false ->
  sys_open_rdonly W name = SysErr errno ->
  errno = ENOENT \/ errno = EPERM ->
  get_qf_name W mnt type fmt flags = QfReturn 0 (Some name) [].
Proof.
  intros E X O Herr. unfold get_qf_name, check_fmtfile_ok.
  rewrite E, X, O.
  destruct (flags =? 0); [reflexivity|].
  destruct (flag_set flags NF_FORMAT); [|reflexivity].
  destruct Herr as [-> | ->]; reflexivity.
Qed.

(** The classifier answers -1, QF_ERROR or one of QF_XFS, QF_META, QF_RPC
    and QF_VFSUNKNOWN: it never decides which of the VFS formats a mount
    uses. *)
Theorem hasquota_range (dev : string) (mnt : mntent) (type : qtype)
  (flags : Z) :
  In (hasquota W dev mnt type flags)
     [-1; QF_ERROR; QF_XFS; QF_META; QF_RPC; QF_VFSUNKNOWN].
Proof.
  unfold hasquota, hasxfsquota, hasvfsmetaquota.
  repeat match goal with
  | |- context [if ?b then _ else _] => destruct b
  | |- context [match ?x with SysOk _ => _ | SysErr _ => _ end] =>
      destruct x
  end; simpl; auto 10.
Qed.

(** A mount that the classifier leaves to the VFS formats has a quota
    option that the resolver finds: [get_qf_name] does not fail for want
    of an option. Of the library's [hasmntopt] only this is assumed: when
    it finds one of the three names that [hasquota] asks it for
    (usrquota, grpquota, quota) among the options of this mount,
    [str_hasmntopt] finds that name there too. *)
Theorem hasquota_then_qf_fullname (dev : string) (mnt : mntent)
  (e : mount_entry) (type : qtype) (flags fmt : Z) :
  (forall opt, In opt [MNTOPT_USRQUOTA; MNTOPT_GRPQUOTA; MNTOPT_QUOTA] ->
     libc_hasmntopt W mnt opt = true ->
     str_hasmntopt (mnt_opts mnt) opt <> None) ->
  me_opts e = mnt_opts mnt ->
  ~ In QF_VFSUNKNOWN [-1; QF_ERROR; QF_XFS; QF_META; QF_RPC] ->
  hasquota W dev mnt type flags = QF_VFSUNKNOWN ->
  qf_fullname e type fmt <> NoQuotaOption.
Proof.
  intros Hlibc Ho Hd. simpl in Hd.
  unfold hasquota, hasxfsquota, hasvfsmetaquota.
  repeat match goal with
  | |- (if ?b then _ else _) = _ -> _ => destruct b eqn:?
  | |- match ?x with SysOk _ => _ | SysErr _ => _ end = _ -> _ =>
      destruct x
  end; try (intros E; exfalso; intuition congruence); intros _.
  all: unfold qf_fullname; rewrite Ho; cbv zeta.
  all: repeat match goal with
       | X : _ && _ = true |- _ => apply andb_true_iff in X as [? ?]
       | X : _ || _ = true |- _ => apply orb_true_iff in X as [? | ?]
       end.
  all: destruct type; try discriminate.
  all: repeat match goal with
       | X : libc_hasmntopt _ _ ?o = true |- _ =>
           apply Hlibc in X; [|simpl; tauto]
       | X : nonnull ?o = true |- _ =>
           destruct o eqn:?; [clear X | discriminate X]
       end.
  all: repeat match goal with
       | |- context [match str_hasmntopt ?a ?b with _ => _ end] =>
           destruct (str_hasmntopt a b) eqn:?
       | |- context [match hasmntoptarg ?a ?b with _ => _ end] =>
           destruct (hasmntoptarg a b) eqn:?
       | |- context [match me_dir ?m with _ => _ end] => destruct (me_dir m)
       | |- context [if ?b then _ else _] => destruct b
       end; try discriminate; try congruence.
  all: unfold default_qfname;
       repeat match goal with
       | |- context [match me_dir ?m with _ => _ end] => destruct (me_dir m)
       | |- context [match nth_error ?a ?b with _ => _ end] =>
           destruct (nth_error a b)
       | |- context [if ?b then _ else _] => destruct b
       end; discriminate.
Qed.

End ResolverFacts.

(** ** More on the mount-table cache *)
Section CacheOrigin.

Context {H : Headers}.
Variable W : World.

Lemma cache_examine_filters (flags : Z) (st st' : scan) (mnt mnt' : mntent)
  (devname buf : string) (qfmt : qarray) :
  cache_examine W flags st mnt = Candidate st' mnt' devname buf qfmt ->
  get_device_name W (mnt_fsname mnt) <> None
  /\ libc_hasmntopt W mnt MNTOPT_NOQUOTA = false
  /\ libc_hasmntopt W mnt MNTOPT_BIND = false
  /\ flag_set flags MS_LOCALONLY && nfs_fstype (mnt_type mnt) = false
  /\ flag_set flags MS_NO_AUTOFS
     && strcmp_eq (mnt_type mnt) MNTTYPE_AUTOFS = false.
Proof.
  unfold cache_examine.
  destruct (get_device_name W (mnt_fsname mnt)); [|discriminate].
  destruct (_ <? _)%nat; [discriminate|].
  destruct (flag_set flags MS_NO_AUTOFS
            && strcmp_eq (mnt_type mnt) MNTTYPE_AUTOFS); [discriminate|].
  destruct (flag_set flags MS_LOCALONLY && nfs_fstype (mnt_type mnt));
    [discriminate|].
  destruct (libc_hasmntopt W mnt MNTOPT_NOQUOTA); [discriminate|].
  destruct (libc_hasmntopt W mnt MNTOPT_BIND); [discriminate|].
  intros _. repeat split. discriminate.
Qed.

Lemma cache_mnt_entry_origin (flags : Z) (st : scan) (mnt : mntent) :
  mnt_entries (cache_mnt_entry W flags st mnt) = mnt_entries st
  \/ exists e,
       mnt_entries (cache_mnt_entry W flags st mnt)
       = (mnt_entries st ++ [e])%list
       /\ me_dir e = None
       /\ (0 <= q_usr (me_qfmt e) \/ 0 <= q_grp (me_qfmt e))
       /\ cached_from W flags mnt e.
Proof.
  rewrite cache_mnt_entry_entries.
  destruct (cache_examine W flags st mnt)
    as [|st' mnt' devname buf qfmt] eqn:X; [now left|].
  pose proof (cache_examine_filters _ _ _ _ _ _ _ _ X)
    as (F1 & F2 & F3 & F4 & F5).
  apply cache_examine_candidate in X as (Ht & Hd & Hr & _ & Hq).
  destruct (device_identity W mnt' devname) as [dev|]; [|now left].
  destruct (sys_stat W (mnt_dir mnt')) as [sb|]; [|now left].
  destruct (_ || _); [|now left].
  right. eexists; split; [reflexivity|]. simpl.
  split; [reflexivity|]. split.
  - apply andb_false_iff in Hq as [Hq | Hq]; apply Z.ltb_ge in Hq; auto.
  - unfold cached_from. simpl. rewrite Ht.
    repeat split; auto.
    + intros L. rewrite L in F4. exact F4.
    + intros A. rewrite A in F5. exact F5.
Qed.

Lemma cache_mnt_records_origin (flags : Z) (table : list mntent)
  (st : scan) (e : mount_entry) :
  In e (mnt_entries (cache_mnt_records W flags table st)) ->
  In e (mnt_entries st)
  \/ (me_dir e = None
      /\ (0 <= q_usr (me_qfmt e) \/ 0 <= q_grp (me_qfmt e))
      /\ exists mnt, In mnt table /\ cached_from W flags mnt e).
Proof.
  revert st; induction table as [|mnt table IH]; intros st; [now left|].
  change (cache_mnt_records W flags (mnt :: table) st)
    with (cache_mnt_records W flags table (cache_mnt_entry W flags st mnt)).
  intros Hin. apply IH in Hin as [Hin | (A & B & m & Hm & C)].
  - destruct (cache_mnt_entry_origin flags st mnt)
      as [S | (e' & S & A & B & C)]; rewrite S in Hin; [now left|].
    apply in_app_iff in Hin as [Hin | [<- | []]]; [now left|].
    right. split; [exact A|]. split; [exact B|].
    exists mnt. split; [now left | exact C].
  - right. split; [exact A|]. split; [exact B|].
    exists m. split; [now right | exact C].
Qed.

(** Every entry of the cache was made from a record of the mount table
    whose device name resolved, that carries neither the noquota nor the
    bind option, and that is not remote when only local filesystems are
    asked for, nor an autofs mountpoint when these are to be ignored. One
    of its two classified formats is a format, and its [me_dir] is NULL
    until [get_next_mount] returns it. *)
Theorem cache_mnt_table_origin (flags : Z) (table : list mntent)
  (e : mount_entry) :
  open_mount_table W = Some table ->
  In e (mnt_entries (snd (cache_mnt_table W flags))) ->
  me_dir e = None
  /\ (0 <= q_usr (me_qfmt e) \/ 0 <= q_grp (me_qfmt e))
  /\ exists mnt, In mnt table /\ cached_from W flags mnt e.
Proof.
  intros Ho. unfold cache_mnt_table. rewrite Ho. cbn [snd].
  intros Hin. apply cache_mnt_records_origin in Hin as [[] | R]. exact R.
Qed.

(** When no mount table can be opened, [cache_mnt_table] returns -1
    after one diagnostic; it returns 0 in every other case. The tables
    are tried in the order ALT_MTAB, /etc/mtab, /etc/fstab, and the first
    that opens is the one read. *)
Theorem cache_mnt_table_fallback (flags : Z) :
  let tables :=
    (match ALT_MTAB with Some alt => [alt] | None => [] end
     ++ [_PATH_MOUNTED; _PATH_MNTTAB])%list in
  (fst (cache_mnt_table W flags) = -1
   <-> forall path, In path tables -> sys_setmntent W path = None)
  /\ (fst (cache_mnt_table W flags) = -1 ->
      mnt_entries (snd (cache_mnt_table W flags)) = []
      /\ length (trace (snd (cache_mnt_table W flags))) = 1%nat)
  /\ (fst (cache_mnt_table W flags) = 0
      <-> exists pre path post table,
            tables = (pre ++ path :: post)%list
            /\ (forall p, In p pre -> sys_setmntent W p = None)
            /\ sys_setmntent W path = Some table
            /\ open_mount_table W = Some table).
Proof.
  unfold cache_mnt_table, open_mount_table. cbv zeta.
  destruct ALT_MTAB as [alt|]; simpl.
  - destruct (sys_setmntent W alt) as [t0|] eqn:E0; simpl.
    { split; [|split].
      - split; [discriminate|]. intros A.
        specialize (A alt (or_introl eq_refl)). congruence.
      - discriminate.
      - split; [intros _ | reflexivity].
        exists [], alt, [_PATH_MOUNTED; _PATH_MNTTAB], t0.
        simpl. repeat split; auto. intros _ []. }
    destruct (sys_setmntent W _PATH_MOUNTED) as [t1|] eqn:E1; simpl.
    { split; [|split].
      - split; [discriminate|]. intros A.
        specialize (A _PATH_MOUNTED (or_intror (or_introl eq_refl))).
        congruence.
      - discriminate.
      - split; [intros _ | reflexivity].
        exists [alt], _PATH_MOUNTED, [_PATH_MNTTAB], t1.
        simpl. repeat split; auto. intros p [<- | []]; assumption. }
    destruct (sys_setmntent W _PATH_MNTTAB) as [t2|] eqn:E2; simpl.
    { split; [|split].
      - split; [discriminate|]. intros A.
        specialize (A _PATH_MNTTAB
                      (or_intror (or_intror (or_introl eq_refl)))).
        congruence.
      - discriminate.
      - split; [intros _ | reflexivity].
        exists [alt; _PATH_MOUNTED], _PATH_MNTTAB, [], t2.
        simpl. repeat split; auto.
        intros p [<- | [<- | []]]; assumption. }
    split; [|split].
    + split; [|reflexivity]. intros _ p [<- | [<- | [<- | []]]]; assumption.
    + auto.
    + split; [discriminate|].
      intros (pre & path & post & table & Et & Hp & Hs & _).
      assert (In path [alt; _PATH_MOUNTED; _PATH_MNTTAB])
        by (rewrite Et; apply in_app_iff; simpl; auto).
      simpl in *. intuition congruence.
  - destruct (sys_setmntent W _PATH_MOUNTED) as [t1|] eqn:E1; simpl.
    { split; [|split].
      - split; [discriminate|]. intros A.
        specialize (A _PATH_MOUNTED (or_introl eq_refl)). congruence.
      - discriminate.
      - split; [intros _ | reflexivity].
        exists [], _PATH_MOUNTED, [_PATH_MNTTAB], t1.
        simpl. repeat split; auto. intros _ []. }
    destruct (sys_setmntent W _PATH_MNTTAB) as [t2|] eqn:E2; simpl.
    { split; [|split].
      - split; [discriminate|]. intros A.
        specialize (A _PATH_MNTTAB (or_intror (or_introl eq_refl))).
        congruence.
      - discriminate.
      - split; [intros _ | reflexivity].
        exists [_PATH_MOUNTED], _PATH_MNTTAB, [], t2.
        simpl. repeat split; auto. intros p [<- | []]; assumption. }
    split; [|split].
    + split; [|reflexivity]. intros _ p [<- | [<- | []]]; assumption.
    + auto.
    + split; [discriminate|].
      intros (pre & path & post & table & Et & Hp & Hs & _).
      assert (In path [_PATH_MOUNTED; _PATH_MNTTAB])
        by (rewrite Et; apply in_app_iff; simpl; auto).
      simpl in *. intuition congruence.
Qed.

End CacheOrigin.

(** ** The mountpoint scan *)
Section ScanFacts.

Context {H : Headers} {H2 : MoreHeaders}.
Variable W : World.

Lemma list_set_mid {A} (pre : list A) (x y : A) (r : list A) :
  list_set (pre ++ x :: r) (length pre) y = (pre ++ y :: r)%list.
Proof. induction pre as [|a pre IH]; simpl; [reflexivity | now rewrite IH]. Qed.

Lemma nth_error_mid {A} (pre : list A) (x : A) (r : list A) :
  nth_error (pre ++ x :: r) (length pre) = Some x.
Proof. induction pre as [|a pre IH]; simpl; auto. Qed.

Lemma skipn_mid {A} (pre suf : list A) :
  skipn (length pre) (pre ++ suf) = suf.
Proof. induction pre as [|a pre IH]; simpl; auto. Qed.

Lemma yields_same (m1 m2 m' : mounts) (mnts : list mount_entry) :
  get_next_mount m1 = get_next_mount m2 ->
  yields m2 mnts m' -> yields m1 mnts m'.
Proof.
  intros E Y. inversion Y; subst.
  - apply yields_end. congruence.
  - eapply yields_next; [|eassumption]. congruence.
Qed.

Lemma length_snoc_pred {A} (l : list A) (x : A) :
  Z.of_nat (length (l ++ [x])) - 1 = Z.of_nat (length l).
Proof. rewrite length_app. simpl. lia. Qed.

(** *** Scanning all mountpoints *)

Lemma get_next_mount_all_skip (pre : list mount_entry) (e : mount_entry)
  (r : list mount_entry) (tr : list event) :
  usable e = false ->
  get_next_mount {| ms_entries := pre ++ e :: r; check_dirs := [];
                    act_checked := Z.of_nat (length pre) - 1;
                    ms_trace := tr |}
  = get_next_mount {| ms_entries := pre ++ e :: r; check_dirs := [];
                      act_checked := Z.of_nat (length pre);
                      ms_trace := tr |}.
Proof.
  intros U. unfold get_next_mount, find_next_entry_all. cbn [check_dirs
    act_checked ms_entries].
  replace (Z.of_nat (length pre) - 1 + 1) with (Z.of_nat (length pre)) by lia.
  replace (Z.of_nat (length pre) + 1) with (Z.of_nat (length (pre ++ [e])))
    by (rewrite length_app; simpl; lia).
  destruct (Z.ltb_spec (Z.of_nat (length pre)) 0); [lia|].
  destruct (Z.ltb_spec (Z.of_nat (length (pre ++ [e]))) 0); [lia|].
  assert (S2 : skipn (length (pre ++ [e])) (pre ++ e :: r) = r).
  { replace (pre ++ e :: r)%list with ((pre ++ [e]) ++ r)%list
      by (now rewrite <- app_assoc).
    apply skipn_mid. }
  rewrite !Nat2Z.id, skipn_mid, S2. cbn [find_next_entry_all_loop].
  unfold usable in U. rewrite U.
  replace (Z.of_nat (length pre) + 1) with (Z.of_nat (length (pre ++ [e])))
    by (rewrite length_app; simpl; lia).
  reflexivity.
Qed.

Lemma get_next_mount_all_hit (pre : list mount_entry) (e : mount_entry)
  (r : list mount_entry) (tr : list event) :
  usable e = true ->
  get_next_mount {| ms_entries := pre ++ e :: r; check_dirs := [];
                    act_checked := Z.of_nat (length pre) - 1;
                    ms_trace := tr |}
  = NextMount (set_me_dir (me__dir e) e)
      {| ms_entries := pre ++ set_me_dir (me__dir e) e :: r;
         check_dirs := [];
         act_checked := Z.of_nat (length pre);
         ms_trace := tr |}.
Proof.
  intros U. unfold get_next_mount, find_next_entry_all. cbn [check_dirs
    act_checked ms_entries].
  replace (Z.of_nat (length pre) - 1 + 1) with (Z.of_nat (length pre)) by lia.
  destruct (Z.ltb_spec (Z.of_nat (length pre)) 0); [lia|].
  rewrite !Nat2Z.id, skipn_mid. cbn [find_next_entry_all_loop].
  unfold usable in U. rewrite U. cbn [set_act_checked ms_entries].
  destruct (Z.leb_spec (Z.of_nat (length (pre ++ e :: r)))
              (Z.of_nat (length pre))) as [L|L];
    [rewrite length_app in L; simpl in L; lia|].
  unfold return_mount, set_act_checked.
  cbn [ms_entries check_dirs act_checked ms_trace].
  rewrite Nat2Z.id, nth_error_mid, list_set_mid. reflexivity.
Qed.

Lemma get_next_mount_all_end (es : list mount_entry) (tr : list event)
  (act : Z) :
  Z.of_nat (length es) - 1 <= act ->
  get_next_mount {| ms_entries := es; check_dirs := [];
                    act_checked := act; ms_trace := tr |}
  = NoNextMount {| ms_entries := es; check_dirs := [];
                   act_checked := act + 1; ms_trace := tr |}.
Proof.
  intros L. unfold get_next_mount, find_next_entry_all. cbn [check_dirs
    act_checked ms_entries].
  destruct (Z.ltb_spec (act + 1) 0); [lia|].
  rewrite skipn_all2 by lia. cbn [find_next_entry_all_loop].
  cbn [set_act_checked ms_entries].
  destruct (Z.leb_spec (Z.of_nat (length es)) (act + 1)); [|lia].
  reflexivity.
Qed.

Lemma yields_all (suf : list mount_entry) :
  forall (pre : list mount_entry) (tr : list event),
    yields {| ms_entries := pre ++ suf; check_dirs := [];
              act_checked := Z.of_nat (length pre) - 1; ms_trace := tr |}
      (map (fun e => set_me_dir (me__dir e) e) (filter usable suf))
      {| ms_entries :=
           pre ++ map (fun e => if usable e
                                then set_me_dir (me__dir e) e else e) suf;
         check_dirs := [];
         act_checked := Z.of_nat (length (pre ++ suf));
         ms_trace := tr |}.
Proof.
  induction suf as [|e r IH]; intros pre tr.
  - simpl. rewrite !app_nil_r. apply yields_end.
    rewrite get_next_mount_all_end by lia. do 2 f_equal. lia.
  - cbn [filter map]. destruct (usable e) eqn:U.
    + eapply yields_next; [now apply get_next_mount_all_hit|].
      specialize (IH (pre ++ [set_me_dir (me__dir e) e])%list tr).
      rewrite length_snoc_pred, <- !app_assoc in IH. cbn [app] in IH.
      replace (length (pre ++ set_me_dir (me__dir e) e :: r))
        with (length (pre ++ e :: r)) in IH
        by (rewrite !length_app; reflexivity).
      exact IH.
    + eapply yields_same; [now apply get_next_mount_all_skip|].
      specialize (IH (pre ++ [e])%list tr).
      rewrite length_snoc_pred, <- !app_assoc in IH. exact IH.
Qed.

(** When all mountpoints are scanned, the calls of [get_next_mount]
    return the cached entries that do not carry the noauto option, each
    once, in the order of the cache, with [me_dir] set to the mountpoint of
    the entry; then NULL, and NULL again on every further call. Nothing is
    printed. *)
Theorem get_next_mount_all (m : mounts) :
  check_dirs m = [] ->
  act_checked m = -1 ->
  exists m',
    yields m
      (map (fun e => set_me_dir (me__dir e) e) (filter usable (ms_entries m)))
      m'
    /\ ms_entries m'
       = map (fun e => if usable e then set_me_dir (me__dir e) e else e)
           (ms_entries m)
    /\ ms_trace m' = ms_trace m
    /\ forall m2,
         check_dirs m2 = [] -> ms_entries m2 = ms_entries m' ->
         act_checked m' <= act_checked m2 ->
         exists m3, get_next_mount m2 = NoNextMount m3
                    /\ check_dirs m3 = [] /\ ms_entries m3 = ms_entries m2
                    /\ act_checked m2 <= act_checked m3.
Proof.
  destruct m as [es dirs act tr]. simpl. intros -> ->.
  eexists. split; [|split; [|split]].
  - apply (yields_all es [] tr).
  - reflexivity.
  - reflexivity.
  - simpl. intros [es2 dirs2 act2 tr2]. simpl. intros -> -> L.
    eexists. rewrite get_next_mount_all_end by (rewrite length_map; lia).
    split; [reflexivity|]. simpl. repeat split; lia.
Qed.

(** *** Scanning selected mountpoints *)

Lemma sel_index_cases (es : list mount_entry) (sd : searched_dir) :
  sd_assigned sd ->
  (sel_index es sd = Some (length es)
   /\ find (sd_match sd) es = None
   /\ existsb (sd_match sd) es = false)
  \/ exists pre e r,
       es = (pre ++ e :: r)%list
       /\ sel_index es sd = Some (length pre)
       /\ find (sd_match sd) es = Some e
       /\ existsb (sd_match sd) es = true.
Proof.
  intros A. induction es as [|e es IH]; [left; auto|].
  cbn [sel_index find existsb].
  assert (Hit : (if sd_dir sd
                 then if sd_dev sd =? me_dev e
                      then match sd_ino sd with
                           | Some ino => Some (ino =? me_ino e)
                           | None => None
                           end
                      else Some false
                 else Some (sd_dev sd =? me_dev e))
                = Some (sd_match sd e)).
  { unfold sd_match. unfold sd_assigned in A.
    destruct (sd_dir sd).
    - destruct (sd_ino sd) as [ino|]; [|now elim A].
      now destruct (sd_dev sd =? me_dev e).
    - now rewrite andb_true_r. }
  rewrite Hit. destruct (sd_match sd e) eqn:M.
  - right. exists [], e, es. auto.
  - destruct IH as [(I & F & X) | (pre & e' & r & -> & I & F & X)].
    + left. rewrite I. auto.
    + right. exists (e :: pre), e', r. rewrite I. auto.
Qed.

Lemma find_next_entry_sel_loop_act (rest : list searched_dir) (act x : Z)
  (m : mounts) :
  find_next_entry_sel_loop rest act (set_act_checked x m)
  = find_next_entry_sel_loop rest act m.
Proof.
  revert act m; induction rest as [|sd rest IH]; intros act m;
    [reflexivity|].
  cbn [find_next_entry_sel_loop]. unfold set_act_checked at 1 2.
  cbn [ms_entries].
  destruct (sel_index (ms_entries m) sd) as [i|]; [|reflexivity].
  destruct (i =? length (ms_entries m))%nat; [|reflexivity].
  apply (IH (act + 1) (ms_log _ m)).
Qed.

Lemma get_next_mount_sel_skip (done rest : list searched_dir)
  (sd : searched_dir) (es : list mount_entry) (tr : list event) :
  sel_index es sd = Some (length es) ->
  get_next_mount {| ms_entries := es; check_dirs := done ++ sd :: rest;
                    act_checked := Z.of_nat (length done) - 1;
                    ms_trace := tr |}
  = get_next_mount {| ms_entries := es; check_dirs := done ++ sd :: rest;
                      act_checked := Z.of_nat (length done);
                      ms_trace := tr ++ [not_found sd] |}.
Proof.
  intros I. unfold get_next_mount, find_next_entry_sel.
  cbn [check_dirs act_checked ms_entries].
  replace (Z.of_nat (length done) - 1 + 1) with (Z.of_nat (length done))
    by lia.
  replace (Z.of_nat (length done) + 1)
    with (Z.of_nat (length (done ++ [sd])))
    by (rewrite length_app; simpl; lia).
  assert (S2 : skipn (length (done ++ [sd])) (done ++ sd :: rest) = rest).
  { replace (done ++ sd :: rest)%list with ((done ++ [sd]) ++ rest)%list
      by (now rewrite <- app_assoc).
    apply skipn_mid. }
  assert (L : length (done ++ sd :: rest) = (length (done ++ [sd])
                                             + length rest)%nat)
    by (rewrite !length_app; simpl; lia).
  assert (L' : length (done ++ [sd]) = S (length done))
    by (rewrite length_app; simpl; lia).
  destruct (Z.ltb_spec (Z.of_nat (length done)) 0); [lia|].
  destruct (Z.ltb_spec (Z.of_nat (length (done ++ [sd]))) 0); [lia|].
  destruct (Z.ltb_spec (Z.of_nat (length (done ++ sd :: rest)))
              (Z.of_nat (length done))); [lia|].
  destruct (Z.ltb_spec (Z.of_nat (length (done ++ sd :: rest)))
              (Z.of_nat (length (done ++ [sd])))); [lia|].
  cbn [orb]. rewrite !Nat2Z.id, skipn_mid, S2.
  cbn [find_next_entry_sel_loop ms_entries]. rewrite I, Nat.eqb_refl.
  replace (Z.of_nat (length done) + 1)
    with (Z.of_nat (length (done ++ [sd]))) by lia.
  destruct (done ++ sd :: rest)%list eqn:D;
    [destruct done; discriminate|]. rewrite <- D.
  set (m1 := ms_log _ _).
  set (m2 := {| ms_entries := es; check_dirs := _;
                act_checked := Z.of_nat (length done); ms_trace := _ |}).
  change m2 with (set_act_checked (Z.of_nat (length done)) m1).
  now rewrite find_next_entry_sel_loop_act.
Qed.

Lemma get_next_mount_sel_hit (done rest : list searched_dir)
  (sd : searched_dir) (pre r : list mount_entry) (e : mount_entry)
  (tr : list event) :
  sel_index (pre ++ e :: r) sd = Some (length pre) ->
  get_next_mount {| ms_entries := pre ++ e :: r;
                    check_dirs := done ++ sd :: rest;
                    act_checked := Z.of_nat (length done) - 1;
                    ms_trace := tr |}
  = NextMount (set_me_dir (sd_name sd) e)
      {| ms_entries := pre ++ set_me_dir (sd_name sd) e :: r;
         check_dirs := done ++ sd :: rest;
         act_checked := Z.of_nat (length done);
         ms_trace := tr |}.
Proof.
  intros I. unfold get_next_mount, find_next_entry_sel.
  cbn [check_dirs act_checked ms_entries].
  replace (Z.of_nat (length done) - 1 + 1) with (Z.of_nat (length done))
    by lia.
  destruct (Z.ltb_spec (Z.of_nat (length done)) 0); [lia|].
  destruct (Z.ltb_spec (Z.of_nat (length (done ++ sd :: rest)))
              (Z.of_nat (length done))) as [L|_];
    [rewrite length_app in L; lia|].
  cbn [orb]. rewrite !Nat2Z.id, skipn_mid.
  cbn [find_next_entry_sel_loop ms_entries]. rewrite I.
  destruct (Nat.eqb_spec (length pre) (length (pre ++ e :: r))) as [L|_];
    [rewrite length_app in L; simpl in L; lia|].
  destruct (done ++ sd :: rest)%list eqn:D;
    [destruct done; discriminate|]. rewrite <- D.
  unfold return_mount, set_act_checked.
  cbn [ms_entries check_dirs act_checked ms_trace].
  rewrite Nat2Z.id, !nth_error_mid, list_set_mid. reflexivity.
Qed.

Lemma get_next_mount_sel_end (done : list searched_dir)
  (es : list mount_entry) (tr : list event) :
  done <> [] ->
  get_next_mount {| ms_entries := es; check_dirs := done;
                    act_checked := Z.of_nat (length done) - 1;
                    ms_trace := tr |}
  = NoNextMount {| ms_entries := es; check_dirs := done;
                   act_checked := Z.of_nat (length done);
                   ms_trace := tr |}
  /\ get_next_mount {| ms_entries := es; check_dirs := done;
                       act_checked := Z.of_nat (length done);
                       ms_trace := tr |}
     = NextUndefined.
Proof.
  intros N. unfold get_next_mount, find_next_entry_sel.
  cbn [check_dirs act_checked ms_entries].
  destruct done as [|sd done]; [contradiction|].
  set (dirs := sd :: done).
  replace (Z.of_nat (length dirs) - 1 + 1) with (Z.of_nat (length dirs))
    by lia.
  destruct (Z.ltb_spec (Z.of_nat (length dirs)) 0); [lia|].
  destruct (Z.ltb_spec (Z.of_nat (length dirs)) (Z.of_nat (length dirs)));
    [lia|].
  destruct (Z.ltb_spec (Z.of_nat (length dirs) + 1) 0); [lia|].
  destruct (Z.ltb_spec (Z.of_nat (length dirs))
              (Z.of_nat (length dirs) + 1)); [|lia].
  cbn [orb]. rewrite Nat2Z.id, skipn_all. split; reflexivity.
Qed.

Lemma find_unmarked (sd : searched_dir) (es : list mount_entry) :
  find (sd_match sd) (map (set_me_dir "") es)
  = option_map (set_me_dir "") (find (sd_match sd) es).
Proof.
  induction es as [|e es IH]; [reflexivity|]. cbn [map find].
  change (sd_match sd (set_me_dir "" e)) with (sd_match sd e).
  now destruct (sd_match sd e).
Qed.

Lemma existsb_unmarked (sd : searched_dir) (es : list mount_entry) :
  existsb (sd_match sd) (map (set_me_dir "") es) = existsb (sd_match sd) es.
Proof.
  induction es as [|e es IH]; [reflexivity|]. cbn [map existsb].
  change (sd_match sd (set_me_dir "" e)) with (sd_match sd e).
  now rewrite IH.
Qed.

Lemma yields_sel (es0 : list mount_entry) (rest : list searched_dir) :
  forall (done : list searched_dir) (es : list mount_entry)
         (tr : list event),
    Forall sd_assigned rest ->
    (done ++ rest)%list <> [] ->
    map (set_me_dir "") es = map (set_me_dir "") es0 ->
    exists es',
      map (set_me_dir "") es' = map (set_me_dir "") es0
      /\ yields {| ms_entries := es; check_dirs := done ++ rest;
                   act_checked := Z.of_nat (length done) - 1;
                   ms_trace := tr |}
           (flat_map
              (fun sd => match find (sd_match sd) es0 with
                         | Some e => [set_me_dir (sd_name sd) e]
                         | None => []
                         end) rest)
           {| ms_entries := es'; check_dirs := done ++ rest;
              act_checked := Z.of_nat (length (done ++ rest));
              ms_trace :=
                tr ++ flat_map
                        (fun sd => if existsb (sd_match sd) es0 then []
                                   else [not_found sd]) rest |}.
Proof.
  induction rest as [|sd rest IH]; intros done es tr A N U.
  - exists es. split; [exact U|]. rewrite !app_nil_r in *.
    apply yields_end. now apply get_next_mount_sel_end.
  - inversion A as [|? ? A1 A2]; subst.
    assert (F : option_map (set_me_dir "") (find (sd_match sd) es)
                = option_map (set_me_dir "") (find (sd_match sd) es0))
      by (rewrite <- !find_unmarked; now rewrite U).
    assert (X : existsb (sd_match sd) es = existsb (sd_match sd) es0)
      by (rewrite <- (existsb_unmarked sd es), U; apply existsb_unmarked).
    assert (N' : ((done ++ [sd]) ++ rest)%list <> [])
      by (destruct done; discriminate).
    cbn [flat_map].
    destruct (sel_index_cases es sd A1)
      as [(I & Fe & Xe) | (pre & e & r & -> & I & Fe & Xe)].
    + rewrite Fe in F. rewrite Xe in X.
      destruct (find (sd_match sd) es0); [discriminate|].
      rewrite <- X. cbn [app].
      destruct (IH (done ++ [sd])%list es (tr ++ [not_found sd])%list
                  A2 N' U) as (es' & U' & Y).
      exists es'. split; [exact U'|].
      eapply yields_same; [now apply get_next_mount_sel_skip|].
      rewrite length_snoc_pred, <- !app_assoc in Y. exact Y.
    + rewrite Fe in F. rewrite Xe in X.
      destruct (find (sd_match sd) es0) as [e0|]; [|discriminate].
      assert (F' : set_me_dir "" e = set_me_dir "" e0)
        by (cbn [option_map] in F; congruence).
      rewrite <- X. cbn [app].
      assert (E : set_me_dir (sd_name sd) e0 = set_me_dir (sd_name sd) e).
      { change (set_me_dir (sd_name sd) (set_me_dir "" e0)
                = set_me_dir (sd_name sd) (set_me_dir "" e)).
        now rewrite F'. }
      rewrite E.
      destruct (IH (done ++ [sd])%list
                  (pre ++ set_me_dir (sd_name sd) e :: r)%list tr A2 N')
        as (es' & U' & Y).
      { rewrite <- U, !map_app. reflexivity. }
      exists es'. split; [exact U'|].
      eapply yields_next; [now apply get_next_mount_sel_hit|].
      rewrite length_snoc_pred, <- !app_assoc in Y. exact Y.
Qed.

(** When selected mountpoints are scanned, the calls of [get_next_mount]
    return, for each searched directory in turn, the first cached entry
    that matches it, with [me_dir] set to the name of the searched
    directory; a searched directory that no entry matches is reported and
    passed over. After the call that returns NULL the entries differ from
    those before the scan in [me_dir] at most, and one more call reads
    [check_dirs] past its end. *)
Theorem get_next_mount_selected (m : mounts) :
  check_dirs m <> [] ->
  act_checked m = -1 ->
  Forall sd_assigned (check_dirs m) ->
  exists m',
    yields m
      (flat_map
         (fun sd => match find (sd_match sd) (ms_entries m) with
                    | Some e => [set_me_dir (sd_name sd) e]
                    | None => []
                    end) (check_dirs m))
      m'
    /\ ms_trace m'
       = (ms_trace m
          ++ flat_map
               (fun sd => if existsb (sd_match sd) (ms_entries m) then []
                          else [not_found sd]) (check_dirs m))%list
    /\ check_dirs m' = check_dirs m
    /\ map (set_me_dir "") (ms_entries m')
       = map (set_me_dir "") (ms_entries m)
    /\ get_next_mount m' = NextUndefined.
Proof.
  destruct m as [es dirs act tr]. simpl. intros N -> A.
  destruct (yields_sel es dirs [] es tr A N eq_refl) as (es' & U & Y).
  eexists. split; [exact Y|]. simpl.
  repeat split; auto.
  now apply get_next_mount_sel_end.
Qed.

End ScanFacts.

Section SearchedDirs.

Context {H : Headers} {H2 : MoreHeaders}.
Variable W : World.

Lemma dev_index_found (es : list mount_entry) (dev : Z) (e : mount_entry) :
  nth_error es (dev_index es dev) = Some e ->
  In e es /\ me_dev e = dev.
Proof.
  induction es as [|x es IH]; simpl; [discriminate|].
  destruct (Z.eqb_spec (me_dev x) dev) as [E|E]; simpl.
  - intros [= <-]. auto.
  - intros Hn. apply IH in Hn. tauto.
Qed.

Lemma find_dir_mntpoint_found (es : list mount_entry) (st st' : stat_t)
  (dir : string) :
  find_dir_mntpoint es st = Some (dir, st') ->
  exists e, In e es /\ me_dev e = st_dev st' /\ me_ino e = st_ino st'.
Proof.
  induction es as [|x es IH]; simpl; [discriminate|].
  destruct (Z.eqb_spec (me_dev x) (st_dev st)) as [E|E].
  - intros [= _ <-]. exists x. simpl. auto.
  - intros Hf. apply IH in Hf as (e & Hin & R). exists e. auto.
Qed.

Lemma process_dir_checked (entries : list mount_entry) (flags : Z)
  (dir : string) (sd : searched_dir) :
  process_dir W entries flags dir = inr sd -> sd_checked entries flags sd.
Proof.
  unfold process_dir. cbv zeta.
  match goal with
  | |- match ?x with inl _ => _ | inr _ => _ end = _ -> _ =>
      destruct x as [diag|st]
  end; [discriminate|].
  destruct (S_ISDIR (st_mode st)).
  - destruct (flag_set flags MS_NO_MNTPOINT) eqn:F.
    + destruct (find_dir_mntpoint entries st) as [[realmnt st']|] eqn:Fd;
        [|discriminate].
      destruct (sys_realpath W realmnt); [|discriminate].
      intros [= <-]. unfold sd_checked, sd_assigned. simpl.
      split; [discriminate|]. split; [discriminate|]. intros _.
      apply find_dir_mntpoint_found in Fd as (e & Hin & D & I).
      apply existsb_exists. exists e. split; [exact Hin|].
      unfold sd_match. simpl. rewrite D, I, !Z.eqb_refl. reflexivity.
    + destruct (sys_realpath W dir); [|discriminate].
      intros [= <-]. unfold sd_checked, sd_assigned. simpl.
      split; [discriminate|]. split; [discriminate|].
      intros [? | ?]; congruence.
  - destruct (S_ISBLK (st_mode st) || S_ISCHR (st_mode st)); [|discriminate].
    destruct (nth_error entries (dev_index entries (st_rdev st)))
      as [e|] eqn:N; [|discriminate].
    apply dev_index_found in N as [Hin D].
    intros [= <-]. unfold sd_checked, sd_assigned. simpl.
    split; [discriminate|]. split.
    + intros _. split.
      * apply in_map_iff. eauto.
      * unfold sstrncpy. rewrite str_take_length. lia.
    + intros _. apply existsb_exists. exists e. split; [exact Hin|].
      unfold sd_match. simpl. rewrite D, Z.eqb_refl. reflexivity.
Qed.

Lemma process_dirs_loop_checked (flags : Z) (dirs : list string) :
  forall m,
    let m' := process_dirs_loop W flags dirs m in
    ms_entries m' = ms_entries m
    /\ act_checked m' = act_checked m
    /\ exists new,
         check_dirs m' = (check_dirs m ++ new)%list
         /\ (length new <= length dirs)%nat
         /\ Forall (sd_checked (ms_entries m) flags) new.
Proof.
  induction dirs as [|dir rest IH]; intros m.
  - simpl. repeat split; auto. exists []. rewrite app_nil_r. auto.
  - cbn [process_dirs_loop].
    destruct (process_dir W (ms_entries m) flags dir) as [diag|sd] eqn:P.
    + destruct (IH {| ms_entries := ms_entries m;
                      check_dirs := check_dirs m;
                      act_checked := act_checked m;
                      ms_trace := (ms_trace m ++ diag)%list |})
        as (E & A & new & C & L & F).
      simpl in *. repeat split; auto. exists new. repeat split; auto.
    + apply process_dir_checked in P.
      destruct (IH {| ms_entries := ms_entries m;
                      check_dirs := (check_dirs m ++ [sd])%list;
                      act_checked := act_checked m;
                      ms_trace := ms_trace m |})
        as (E & A & new & C & L & F).
      simpl in *. repeat split; auto. exists (sd :: new).
      rewrite C, <- app_assoc. simpl. repeat split; auto. lia.
Qed.

Lemma process_dirs_facts (dirs : list string) (flags : Z) (m : mounts) :
  let ret := fst (process_dirs W dirs flags m) in
  let m' := snd (process_dirs W dirs flags m) in
  ms_entries m' = ms_entries m
  /\ act_checked m' = -1
  /\ (length (check_dirs m') <= length dirs)%nat
  /\ Forall (sd_checked (ms_entries m) flags) (check_dirs m')
  /\ ((ret = -1 /\ dirs <> [] /\ check_dirs m' = [])
      \/ (ret = 0 /\ (dirs = [] <-> check_dirs m' = []))).
Proof.
  unfold process_dirs. cbv zeta.
  destruct dirs as [|dir rest]; [simpl; repeat split; auto; tauto|].
  cbv beta match zeta.
  set (m0 := {| ms_entries := ms_entries m; check_dirs := [];
                act_checked := -1; ms_trace := ms_trace m |}).
  destruct (process_dirs_loop_checked flags (dir :: rest) m0)
    as (E & A & new & C & L & F).
  change (check_dirs m0) with (@nil searched_dir) in C. cbn [app] in C.
  change (ms_entries m0) with (ms_entries m) in E, F.
  change (act_checked m0) with (-1) in A.
  destruct (process_dirs_loop W flags (dir :: rest) m0) as [es cd act tr].
  cbn [ms_entries act_checked check_dirs] in E, A, C. subst es act cd.
  destruct new as [|sd new]; simpl.
  - destruct (negb (flag_set flags MS_QUIET)); simpl;
      repeat split; auto; try lia; left; repeat split; discriminate.
  - repeat split; auto. right. split; [reflexivity|].
    split; discriminate.
Qed.

(** [process_dirs] leaves the cache as it is and sets [act_checked] to
    -1. It returns -1 exactly when paths are given and none of them is
    accepted. For each path it accepts, the inode is assigned if the path
    is a directory; if it is a device, the device is that of a cached
    entry, and the name stored is cut to PATH_MAX - 2 characters. A device,
    and with MS_NO_MNTPOINT every accepted path, is matched by an entry of
    the cache. *)
Theorem process_dirs_checked (dirs : list string) (flags : Z) (m : mounts) :
  let ret := fst (process_dirs W dirs flags m) in
  let m' := snd (process_dirs W dirs flags m) in
  ms_entries m' = ms_entries m
  /\ act_checked m' = -1
  /\ (length (check_dirs m') <= length dirs)%nat
  /\ Forall (sd_checked (ms_entries m) flags) (check_dirs m')
  /\ ((ret = -1 /\ dirs <> [] /\ check_dirs m' = [])
      \/ (ret = 0 /\ (dirs = [] <-> check_dirs m' = []))).
Proof. exact (process_dirs_facts dirs flags m). Qed.

Lemma init_mounts_scan_facts (dirs : list string) (flags : Z)
  (m : mounts) :
  let ret := fst (init_mounts_scan W dirs flags m) in
  let m1 := snd (init_mounts_scan W dirs flags m) in
  (ret = 0 ->
   ms_entries m1 = mnt_entries (snd (cache_mnt_table W flags))
   /\ (dirs = [] <-> check_dirs m1 = [])
   /\ exists mnts m',
        yields m1 mnts m'
        /\ (length mnts
            <= if length dirs =? 0 then length (ms_entries m1)
               else length (check_dirs m1))%nat
        /\ (flag_set flags MS_NO_MNTPOINT = true ->
            dirs <> [] ->
            length mnts = length (check_dirs m1)
            /\ ms_trace m' = ms_trace m1))
  /\ (ret = -1 ->
      (open_mount_table W = None /\ ms_entries m1 = ms_entries m)
      \/ (dirs <> [] /\ ms_entries m1 = [] /\ check_dirs m1 = []))
  /\ (ret = 0 \/ ret = -1).
Proof.
  unfold init_mounts_scan. cbv zeta.
  unfold cache_mnt_table.
  destruct (open_mount_table W) as [table|] eqn:O; simpl;
    [|split; [discriminate | split; auto]].
  set (st := cache_mnt_records W flags table scan0).
  set (m0 := {| ms_entries := mnt_entries st; check_dirs := check_dirs m;
                act_checked := act_checked m;
                ms_trace := (ms_trace m ++ trace st)%list |}).
  pose proof (process_dirs_facts dirs flags m0) as P. cbv zeta in P.
  destruct (process_dirs W dirs flags m0) as [ret m1]. simpl in P.
  destruct P as (E & A & L & F & [(-> & N & C) | (-> & D)]); simpl.
  { split; [discriminate|]. split; auto. }
  split; [|split; [discriminate | auto]].
  intros _. split; [exact E|]. split; [exact D|].
  destruct (check_dirs m1) as [|sd cd] eqn:C.
  - destruct m1 as [es1 cd1 act1 tr1]. simpl in C, A. subst cd1 act1.
    eexists; eexists. split; [apply (yields_all es1 [] tr1)|]. split.
    + assert (dirs = []) as -> by (now apply D). simpl.
      rewrite length_map. apply filter_length_le.
    + intros _ N. elim N. now apply D.
  - assert (N : check_dirs m1 <> []) by (rewrite C; discriminate).
    assert (As : Forall sd_assigned (check_dirs m1)).
    { rewrite C. eapply Forall_impl; [|exact F].
      intros x Hx. apply Hx. }
    assert (Ysel : exists m',
      yields m1
        (flat_map
           (fun sd => match find (sd_match sd) (ms_entries m1) with
                      | Some e => [set_me_dir (sd_name sd) e]
                      | None => []
                      end) (check_dirs m1)) m'
      /\ ms_trace m'
         = (ms_trace m1
            ++ flat_map
                 (fun sd => if existsb (sd_match sd) (ms_entries m1) then []
                            else [not_found sd]) (check_dirs m1))%list).
    { destruct m1 as [es1 cd1 act1 tr1]. simpl in A, N, As |- *.
      subst act1.
      destruct (yields_sel es1 cd1 [] es1 tr1 As N eq_refl)
        as (es' & _ & Y).
      eexists. split; [exact Y | reflexivity]. }
    destruct Ysel as (m' & Y & T). rewrite C in Y, T.
    eexists; exists m'. split; [exact Y|]. split.
    + destruct dirs as [|d ds]; [now destruct D as [D _]; specialize (D eq_refl)|].
      simpl Nat.eqb. cbv iota.
      clear. induction (sd :: cd) as [|x l IH]; simpl; [lia|].
      rewrite length_app. destruct (find _ _); simpl; lia.
    + intros Fl _. rewrite T. rewrite E in *.
      assert (X : forall x, In x (sd :: cd) ->
                            existsb (sd_match x) (mnt_entries st) = true).
      { intros x Hx. rewrite Forall_forall in F.
        destruct (F x Hx) as (_ & _ & M). apply M. now right. }
      generalize dependent (sd :: cd). clear. intros l _ _ _ _ _ _ X.
      induction l as [|x l IH]; simpl;
        [split; [reflexivity | apply app_nil_r]|].
      assert (Xx := X x (or_introl eq_refl)). rewrite Xx.
      destruct (find (sd_match x) (mnt_entries st)) eqn:Fi.
      * destruct IH as [IH1 IH2]; [intros; apply X; now right|].
        rewrite length_app. simpl. split; [now rewrite IH1|].
        simpl in IH2. exact IH2.
      * exfalso. apply existsb_exists in Xx as (e & Hin & M).
        apply (find_none _ _ Fi) in Hin. congruence.
Qed.

(** When [init_mounts_scan] returns 0, the scan that follows is well
    defined: the calls of [get_next_mount] return mounts until one returns
    NULL, at most one mount for each cached entry when no path is given
    and for each accepted path otherwise. With MS_NO_MNTPOINT each
    accepted path gets its mount and nothing is reported during the scan.
    When [init_mounts_scan] returns -1, either no mount table opened and
    the cache is as before, or paths were given and the cache is empty. *)
Theorem init_mounts_scan_yields (dirs : list string) (flags : Z)
  (m : mounts) :
  let ret := fst (init_mounts_scan W dirs flags m) in
  let m1 := snd (init_mounts_scan W dirs flags m) in
  (ret = 0 ->
   ms_entries m1 = mnt_entries (snd (cache_mnt_table W flags))
   /\ (dirs = [] <-> check_dirs m1 = [])
   /\ exists mnts m',
        yields m1 mnts m'
        /\ (length mnts
            <= if length dirs =? 0 then length (ms_entries m1)
               else length (check_dirs m1))%nat
        /\ (flag_set flags MS_NO_MNTPOINT = true ->
            dirs <> [] ->
            length mnts = length (check_dirs m1)
            /\ ms_trace m' = ms_trace m1))
  /\ (ret = -1 ->
      (open_mount_table W = None /\ ms_entries m1 = ms_entries m)
      \/ (dirs <> [] /\ ms_entries m1 = [] /\ check_dirs m1 = []))
  /\ (ret = 0 \/ ret = -1).
Proof. exact (init_mounts_scan_facts dirs flags m). Qed.

End SearchedDirs.

(** ** Lists of quotafile handles *)
Section HandleFacts.

Context {H : Headers} {H2 : MoreHeaders}.
Variable W : World.
Variable IO : QuotaIO.

Lemma add_entry_hlist (mnt : mount_entry) (type : qtype) (fmt ioflags : Z)
  (hs : handles) :
  let hs' := add_entry IO mnt type fmt ioflags hs in
  hlist hs' = (hlist hs ++ handle_of IO type fmt ioflags mnt)%list
  /\ (Z.of_nat (length (hlist hs)) < hlist_allocated hs ->
      Z.of_nat (length (hlist hs')) < hlist_allocated hs').
Proof.
  unfold add_entry, handle_of. cbv zeta.
  destruct (init_io IO mnt type fmt ioflags) as [h|]; simpl.
  - split; [reflexivity|]. intros L. rewrite length_app. simpl.
    unfold START_MNT_POINTS.
    destruct (Z.leb_spec (hlist_allocated hs)
                (Z.of_nat (length (hlist hs)) + 1)); lia.
  - rewrite app_nil_r. split; [reflexivity|]. intros L.
    unfold START_MNT_POINTS.
    destruct (Z.leb_spec (hlist_allocated hs)
                (Z.of_nat (length (hlist hs)) + 1)); lia.
Qed.

Lemma create_handle_list_loop_yields (count : Z) (type : qtype)
  (fmt ioflags : Z) (m m' : mounts) (mnts : list mount_entry) :
  yields m mnts m' ->
  forall (fuel : nat) (hs : handles),
    (length mnts < fuel)%nat ->
    exists hs',
      create_handle_list_loop IO fuel count type fmt ioflags m hs
      = Some (m', hs')
      /\ hlist hs'
         = (hlist hs
            ++ flat_map (handle_of IO type fmt ioflags)
                 (filter (handle_wanted count fmt) mnts))%list
      /\ (Z.of_nat (length (hlist hs)) < hlist_allocated hs ->
          Z.of_nat (length (hlist hs')) < hlist_allocated hs').
Proof.
  induction 1 as [m m' E | m m1 m' mnt mnts E Y IH]; intros fuel hs L;
    (destruct fuel as [|fuel]; [simpl in L; lia|]);
    cbn [create_handle_list_loop]; rewrite E.
  - exists hs. simpl. rewrite app_nil_r. auto.
  - cbn [filter].
    destruct (handle_wanted count fmt mnt).
    + destruct (add_entry_hlist mnt type fmt ioflags hs) as [A1 A2].
      destruct (IH fuel (add_entry IO mnt type fmt ioflags hs))
        as (hs' & E' & C & K); [simpl in L; lia|].
      exists hs'. split; [exact E'|]. split.
      * rewrite C, A1, <- app_assoc. reflexivity.
      * auto.
    + destruct (IH fuel hs) as (hs' & E' & C & K); [simpl in L; lia|].
      exists hs'. auto.
Qed.

(** [create_handle_list] is well defined whatever the mounts and the
    paths, and the list it leaves has room for its NULL terminator. The
    scan is initialized with the flags given, to which MS_NFS_ALL is
    added when paths are given and MS_LOCALONLY is not set. If that fails
    the process dies with status 2, the list empty. If not, the handles
    of the list are those [init_io] makes, in the order of the scan, for
    the mounts wanted among those that the calls of [get_next_mount]
    return from the initialized scan until it returns NULL; without RPC
    support no remote mount is wanted. The scan is then closed, and the
    process dies with status 1 if paths were given and the handles are
    not as many as the paths, and returns the list if not. *)
Theorem create_handle_list_sound (mntpoints : list string) (type : qtype)
  (fmt ioflags mntflags : Z) (m : mounts) (hs : handles) :
  0 <= hlist_allocated hs ->
  let count := Z.of_nat (length mntpoints) in
  let scanflags :=
    if negb (count =? 0) && negb (flag_set mntflags MS_LOCALONLY)
    then Z.lor mntflags MS_NFS_ALL
    else mntflags in
  let ret := fst (init_mounts_scan W mntpoints scanflags m) in
  let m1 := snd (init_mounts_scan W mntpoints scanflags m) in
  exists r,
    create_handle_list W IO mntpoints type fmt ioflags mntflags m hs
    = Some r
    /\ Z.of_nat (length (hlist (snd (exit_state r))))
       < hlist_allocated (snd (exit_state r))
    /\ (ret < 0 ->
        exists hs0,
          r = Dies 2 "Cannot initialize mountpoint scan.\n" (m1, hs0)
          /\ hlist hs0 = [])
    /\ (0 <= ret ->
        exists mnts m2 hs',
          yields m1 mnts m2
          /\ hlist hs'
             = flat_map (handle_of IO type fmt ioflags)
                 (filter (handle_wanted count fmt) mnts)
          /\ (RPC = false ->
              forall mnt,
                In mnt (filter (handle_wanted count fmt) mnts) ->
                nfs_fstype (me_type mnt) = false)
          /\ exit_state r = (end_mounts_scan m2, hs')
          /\ ms_entries (end_mounts_scan m2) = []
          /\ check_dirs (end_mounts_scan m2) = []
          /\ (mntpoints <> [] ->
              length (hlist hs') <> length mntpoints ->
              r = Dies 1 "Not all specified mountpoints are using quota.\n"
                    (end_mounts_scan m2, hs'))
          /\ (mntpoints = [] \/ length (hlist hs') = length mntpoints ->
              r = Returns (end_mounts_scan m2, hs'))).
Proof.
  intros A. cbv zeta. unfold create_handle_list. cbv zeta.
  set (count := Z.of_nat (length mntpoints)).
  set (flags' := if negb (count =? 0) && _ then _ else _).
  set (hs0 := {| hlist_allocated := _; hlist := [] |}).
  assert (K0 : Z.of_nat (length (hlist hs0)) < hlist_allocated hs0).
  { simpl. unfold START_MNT_POINTS.
    destruct (Z.eqb_spec (hlist_allocated hs) 0); lia. }
  pose proof (init_mounts_scan_facts W mntpoints flags' m) as I.
  cbv zeta in I.
  destruct (init_mounts_scan W mntpoints flags' m) as [ret m1].
  cbn [fst snd] in I |- *. destruct I as (I0 & _ & [-> | ->]).
  2: { eexists. split; [reflexivity|]. simpl.
       split; [exact K0|]. split; [|intros; lia].
       intros _. exists hs0. split; reflexivity. }
  destruct (I0 eq_refl) as (_ & D & mnts & m' & Y & L & _).
  change (0 <? 0) with false. cbv iota.
  destruct (create_handle_list_loop_yields count type fmt ioflags
              m1 m' mnts Y
              (S (length (ms_entries m1) + length (check_dirs m1))) hs0)
    as (hs' & E & C & K).
  { destruct (length mntpoints =? 0)%nat; lia. }
  rewrite E. simpl in C. specialize (K K0).
  assert (R : RPC = false ->
              forall mnt, In mnt (filter (handle_wanted count fmt) mnts) ->
                          nfs_fstype (me_type mnt) = false).
  { intros Hr mnt Hin. apply filter_In in Hin as [_ Hw].
    unfold handle_wanted in Hw. rewrite Hr in Hw. simpl in Hw.
    destruct (nfs_fstype (me_type mnt)); [discriminate | reflexivity]. }
  destruct (negb (count =? 0)
            && negb (Z.of_nat (length (hlist hs')) =? count)) eqn:B.
  - eexists. split; [reflexivity|]. simpl.
    split; [exact K|]. split; [intros; lia|].
    intros _. exists mnts, m', hs'.
    apply andb_true_iff in B as [B1 B2].
    apply negb_true_iff, Z.eqb_neq in B1, B2.
    repeat (split; [first [exact Y | exact C | exact R | reflexivity]|]).
    intros [-> | N]; [now elim B1 | unfold count in B2; lia].
  - eexists. split; [reflexivity|]. simpl.
    split; [exact K|]. split; [intros; lia|].
    intros _. exists mnts, m', hs'.
    repeat (split; [first [exact Y | exact C | exact R | reflexivity]|]).
    split; [|reflexivity].
    intros N1 N2. exfalso.
    apply andb_false_iff in B as [B | B];
      apply negb_false_iff, Z.eqb_eq in B; unfold count in B.
    + destruct mntpoints; [contradiction | discriminate].
    + lia.
Qed.

(** [dispose_handle_list] goes through the whole list: a handle whose
    release fails is reported, and the release goes on with the next
    one. The value returned is -1 if a release failed and 0
    otherwise. *)
Theorem dispose_handle_list_all (hl : list quota_handle) :
  let failed := filter (fun h => end_io IO h <? 0) hl in
  snd (dispose_handle_list IO hl)
  = map (fun h => EvErrstr "Error while releasing file on %s\n"
                    [qh_quotadev h]) failed
  /\ fst (dispose_handle_list IO hl)
     = (if (length failed =? 0)%nat then 0 else -1)
  /\ (fst (dispose_handle_list IO hl) = -1
      <-> exists h, In h hl /\ end_io IO h < 0).
Proof.
  cbv zeta. unfold dispose_handle_list.
  assert (G : forall ret,
    snd (dispose_handle_list_loop IO hl ret)
    = map (fun h => EvErrstr "Error while releasing file on %s\n"
                      [qh_quotadev h])
        (filter (fun h => end_io IO h <? 0) hl)
    /\ fst (dispose_handle_list_loop IO hl ret)
       = if Nat.eqb (length (filter (fun h => end_io IO h <? 0) hl)) 0
         then ret else -1).
  { induction hl as [|h hl IH]; intros ret; [simpl; auto|].
    cbn [dispose_handle_list_loop filter].
    destruct (end_io IO h <? 0).
    - destruct (IH (-1)) as [I1 I2].
      destruct (dispose_handle_list_loop IO hl (-1)) as [r d].
      simpl in *. subst. split; [reflexivity|].
      now destruct (Nat.eqb (length _) 0).
    - apply IH. }
  destruct (G 0) as [G1 G2]. split; [exact G1|]. split; [exact G2|].
  rewrite G2.
  destruct (filter (fun h => end_io IO h <? 0) hl) as [|h l] eqn:F; simpl.
  - split; [discriminate|]. intros (h & Hin & Hf).
    assert (X : In h (filter (fun h => end_io IO h <? 0) hl)).
    { apply filter_In. split; [exact Hin | now apply Z.ltb_lt]. }
    rewrite F in X. contradiction.
  - split; [intros _ | reflexivity].
    assert (X : In h (filter (fun h => end_io IO h <? 0) hl))
      by (rewrite F; now left).
    apply filter_In in X as [Hin Hf]. apply Z.ltb_lt in Hf. eauto.
Qed.

(** [devcmp_handles] relates every handle to itself and does not depend
    on the order of its arguments. [devcmp_handle] on the device of a
    handle agrees with it, as far as the handle records what [stat] tells
    of its device and the devices are two block devices or the first one
    is none. *)
Theorem devcmp_handles_sym (a b : quota_handle) :
  devcmp_handles a a = true
  /\ devcmp_handles a b = devcmp_handles b a
  /\ (sys_stat W (qh_quotadev a) = SysOk (qh_stat a) ->
      S_ISBLK (st_mode (qh_stat a)) = false
      \/ S_ISBLK (st_mode (qh_stat b)) = true ->
      devcmp_handle W (qh_quotadev a) b = devcmp_handles a b).
Proof.
  unfold devcmp_handles, devcmp_handle, strcmp_eq.
  split; [|split].
  - destruct (S_ISBLK (st_mode (qh_stat a))); simpl.
    + now rewrite Z.eqb_refl.
    + apply String.eqb_refl.
  - rewrite (String.eqb_sym (qh_quotadev a)), (Z.eqb_sym (st_rdev (qh_stat a))).
    now destruct (S_ISBLK (st_mode (qh_stat a))),
      (S_ISBLK (st_mode (qh_stat b))).
  - intros -> [-> | ->]; simpl; [reflexivity|].
    destruct (S_ISBLK (st_mode (qh_stat a))); reflexivity.
Qed.

End HandleFacts.

(** ** Examples on concrete machines *)

Import Dist Examples.

(** C10 on two option strings. *)
Lemma str_hasmntopt_tokens_witness :
  str_hasmntopt "rw,usrquota,grpquota=/g" "grpquota" = Some 12%nat
  /\ str_hasmntopt "rw,usrquota,loop=/quota" "quota" = None.
Proof.
  split.
  - rewrite (proj1 (str_hasmntopt_tokens "rw,usrquota,grpquota=/g" "grpquota"
                      ltac:(discriminate))).
    reflexivity.
  - rewrite (proj1 (str_hasmntopt_tokens "rw,usrquota,loop=/quota" "quota"
                      ltac:(discriminate))).
    reflexivity.
Defined.

(** C10, as stated, fails for the empty name: the empty token after a
    trailing comma is not examined. *)
Lemma str_hasmntopt_empty_name :
  In "" (map opt_name (split_comma "a,"))
  /\ str_hasmntopt "a," "" = None.
Proof. split; [simpl; auto | reflexivity]. Qed.

Example str_hasmntopt_not_suffix : str_hasmntopt "rw,usrquota" "quota" = None.
Proof. reflexivity. Qed.

Example str_hasmntopt_not_prefix : str_hasmntopt "rw,usrquota" "usr" = None.
Proof. reflexivity. Qed.

Example str_hasmntopt_not_in_argument :
  str_hasmntopt "loop=usrquota,rw" "usrquota" = None.
Proof. reflexivity. Qed.


(** The sentinel of C4 on a mount without quota and on an RPC request. *)
Lemma kern_quota_on_none_witness :
  kern_quota_on world0 IFACE_GENERIC mount_noquota USRQUOTA (-1) = -1
  /\ kern_quota_on world0 IFACE_GENERIC mount_meta GRPQUOTA QF_RPC = -1.
Proof.
  split.
  - apply (kern_quota_on_none world0 IFACE_GENERIC mount_noquota USRQUOTA (-1)).
    left; simpl; lia.
  - apply (kern_quota_on_none world0 IFACE_GENERIC mount_meta GRPQUOTA QF_RPC).
    right; reflexivity.
Defined.

(** C5, as stated, fails for the requested format QF_RPC. *)
Lemma kern_quota_on_meta_rpc_request :
  qget (me_qfmt mount_meta) USRQUOTA = QF_META
  /\ kern_quota_on world0 IFACE_GENERIC mount_meta USRQUOTA QF_RPC = -1
  /\ kern_quota_on world0 IFACE_GENERIC mount_meta USRQUOTA QF_RPC <> QF_META.
Proof. repeat split; discriminate. Qed.

(** C5 (amended) on a wildcard request. *)
Lemma kern_quota_on_meta_witness :
  kern_quota_on world0 IFACE_GENERIC mount_meta USRQUOTA (-1) = QF_META.
Proof.
  apply (kern_quota_on_meta world0 IFACE_GENERIC mount_meta USRQUOTA (-1));
    try reflexivity; simpl; lia.
Defined.

(** The decision of C2 on a kernel of the Red Hat 7.1 kind. *)
Lemma init_kernel_interface_legacy_pair_witness :
  let k := exit_state (init_kernel_interface world_redhat71 kstate0) in
  kernel_iface k = IFACE_VFSV0 /\ kernel_qfmt k = [QF_VFSV0].
Proof.
  split; [|reflexivity].
  refine (proj1 (proj1 (proj2 (proj2
    (init_kernel_interface_legacy_pair world_redhat71 EINVAL _ _ _ _ _))) _)).
  - vm_compute; tauto.
  - reflexivity.
  - discriminate.
  - discriminate.
  - intros e; discriminate.
  - split; reflexivity.
Defined.

Example init_kernel_interface_linux24 :
  let k := exit_state (init_kernel_interface world_linux24 kstate0) in
  kernel_iface k = IFACE_VFSOLD /\ kernel_qfmt k = [QF_VFSOLD].
Proof. split; reflexivity. Qed.

(** C8 on a machine where /proc/sys/fs/quota cannot be examined. *)
Lemma init_kernel_interface_generic_witness :
  kernel_iface (exit_state (init_kernel_interface world_proc_eacces kstate0))
  = IFACE_GENERIC.
Proof.
  apply (init_kernel_interface_generic world_proc_eacces);
    try (simpl; lia); try discriminate.
  right. exists 13. split; [reflexivity | discriminate].
Defined.

(** C8, as stated, fails: the generic interface is selected although the
    path is not found present. *)
Lemma init_kernel_interface_generic_unreadable :
  (forall sb, sys_stat world_proc_eacces "/proc/sys/fs/quota" <> SysOk sb)
  /\ kernel_iface (exit_state (init_kernel_interface world_proc_eacces kstate0))
     = IFACE_GENERIC.
Proof. split; [intros sb; discriminate | reflexivity]. Qed.

(** C3, as stated, fails: with NF_EXIST, a quota file that does not exist
    fails the resolution. *)
Lemma get_qf_name_missing_file_fails :
  flag_set NF_EXIST NF_EXIST = true
  /\ qf_fullname mount_usrquota USRQUOTA QF_VFSV0 = QfName "/mnt/aquota.user"
  /\ sys_stat world0 "/mnt/aquota.user" = SysErr ENOENT
  /\ get_qf_name world0 mount_usrquota USRQUOTA QF_VFSV0 NF_EXIST
     = QfReturn (-1) None [].
Proof. repeat split. Qed.

(** C3 (amended) on a machine where [stat] fails with EACCES. *)
Lemma get_qf_name_exist_check_witness :
  get_qf_name world_stat_eacces mount_usrquota USRQUOTA QF_VFSV0 NF_EXIST
  = QfReturn (-1) None
      [EvErrstr "Cannot stat quota file %s: %s\n"
         ["/mnt/aquota.user"; "error"]].
Proof.
  refine (proj1 (get_qf_name_exist_check world_stat_eacces mount_usrquota
                   USRQUOTA QF_VFSV0 NF_EXIST "/mnt/aquota.user" _ _) 13 _);
    reflexivity.
Defined.

(** With NF_EXIST and NF_FORMAT, a quota file that [stat] finds but that
    cannot be opened (ENOENT here, from a world where every [open] fails)
    is returned without any format check. *)
Example get_qf_name_exist_format_unopened :
  let W := with_stat
             (fun _ => SysOk {| st_mode := 33152; st_dev := 2049;
                                st_rdev := 0; st_ino := 12 |}) world0 in
  flag_set (Z.lor NF_EXIST NF_FORMAT) NF_EXIST = true
  /\ flag_set (Z.lor NF_EXIST NF_FORMAT) NF_FORMAT = true
  /\ get_qf_name W mount_usrquota USRQUOTA QF_VFSV0 (Z.lor NF_EXIST NF_FORMAT)
     = QfReturn 0 (Some "/mnt/aquota.user") [].
Proof. repeat split. Qed.


(** With the tables of the distribution: a user quota file of format
    vfsv0 on a mount with the option usrquota is "<mountpoint>/aquota.user",
    and the argument of usrjquota is appended to "<mountpoint>/". *)
Lemma qf_fullname_aquota_user (mnt : mount_entry) (dir : string)
  (option : nat) :
  me_dir mnt = Some dir ->
  str_hasmntopt (me_opts mnt) "usrquota" = Some option ->
  is_char "=" (char_at (me_opts mnt) (option + 8)) = false ->
  (String.length dir + 12 < PATH_MAX)%nat ->
  qf_fullname mnt USRQUOTA QF_VFSV0 = QfName (dir ++ "/aquota.user").
Proof.
  intros Hdir Hopt Hnoarg Hfit.
  rewrite (qf_fullname_default mnt USRQUOTA QF_VFSV0 dir "aquota" option);
    try assumption; try reflexivity; try discriminate.
  rewrite str_app_length.
  change (String.length ("/" ++ "aquota" ++ "." ++ type2name USRQUOTA))
    with 12%nat.
  exact Hfit.
Qed.


(** C7 on a mount with usrjquota=aquota.user. *)
Lemma get_qf_name_journaled_witness :
  get_qf_name world0 mount_journal_rel USRQUOTA QF_VFSV0 0
  = QfReturn 0 (Some "/mnt/aquota.user") [].
Proof.
  refine (proj1 (proj2 (get_qf_name_journaled world0 mount_journal_rel
                          USRQUOTA QF_VFSV0 "/mnt" 10%nat _ _ _ _)));
    try reflexivity.
  vm_compute. lia.
Defined.

(** C7, as stated, fails: the argument "/my/journal" resolves to
    "<mountpoint>//my/journal". *)
Lemma get_qf_name_journaled_double_slash :
  get_qf_name world0 mount_journal USRQUOTA QF_VFSV0 0
  = QfReturn 0 (Some "/mnt//my/journal") []
  /\ "/mnt//my/journal" <> "/mnt/my/journal".
Proof. split; [reflexivity | discriminate]. Qed.

Example cache_mtab_default :
  map (fun e => (me__dir e, me_dev e))
    (mnt_entries (snd (cache_mnt_table world_mounts 0)))
  = [("/home", 2049); ("/net/a", 45); ("/misc/cd", 2065)].
Proof. vm_compute. reflexivity. Qed.

Example cache_mtab_nfs_all :
  map (fun e => (me__dir e, me_dev e))
    (mnt_entries (snd (cache_mnt_table world_mounts MS_NFS_ALL)))
  = [("/home", 2049); ("/net/a", 45); ("/net/b", 45); ("/misc/cd", 2065)].
Proof. vm_compute. reflexivity. Qed.

Example cache_mtab_no_autofs :
  map (fun e => (me__dir e, me_dev e))
    (mnt_entries (snd (cache_mnt_table world_mounts MS_NO_AUTOFS)))
  = [("/home", 2049); ("/net/a", 45)].
Proof. vm_compute. reflexivity. Qed.

(** C1 on the example mount table. *)
Lemma cache_mnt_table_dedup_witness :
  NoDup (map me_dev (mnt_entries (snd (cache_mnt_table world_mounts 0))))
  /\ NoDup (map me_dev
              (filter is_local
                 (mnt_entries
                    (snd (cache_mnt_table world_mounts MS_NFS_ALL))))).
Proof.
  split.
  - refine (proj1 (cache_mnt_table_dedup world_mounts 0 mtab _) _);
      reflexivity.
  - refine (proj1 (proj2
      (cache_mnt_table_dedup world_mounts MS_NFS_ALL mtab _)));
      reflexivity.
Defined.



(** ** More examples on concrete machines *)

Import DistMore MoreExamples.

(** The format numbers of the distribution are converted to the kernel
    numbers and back. *)
Lemma util2kernfmt_kern2utilfmt_witness :
  kern2utilfmt (util2kernfmt QF_VFSV0) = QF_VFSV0
  /\ util2kernfmt (kern2utilfmt QFMT_VFS_V1) = QFMT_VFS_V1.
Proof.
  assert (U : NoDup [QF_VFSOLD; QF_VFSV0; QF_VFSV1])
    by (repeat constructor; simpl; intuition discriminate).
  assert (K : NoDup [QFMT_VFS_OLD; QFMT_VFS_V0; QFMT_VFS_V1; QFMT_OCFS2])
    by (repeat constructor; simpl; intuition discriminate).
  split.
  - apply (proj1 (util2kernfmt_kern2utilfmt U K)). simpl; auto.
  - apply (proj2 (util2kernfmt_kern2utilfmt U K)). simpl; auto.
Defined.

(** The name of format 2 is vfsv1, and vfsv1 is the name of format 2. *)
Lemma fmt2name_name2fmt_witness :
  fmt2name QF_VFSV1 = Some "vfsv1"
  /\ name2fmt "vfsv1" = Some (QF_VFSV1, []).
Proof.
  split; [reflexivity|].
  refine (proj1 (fmt2name_name2fmt QF_VFSV1 "vfsv1" _) _); reflexivity.
Defined.

(** ext4 is not the name of a quota format. *)
Lemma name2fmt_unknown_witness :
  exists fmtstr, name2fmt "ext4" = Some (QF_ERROR, [EvErrstr fmtstr ["ext4"]]).
Proof.
  refine (proj2 (name2fmt_unknown "ext4" _) _); [reflexivity|].
  simpl. intuition discriminate.
Defined.


Example time2str_two_hours : time2str 7200 0 = "2hours".
Proof. reflexivity. Qed.

Example time2str_90_seconds : time2str 90 0 = "90seconds".
Proof. reflexivity. Qed.

(** Past the range of [unsigned int] the time printed is wrong. *)
Example time2str_wraps : time2str 4294967297 0 = "1seconds".
Proof. reflexivity. Qed.


Example time2str_round_minutes : time2str 5430 TF_ROUND = "01:31".
Proof. reflexivity. Qed.

Example time2str_round_days : time2str 259199 TF_ROUND = "3days".
Proof. reflexivity. Qed.

(** A deadline that is not set, and one that has passed. *)
Lemma difftime2str_cases_witness :
  difftime2str 1000 0 = "" /\ difftime2str 1000 900 = "none".
Proof.
  assert (M : (2 <= MAXTIMELEN)%nat) by (cbn; lia).
  split.
  - apply (proj1 (difftime2str_cases 1000 0 M)). reflexivity.
  - apply (proj2 (difftime2str_cases 1000 900 M)). split; [discriminate | lia].
Defined.


Example number2str_1235k : number2str 1234567 1 = "1235k".
Proof. reflexivity. Qed.

(** Near the top of the range the sum wraps around and the number printed
    is too small. *)
Example number2str_wraps : number2str 18446744073709551615 1 = "0t".
Proof. reflexivity. Qed.

(** Five megabytes are 5120 blocks. *)
Lemma str2space_sound_witness :
  str2space 5 "M" = (None, Some 5120).
Proof.
  assert (N : 0 <= 5 < 18446744073709551616) by lia.
  assert (Q : 0 <= QSIZE_MAX < 18446744073709551616) by (cbn; lia).
  pose proof (str2space_sound 5 "M" N Q) as S.
  cbv zeta in S.
  destruct (str2space 5 "M") as [[msg|] [space|]] eqn:E;
    try contradiction; try (vm_compute in E; discriminate E).
  destruct S as (_ & shift & I & -> & _). simpl in I.
  destruct I as [X | [X | [X | [X | [X | []]]]]]; try discriminate X.
  injection X as <-. reflexivity.
Defined.

Example str2space_too_large :
  exists msg, str2space 9007199254740992 "T" = (Some msg, None).
Proof. eexists. reflexivity. Qed.

(** A journaled option without a file name at the end of the options: the
    argument found is empty. *)
Lemma hasmntoptarg_argument_witness :
  hasmntoptarg "rw,usrjquota=" "usrjquota" = Some 13%nat
  /\ arg_at (str_drop 13 "rw,usrjquota=") = "".
Proof.
  split; [reflexivity|].
  refine (proj2 (proj2 (proj2 (proj2 (proj2
    (hasmntoptarg_argument "rw,usrjquota=" "usrjquota" 13 _))))) _);
    reflexivity.
Defined.

(** A buffer of five bytes gets four characters of the argument. *)
Lemma copy_mntoptarg_truncates_witness :
  copy_mntoptarg "aquota.user,jqfmt=vfsv0" 5
  = str_take 4 (arg_at "aquota.user,jqfmt=vfsv0").
Proof.
  refine (proj1 (copy_mntoptarg_truncates "aquota.user,jqfmt=vfsv0" 5 _)).
  lia.
Defined.

(** On a kernel of the Red Hat 7.1 kind QF_RPC is not supported. *)
Lemma init_kernel_interface_formats_witness :
  kern_qfmt_supp (exit_state (init_kernel_interface world_redhat71 kstate0))
    QF_RPC = false.
Proof.
  refine (proj2 (proj2 (proj2
    (init_kernel_interface_formats world_redhat71 kstate0 _ _))) QF_RPC _ _).
  - simpl. lia.
  - simpl. lia.
  - simpl. intuition discriminate.
  - discriminate.
Defined.

(** A kernel without quota support. *)
Lemma init_kernel_interface_none_witness :
  let k := exit_state (init_kernel_interface world0 kstate0) in
  kernel_iface k = 0 /\ kernel_qfmt k = [].
Proof.
  assert (S : 0 <= 0) by lia.
  pose proof (init_kernel_interface_none world0 kstate0 ENOSYS
                S S eq_refl eq_refl (or_introl eq_refl)) as N.
  cbv zeta in N. split; [exact (proj1 N) | reflexivity].
Defined.

(** With NF_FORMAT alone, the name of a quota file that does not exist is
    returned. *)
Lemma get_qf_name_unopened_witness :
  get_qf_name world0 mount_usrquota USRQUOTA QF_VFSV0 NF_FORMAT
  = QfReturn 0 (Some "/mnt/aquota.user") [].
Proof.
  refine (get_qf_name_unopened world0 mount_usrquota USRQUOTA QF_VFSV0
            NF_FORMAT ENOENT "/mnt/aquota.user" _ _ _ _);
    try reflexivity.
  now left.
Defined.

(** The record of /home, with the options rw,usrquota, is left to the
    VFS formats, and the resolver finds its option; the [hasmntopt] of
    this machine finds the whole string of options in it, which
    [str_hasmntopt] does not. *)
Lemma hasquota_then_qf_fullname_witness :
  libc_hasmntopt world_strstr home "rw,usrquota" = true
  /\ str_hasmntopt (mnt_opts home) "rw,usrquota" = None
  /\ hasquota world_strstr "/dev/sda1" home USRQUOTA 0 = QF_VFSUNKNOWN
  /\ qf_fullname mount_usrquota USRQUOTA QF_VFSV0 <> NoQuotaOption.
Proof.
  split; [reflexivity|]. split; [reflexivity|]. split; [reflexivity|].
  apply (hasquota_then_qf_fullname world_strstr "/dev/sda1" home
           mount_usrquota USRQUOTA 0 QF_VFSV0).
  - intros opt [<- | [<- | [<- | []]]] Hh; vm_compute in Hh |- *;
      first [discriminate Hh | discriminate].
  - reflexivity.
  - simpl. intuition discriminate.
  - reflexivity.
Defined.

(** The first entry of the cache of the example machine comes from the
    record of /home. *)
Lemma cache_mnt_table_origin_witness :
  let e := new_mount_entry home "/dev/sda1" "/home"
             {| q_usr := QF_VFSUNKNOWN; q_grp := -1 |} 2049 2 in
  In e (mnt_entries (snd (cache_mnt_table world_mounts 0)))
  /\ me_dir e = None
  /\ exists mnt, In mnt mtab /\ cached_from world_mounts 0 mnt e.
Proof.
  intros e.
  assert (I : In e (mnt_entries (snd (cache_mnt_table world_mounts 0))))
    by (left; reflexivity).
  split; [exact I|].
  pose proof (cache_mnt_table_origin world_mounts 0 mtab e eq_refl I) as O.
  split; [exact (proj1 O) | exact (proj2 (proj2 O))].
Defined.

(** The scan of all mountpoints passes over /backup, mounted with
    noauto. *)
Lemma get_next_mount_all_witness :
  exists m',
    yields scan_all
      [set_me_dir "/home" cached_home; set_me_dir "/srv" cached_srv] m'
    /\ ms_trace m' = [].
Proof.
  destruct (get_next_mount_all scan_all eq_refl eq_refl)
    as (m' & Y & _ & T & _).
  exists m'. split; [exact Y | exact T].
Defined.

(** The scan of selected mountpoints returns /srv for its device and
    /home, and reports /mnt/usb. *)
Lemma get_next_mount_selected_witness :
  exists m',
    yields scan_selected
      [set_me_dir "/srv" cached_srv; set_me_dir "/home" cached_home] m'
    /\ length (ms_trace m') = 1%nat
    /\ get_next_mount m' = NextUndefined.
Proof.
  assert (A : Forall sd_assigned (check_dirs scan_selected)).
  { repeat constructor; intros E; discriminate. }
  assert (N : check_dirs scan_selected <> []) by discriminate.
  destruct (get_next_mount_selected scan_selected N eq_refl A)
    as (m' & Y & T & _ & _ & U).
  exists m'. split; [exact Y|]. split; [rewrite T; reflexivity | exact U].
Defined.

(** On the example machine a list for all mountpoints is made: it has
    room for its terminator, and its handles are those of the mounts
    that the scan yields. *)
Lemma create_handle_list_sound_witness :
  exists r mnts m2,
    create_handle_list world_mounts io_no_sdb1 [] USRQUOTA (-1) 0 0
      mounts0 handles0 = Some r
    /\ Z.of_nat (length (hlist (snd (exit_state r))))
       < hlist_allocated (snd (exit_state r))
    /\ yields (snd (init_mounts_scan world_mounts [] 0 mounts0)) mnts m2
    /\ hlist (snd (exit_state r))
       = flat_map (handle_of io_no_sdb1 USRQUOTA (-1) 0)
           (filter (handle_wanted 0 (-1)) mnts)
    /\ r = Returns (exit_state r).
Proof.
  assert (A : 0 <= hlist_allocated handles0) by (simpl; lia).
  destruct (create_handle_list_sound world_mounts io_no_sdb1 [] USRQUOTA
              (-1) 0 0 mounts0 handles0 A)
    as (r & E & K & _ & S).
  destruct S as (mnts & m2 & hs' & Y & C & _ & X & _ & _ & _ & R).
  { vm_compute. discriminate. }
  exists r, mnts, m2. rewrite X. simpl.
  split; [exact E|]. split; [rewrite X in K; exact K|].
  split; [exact Y|]. split; [exact C|]. apply R. now left.
Defined.

Example create_handle_list_example :
  option_map
    (fun r => map qh_quotadev (hlist (snd (exit_state r))))
    (create_handle_list world_mounts io_no_sdb1 [] USRQUOTA (-1) 0 0
       mounts0 handles0)
  = Some ["/dev/sda1"; "server:/export"].
Proof. vm_compute. reflexivity. Qed.

(** Paths were given and one of them is no mountpoint with quota: the
    process dies with status 1. *)
Example create_handle_list_dies :
  match create_handle_list world_mounts io_no_sdb1 ["/home"; "/tmp"]
          USRQUOTA (-1) 0 0 mounts0 handles0 with
  | Some (Dies status _ _) => status = 1
  | _ => False
  end.
Proof. vm_compute. reflexivity. Qed.

Example do_syslog_two_lines :
  do_syslog LOG_ERR ("first" ++ String newline "second" ++ String newline "")
  = [OutSyslog LOG_ERR "first"; OutSyslog LOG_ERR "second"].
Proof. reflexivity. Qed.
